(** * Bubble Tea rendering core: clickable registry, cursor-position reply
    parser and standard renderer, embedded from the Go sources.

    The first part is the program:
    - [GoInt]: the 64-bit [int] of Go, as [Z] with its wrap-around.
    - [Utf8]: Go strings as byte lists, and the way [for i, r := range s]
      and [strings.Builder.WriteRune] decode and encode them.
    - [Clickable]: [clickable.go].
    - [CursorPosition]: [parseCursorPositionEvent].
    - [Renderer]: [newRenderer], [flush], [moveRenderingHead], [write] of the
      standard renderer, and the methods that switch screens, set the
      ignored rows, scroll and handle the renderer's messages.

    The second part holds what is proved of each, in the modules
    [GoIntFacts], [Utf8Facts], [ClickableFacts], [CursorPositionFacts] and
    [RendererFacts]. *)

From Stdlib Require Import ZArith Lia Strings.Byte Strings.String DecimalString.
From stdpp Require Import base option list gmap.

#[local] Open Scope Z_scope.

(** * The program *)

(** ** Go's [int] *)

Module GoInt.

(** [int] is 64 bits wide on the platforms the program is built for. *)
Definition maxInt : Z := 2 ^ 63 - 1.
Definition minInt : Z := - 2 ^ 63.

Definition inRange (z : Z) : Prop := minInt <= z <= maxInt.

(** Two's complement wrap-around of an exact result. *)
Definition wrap (z : Z) : Z := (z + 2 ^ 63) mod 2 ^ 64 - 2 ^ 63.

Definition add (a b : Z) : Z := wrap (a + b).
Definition sub (a b : Z) : Z := wrap (a - b).
Definition neg (a : Z) : Z := wrap (- a).

End GoInt.

(** ** Go strings and their runes *)

Module Utf8.

(** A Go [string] (and a [[]byte]) is a sequence of bytes. *)
Abbreviation gostring := (list byte).

Definition bytes (s : string) : gostring := list_byte_of_string s.

Definition byteZ (b : byte) : Z := Z.of_N (Byte.to_N b).

Definition Zbyte (z : Z) : byte :=
  match Byte.of_N (Z.to_N z) with
  | Some b => b
  | None => x00
  end.

#[export] Instance byte_eq_dec : EqDecision byte := Byte.byte_eq_dec.

#[export] Instance byte_countable : Countable byte :=
  inj_countable Byte.to_N Byte.of_N Byte.of_to_N.

(** A rune is a code point, an [int32]. *)
Abbreviation rune := Z (only parsing).

Definition RuneError : rune := 0xFFFD.

Definition between (lo hi z : Z) : bool := (lo <=? z) && (z <=? hi).

(** Bounds of the second byte after the lead byte [z0] of a three- or
    four-byte sequence: the well-formed byte sequences of the Unicode
    standard, which exclude overlong forms, surrogates and code points
    above U+10FFFF. *)
Definition secondLo (z0 : Z) : Z :=
  if z0 =? 0xE0 then 0xA0 else if z0 =? 0xF0 then 0x90 else 0x80.
Definition secondHi (z0 : Z) : Z :=
  if z0 =? 0xED then 0x9F else if z0 =? 0xF4 then 0x8F else 0xBF.

(** First rune of [s] and its width in bytes, as [range] decodes it: an
    invalid or truncated sequence yields U+FFFD and a width of one byte. *)
Definition decodeRune (s : gostring) : rune * nat :=
  match s with
  | [] => (RuneError, 0%nat)
  | b0 :: t =>
    let z0 := byteZ b0 in
    if z0 <? 0x80 then (z0, 1%nat)
    else if between 0xC2 0xDF z0 then
      match t with
      | b1 :: _ =>
        if between 0x80 0xBF (byteZ b1)
        then ((z0 - 0xC0) * 64 + (byteZ b1 - 0x80), 2%nat)
        else (RuneError, 1%nat)
      | _ => (RuneError, 1%nat)
      end
    else if between 0xE0 0xEF z0 then
      match t with
      | b1 :: b2 :: _ =>
        if between (secondLo z0) (secondHi z0) (byteZ b1)
           && between 0x80 0xBF (byteZ b2)
        then ((z0 - 0xE0) * 4096 + (byteZ b1 - 0x80) * 64
              + (byteZ b2 - 0x80), 3%nat)
        else (RuneError, 1%nat)
      | _ => (RuneError, 1%nat)
      end
    else if between 0xF0 0xF4 z0 then
      match t with
      | b1 :: b2 :: b3 :: _ =>
        if between (secondLo z0) (secondHi z0) (byteZ b1)
           && between 0x80 0xBF (byteZ b2)
           && between 0x80 0xBF (byteZ b3)
        then ((z0 - 0xF0) * 262144 + (byteZ b1 - 0x80) * 4096
              + (byteZ b2 - 0x80) * 64 + (byteZ b3 - 0x80), 4%nat)
        else (RuneError, 1%nat)
      | _ => (RuneError, 1%nat)
      end
    else (RuneError, 1%nat)
  end.

(** UTF-8 encoding of a rune, as [WriteRune] appends it: a rune that is
    negative, a surrogate or above U+10FFFF is written as U+FFFD. *)
Definition encodeRune (r : rune) : gostring :=
  if between 0 0x7F r then [Zbyte r]
  else if between 0x80 0x7FF r then
    [Zbyte (0xC0 + r / 64); Zbyte (0x80 + r mod 64)]
  else if between 0x800 0xD7FF r || between 0xE000 0xFFFF r then
    [Zbyte (0xE0 + r / 4096); Zbyte (0x80 + (r / 64) mod 64);
     Zbyte (0x80 + r mod 64)]
  else if between 0x10000 0x10FFFF r then
    [Zbyte (0xF0 + r / 262144); Zbyte (0x80 + (r / 4096) mod 64);
     Zbyte (0x80 + (r / 64) mod 64); Zbyte (0x80 + r mod 64)]
  else [xef; xbf; xbd].

(** The pairs [(i, r)] that [for i, r := range s] goes through, [i] the
    byte offset of the rune from the start of the string, counted from
    [i0]. The fuel is the number of bytes, each rune taking at least one. *)
Fixpoint rangeFrom (fuel : nat) (i0 : Z) (s : gostring) : list (Z * rune) :=
  match fuel, s with
  | _, [] => []
  | O, _ => []
  | S fuel', _ =>
    let '(r, n) := decodeRune s in
    (i0, r) :: rangeFrom fuel' (i0 + Z.of_nat n) (drop n s)
  end.

Definition rangeString (s : gostring) : list (Z * rune) :=
  rangeFrom (length s) 0 s.

Definition runes (s : gostring) : list rune := (rangeString s).*2.

(** [utf8.ValidString]: no position of [s] decodes to the one-byte
    U+FFFD of an invalid sequence. *)
Fixpoint validFrom (fuel : nat) (s : gostring) : bool :=
  match fuel, s with
  | _, [] => true
  | O, _ => true
  | S fuel', _ =>
    let '(r, n) := decodeRune s in
    negb ((r =? RuneError) && (n =? 1)%nat) && validFrom fuel' (drop n s)
  end.

Definition validString (s : gostring) : bool := validFrom (length s) s.

(** A decoding step that did not hit an invalid sequence. *)
Definition decoded (d : rune * nat) : bool :=
  negb ((d.1 =? RuneError) && (d.2 =? 1)%nat).

(** Unicode scalar values: the code points that are not surrogates. *)
Definition scalar (r : rune) : Prop :=
  0 <= r <= 0xD7FF \/ 0xE000 <= r <= 0x10FFFF.

End Utf8.

(** ** The clickable registry ([clickable.go]) *)

Module Clickable.
Import Utf8.

Record cell := { x : Z; y : Z }.

Record clickableBounds := {
  start : cell;
  end_ : cell;
  (* byte offset of the opening marker in the frame *)
  sequencePosition : Z;
}.

(** [data] is an [interface{}]: [None] is Go's [nil]. *)
Record clickable {Data : Type} := {
  data : option Data;
  bounds : clickableBounds;
  generation : Z;
}.
Arguments clickable : clear implicits.

Record clickableState {Data : Type} := {
  currentGeneration : Z;
  idCounter : Z;
  stableKeyMap : gmap gostring Z;
  currentRegistered : gmap Z (clickable Data);
  nextRegistered : gmap Z (clickable Data);
}.
Arguments clickableState : clear implicits.

(** Zero values of the structs. *)
Definition zeroCell : cell := {| x := 0; y := 0 |}.
Definition zeroBounds : clickableBounds :=
  {| start := zeroCell; end_ := zeroCell; sequencePosition := 0 |}.

Definition containsPoint (cb : clickableBounds) (p : cell) : bool :=
  ((y (start cb) <? y p) || ((y (start cb) =? y p) && (x (start cb) <=? x p)))
  && ((y (end_ cb) >? y p) || ((y (end_ cb) =? y p) && (x (end_ cb) >=? x p))).

(** The three interlinear annotation characters. *)
Definition annotationAnchor : rune := 0xFFF9.
Definition annotationSeparator : rune := 0xFFFA.
Definition annotationTerminator : rune := 0xFFFB.

(** Local variables of the loop of [stripClickableSequencesFromFrame]. *)
Record parser := {
  prev : cell;
  current : cell;
  parsingClickableStack : list clickableBounds;
  currentParsingId : Z;
  strippedFrameBuilder : gostring;
}.

Definition parserInit : parser :=
  {| prev := zeroCell; current := zeroCell; parsingClickableStack := [];
     currentParsingId := -1; strippedFrameBuilder := [] |}.

Section Registry.
Context {Data : Type}.
(** [runewidth.RuneWidth] of the go-runewidth library. *)
Variable RuneWidth : rune -> Z.

Abbreviation state := (clickableState Data).

Definition zeroClickable : clickable Data :=
  {| data := None; bounds := zeroBounds; generation := 0 |}.

Definition makeClickableState : state :=
  {| currentGeneration := 0; idCounter := 0; stableKeyMap := ∅;
     currentRegistered := ∅; nextRegistered := ∅ |}.

Definition setNextRegistered (cr : state) (m : gmap Z (clickable Data)) : state :=
  {| currentGeneration := currentGeneration cr; idCounter := idCounter cr;
     stableKeyMap := stableKeyMap cr;
     currentRegistered := currentRegistered cr; nextRegistered := m |}.

Definition setCurrentRegistered (cr : state) (m : gmap Z (clickable Data)) : state :=
  {| currentGeneration := currentGeneration cr; idCounter := idCounter cr;
     stableKeyMap := stableKeyMap cr;
     currentRegistered := m; nextRegistered := nextRegistered cr |}.

(** One iteration of the loop either goes on with the updated registry and
    locals, or leaves the function, which then returns the frame as it
    came. *)
Inductive step :=
| Next (cr : state) (p : parser)
| ReturnFrame (cr : state).

(** [current] after a rune that is written to the stripped frame. *)
Definition advance (c : cell) (r : rune) : cell :=
  if r =? 13 then {| x := 0; y := y c |}
  else if r =? 10 then {| x := 0; y := GoInt.add (y c) 1 |}
  else {| x := GoInt.add (x c) (RuneWidth r); y := y c |}.

(** [parsingClickableStack[last]]; [last] is within the slice wherever the
    loop reads it (lemma [stackAt_in_range]). *)
Definition stackAt (stack : list clickableBounds) (last : Z) : clickableBounds :=
  default zeroBounds (stack !! Z.to_nat last).

Definition stripStep (cr : state) (p : parser) (ir : Z * rune) : step :=
  let '(i, r) := ir in
  if r =? annotationAnchor then
    Next cr
      {| prev := prev p; current := current p;
         parsingClickableStack :=
           parsingClickableStack p
           ++ [{| start := current p; end_ := zeroCell; sequencePosition := i |}];
         currentParsingId := 0;
         strippedFrameBuilder := strippedFrameBuilder p |}
  else if r =? annotationSeparator then
    if currentParsingId p =? -1 then
      ReturnFrame (setNextRegistered cr ∅)
    else
      Next cr
        {| prev := prev p; current := current p;
           parsingClickableStack := parsingClickableStack p;
           currentParsingId := GoInt.add (currentParsingId p) 1;
           strippedFrameBuilder := strippedFrameBuilder p |}
  else if r =? annotationTerminator then
    let last := Z.of_nat (length (parsingClickableStack p)) - 1 in
    if last <? 0 then ReturnFrame (setNextRegistered cr ∅)
    else
      match nextRegistered cr !! currentParsingId p with
      | Some existing =>
        if generation existing =? GoInt.add (currentGeneration cr) 1 then
          let top := stackAt (parsingClickableStack p) last in
          let existing' :=
            {| data := data existing;
               bounds := {| start := start top; end_ := prev p;
                            sequencePosition := sequencePosition top |};
               generation := generation existing |} in
          Next
            (setNextRegistered cr
               (<[currentParsingId p := existing']> (nextRegistered cr)))
            {| prev := prev p; current := current p;
               parsingClickableStack :=
                 take (Z.to_nat last) (parsingClickableStack p);
               currentParsingId := if last =? 0 then -1 else 0;
               strippedFrameBuilder := strippedFrameBuilder p |}
        else ReturnFrame (setNextRegistered cr ∅)
      | None => ReturnFrame (setNextRegistered cr ∅)
      end
  else
    if currentParsingId p >? 0 then
      ReturnFrame (setCurrentRegistered cr ∅)
    else
      Next cr
        {| prev := current p; current := advance (current p) r;
           parsingClickableStack := parsingClickableStack p;
           currentParsingId := currentParsingId p;
           strippedFrameBuilder := strippedFrameBuilder p ++ encodeRune r |}.

Fixpoint stripLoop (l : list (Z * rune)) (cr : state) (p : parser) : step :=
  match l with
  | [] => Next cr p
  | ir :: l' =>
    match stripStep cr p ir with
    | Next cr' p' => stripLoop l' cr' p'
    | ReturnFrame cr' => ReturnFrame cr'
    end
  end.

(** The method mutates its receiver: the registry afterwards, and the string
    returned. *)
Definition stripClickableSequencesFromFrame (cr : state) (frame : gostring)
  : state * gostring :=
  match stripLoop (rangeString frame) cr parserInit with
  | ReturnFrame cr' => (cr', frame)
  | Next cr' p =>
    if negb (currentParsingId p =? -1) then
      (setCurrentRegistered cr' ∅, frame)
    else (cr', strippedFrameBuilder p)
  end.

Definition swapDoubleBuffer (cr : state) : state :=
  {| currentGeneration := GoInt.add (currentGeneration cr) 1;
     idCounter := idCounter cr; stableKeyMap := stableKeyMap cr;
     currentRegistered := nextRegistered cr;
     nextRegistered := currentRegistered cr |}.

(** Body of the loop of [getClicked]. *)
Definition getClickedStep (cs : state) (p : cell)
  (bestClicked c : clickable Data) : clickable Data :=
  if (generation c =? currentGeneration cs)
     && containsPoint (bounds c) p
     && (sequencePosition (bounds c) >=? sequencePosition (bounds bestClicked))
  then c else bestClicked.

(** [getClicked] when [range] goes through the map's entries in the order
    [entries]: Go leaves the iteration order of a map unspecified. *)
Definition getClickedIn (entries : list (clickable Data)) (cs : state)
  (x y : Z) : option Data :=
  data (fold_left (getClickedStep cs {| x := x; y := y |}) entries zeroClickable).

(** The orders in which the entries of [currentRegistered] can come. *)
Definition iterationOrder (cs : state) (entries : list (clickable Data)) : Prop :=
  entries ≡ₚ (map_to_list (currentRegistered cs)).*2.

(** [getClicked] for one such order, that of [map_to_list]. *)
Definition getClicked (cs : state) (x y : Z) : option Data :=
  getClickedIn (map_to_list (currentRegistered cs)).*2 cs x y.

Definition stableId (cr : state) (key : gostring) : state * Z :=
  match stableKeyMap cr !! key with
  | Some existingId => (cr, existingId)
  | None =>
    let id := idCounter cr in
    ({| currentGeneration := currentGeneration cr;
        idCounter := GoInt.add (idCounter cr) 1;
        stableKeyMap := <[key := id]> (stableKeyMap cr);
        currentRegistered := currentRegistered cr;
        nextRegistered := nextRegistered cr |}, id)
  end.

Definition registerAndWrap (cr : state) (wrapped key : gostring)
  (d : option Data) : state * gostring :=
  let '(cr1, id) := stableId cr key in
  let cr2 :=
    setNextRegistered cr1
      (<[id := {| data := d; bounds := zeroBounds;
                  generation := GoInt.add (currentGeneration cr1) 1 |}]>
         (nextRegistered cr1)) in
  (cr2,
   encodeRune annotationAnchor ++ wrapped
   ++ mjoin (replicate (Z.to_nat id) (encodeRune annotationSeparator))
   ++ encodeRune annotationTerminator).

Definition isMarker (r : rune) : bool :=
  (r =? annotationAnchor) || (r =? annotationSeparator)
  || (r =? annotationTerminator).

(** Ids handed out by [stableId] count up from zero. *)
Definition idsOK (cr : state) : Prop :=
  0 <= idCounter cr <= GoInt.maxInt
  /\ forall key id, stableKeyMap cr !! key = Some id -> 0 <= id < idCounter cr.

(** *** Hit testing *)

Definition cellLe (a b : cell) : Prop := y a < y b \/ (y a = y b /\ x a <= x b).

(** [c] is an entry of the current generation whose bounds contain [p]. *)
Definition candidate (cs : state) (p : cell) (c : clickable Data) : Prop :=
  generation c = currentGeneration cs /\ containsPoint (bounds c) p = true.

Definition hits (cs : state) (p : cell) (c : clickable Data) : Prop :=
  (exists id, currentRegistered cs !! id = Some c) /\ candidate cs p c.

Definition positionsOK (m : gmap Z (clickable Data)) : Prop :=
  map_Forall (fun _ c => 0 <= sequencePosition (bounds c)) m.

(** *** Sequences of calls *)

Inductive op :=
| RegisterAndWrap (wrapped key : gostring) (d : option Data)
| StripFrame (frame : gostring)
| SwapDoubleBuffer.

Definition runOp (cr : state) (o : op) : state :=
  match o with
  | RegisterAndWrap wrapped key d => (registerAndWrap cr wrapped key d).1
  | StripFrame frame => (stripClickableSequencesFromFrame cr frame).1
  | SwapDoubleBuffer => swapDoubleBuffer cr
  end.

Definition run (ops : list op) (cr : state) : state := fold_left runOp ops cr.

Definition isSwap (o : op) : bool :=
  match o with SwapDoubleBuffer => true | _ => false end.

(** Entries of [nextRegistered] under [id] are of the generation being
    built. *)
Definition freshIn (cr : state) (id : Z) : Prop :=
  forall c, nextRegistered cr !! id = Some c ->
    generation c = GoInt.add (currentGeneration cr) 1.

Definition stepState (s : step) : state :=
  match s with Next cr _ => cr | ReturnFrame cr => cr end.

Definition stackOK (p : parser) : Prop :=
  Forall (fun b => 0 <= sequencePosition b) (parsingClickableStack p).

(** What a stretch of the loop, and so the whole call, does to the
    registry: the counters and the key map stay, [currentRegistered] stays or
    is emptied, and [nextRegistered] keeps the generation under every id. *)
Definition registryKept (cr cr' : state) : Prop :=
  currentGeneration cr' = currentGeneration cr
  /\ idCounter cr' = idCounter cr /\ stableKeyMap cr' = stableKeyMap cr
  /\ (currentRegistered cr' = currentRegistered cr \/ currentRegistered cr' = ∅)
  /\ (forall id, freshIn cr id -> freshIn cr' id)
  /\ (positionsOK (nextRegistered cr) -> positionsOK (nextRegistered cr')).

(** Byte offsets are never negative, in both maps, whatever was called. *)
Definition boundsOK (cr : state) : Prop :=
  positionsOK (currentRegistered cr) /\ positionsOK (nextRegistered cr).

End Registry.

(** *** What the calls keep, and what they register *)

Section RegistryInvariants.
Context {Data : Type}.
Variable RuneWidth : rune -> Z.

Abbreviation state := (clickableState Data).

(** [prev] and [current] after the loop has written the runes [rs]. *)
Definition walk (pc : cell * cell) (rs : list rune) : cell * cell :=
  fold_left (fun pc r => (pc.2, advance RuneWidth pc.2 r)) rs pc.

(** The entries of [m'] are those of [m], up to their bounds. *)
Definition sameEntries (m m' : gmap Z (clickable Data)) : Prop :=
  forall id,
    match m !! id, m' !! id with
    | Some c, Some c' => data c' = data c /\ generation c' = generation c
    | None, None => True
    | _, _ => False
    end.

(** No two keys share an id. *)
Definition keysInjective (cr : state) : Prop :=
  forall k1 k2 id,
    stableKeyMap cr !! k1 = Some id -> stableKeyMap cr !! k2 = Some id -> k1 = k2.

(** The payloads that [ops] register. *)
Definition registeredBy (ops : list (op (Data := Data))) (d : option Data) : Prop :=
  exists wrapped key, RegisterAndWrap wrapped key d ∈ ops.

(** Entries of [nextRegistered] of the generation being built carry
    payloads that [ops] registered. *)
Definition pendingFrom (cr : state) (ops : list (op (Data := Data))) : Prop :=
  forall id c,
    nextRegistered cr !! id = Some c ->
    generation c = GoInt.add (currentGeneration cr) 1 ->
    registeredBy ops (data c).

(** Generations never run ahead of the counter. *)
Definition generationsOK (cr : state) : Prop :=
  0 <= currentGeneration cr
  /\ (forall id c, currentRegistered cr !! id = Some c ->
        generation c <= currentGeneration cr)
  /\ (forall id c, nextRegistered cr !! id = Some c ->
        generation c <= currentGeneration cr + 1).

(** The entry that stripping a frame leaves for a clickable wrapped around
    [S] after the text [pre]. *)
Definition renderedEntry (cr : state) (pre S : gostring) (P : option Data)
  : clickable Data :=
  {| data := P;
     bounds :=
       {| start := (walk (zeroCell, zeroCell) (runes pre)).2;
          end_ := (walk (zeroCell, zeroCell) (runes (pre ++ S))).1;
          sequencePosition := Z.of_nat (length pre) |};
     generation := GoInt.add (currentGeneration cr) 1 |}.

(** The ids that the terminators of a frame name, in the order of the
    frame: what the loop of [stripClickableSequencesFromFrame] does to
    [currentParsingId] and to the length [depth] of [parsingClickableStack],
    read off the runes alone. The list ends where the loop leaves the
    function whatever is registered. *)
Fixpoint closedIdsFrom (rs : list rune) (depth : nat) (id : Z) : list Z :=
  match rs with
  | [] => []
  | r :: rs =>
    if r =? annotationAnchor then closedIdsFrom rs (S depth) 0
    else if r =? annotationSeparator then
      if id =? -1 then [] else closedIdsFrom rs depth (GoInt.add id 1)
    else if r =? annotationTerminator then
      match depth with
      | O => []
      | S depth' =>
        id :: closedIdsFrom rs depth' (match depth' with O => -1 | S _ => 0 end)
      end
    else if id >? 0 then [] else closedIdsFrom rs depth id
  end.

Definition closedIds (frame : gostring) : list Z :=
  closedIdsFrom (runes frame) 0 (-1).

(** [id] is registered for the frame being built with payload [d] and has
    no bounds yet: the entry is as [registerAndWrap] writes it. *)
Definition unrendered (cr : state) (id : Z) (d : option Data) : Prop :=
  nextRegistered cr !! id
  = Some {| data := d; bounds := zeroBounds;
            generation := GoInt.add (currentGeneration cr) 1 |}.

End RegistryInvariants.

(** A width function for the examples: one column for every rune but the
    control characters. *)
Definition plainWidth (r : rune) : Z :=
  if between 0x20 0x7E r || (0xA0 <=? r) then 1 else 0.

(** The malformed frames of the test suite. *)
Definition missingTerminatorThenEOF : gostring :=
  bytes "Hello!" ++ encodeRune annotationAnchor ++ bytes "sequence"
  ++ encodeRune annotationSeparator.
Definition missingTerminatorFollowedByText : gostring :=
  bytes "Hello!" ++ encodeRune annotationAnchor ++ bytes "sequence"
  ++ encodeRune annotationSeparator ++ bytes "abc".
Definition missingTerminatorAndCount : gostring :=
  bytes "Hello!" ++ encodeRune annotationAnchor ++ bytes "sequence".
Definition missingStart : gostring :=
  bytes "Hello!sequence" ++ encodeRune annotationSeparator
  ++ encodeRune annotationTerminator.
Definition missingReference : gostring :=
  bytes "Hello!" ++ encodeRune annotationAnchor ++ bytes "sequence"
  ++ mjoin (replicate 4 (encodeRune annotationSeparator))
  ++ encodeRune annotationTerminator.
Definition missingStartAndCount : gostring :=
  bytes "Hello!sequence" ++ encodeRune annotationTerminator.

(** A registry that has one clickable registered for the next frame. *)
Definition oneRegistered : clickableState string :=
  (registerAndWrap makeClickableState (bytes "here") (bytes "link-1")
     (Some "DATA-1"%string)).1.

(** Three frames: the first has a clickable, the next two have none. *)
Definition threeFrames : list (op (Data := string)) :=
  let w := (registerAndWrap makeClickableState (bytes "here") (bytes "link-1")
              (Some "DATA-1"%string)).2 in
  [ RegisterAndWrap (bytes "here") (bytes "link-1") (Some "DATA-1"%string);
    StripFrame (bytes "Click me " ++ w ++ bytes " please");
    SwapDoubleBuffer;
    StripFrame (bytes "nothing to click");
    SwapDoubleBuffer;
    StripFrame (bytes "nothing to click");
    SwapDoubleBuffer ].

(** A clickable nested in another one, stripped and swapped in. *)
Definition nestedFrame : list (op (Data := string)) :=
  let inner := registerAndWrap makeClickableState (bytes "here")
                 (bytes "inner") (Some "inner-data"%string) in
  let outer := registerAndWrap inner.1 (bytes "here or " ++ inner.2)
                 (bytes "outer") (Some "outer-data"%string) in
  [ RegisterAndWrap (bytes "here") (bytes "inner") (Some "inner-data"%string);
    RegisterAndWrap (bytes "here or " ++ inner.2) (bytes "outer")
      (Some "outer-data"%string);
    StripFrame (bytes "Click me " ++ outer.2 ++ bytes " please");
    SwapDoubleBuffer ].

End Clickable.

(** ** The cursor-position reply parser *)

Module CursorPosition.
Import Utf8.

(** The last-known position of the cursor on the screen. *)
Record CursorPositionMsg := { X : Z; Y : Z }.

(** The two ways a call ends: it returns its pair, or an index out of
    range stops the program. *)
Inductive outcome :=
| Returned (ev : CursorPositionMsg) (consumed : Z)
| Panicked.

(** The errors of [strconv]. *)
Inductive NumError := ErrSyntax | ErrRange.

Definition isDigit (b : byte) : bool := between 48 57 (byteZ b).

(** Value of a run of decimal digits, read from the left. *)
Definition digitsValue (ds : gostring) : Z :=
  fold_left (fun n b => n * 10 + (byteZ b - 48)) ds 0.

(** [strconv.Atoi]: an optional sign, then one or more decimal digits; a
    value outside of [int] is clamped and reported as a range error. *)
Definition Atoi (s : gostring) : Z * option NumError :=
  let neg := match s with b :: _ => bool_decide (b = "-"%byte) | [] => false end in
  let ds :=
    match s with
    | b :: t => if bool_decide (b = "-"%byte \/ b = "+"%byte) then t else s
    | [] => s
    end in
  match ds with
  | [] => (0, Some ErrSyntax)
  | _ =>
    if forallb isDigit ds then
      let n := if neg then - digitsValue ds else digitsValue ds in
      if n >? GoInt.maxInt then (GoInt.maxInt, Some ErrRange)
      else if n <? GoInt.minInt then (GoInt.minInt, Some ErrRange)
      else (n, None)
    else (0, Some ErrSyntax)
  end.

(** [buf[lo:hi]]: the bounds are checked, the capacity taken as the
    length. *)
Definition slice (buf : gostring) (lo hi : Z) : option gostring :=
  if (0 <=? lo) && (lo <=? hi) && (hi <=? Z.of_nat (length buf))
  then Some (take (Z.to_nat (hi - lo)) (drop (Z.to_nat lo) buf))
  else None.

(** [bytes.IndexByte] and [bytes.Count] for a one-byte separator. *)
Fixpoint indexByte (s : gostring) (c : byte) : option nat :=
  match s with
  | [] => None
  | b :: t => if bool_decide (b = c) then Some O else S <$> indexByte t c
  end.

Fixpoint countByte (s : gostring) (c : byte) : nat :=
  match s with
  | [] => O
  | b :: t => ((if bool_decide (b = c) then 1 else 0) + countByte t c)%nat
  end.

(** [bytes.SplitN(buf, []byte{sep}, 2)]. *)
Definition SplitN2 (buf : gostring) (sep : byte) : list gostring :=
  match indexByte buf sep with
  | Some k => [take k buf; drop (S k) buf]
  | None => [buf]
  end.

(** The scanning loop: it returns from the function at a second semicolon,
    or ends, at the first 'R' or at the end of the buffer, with [endIdx] and
    [sepIdx]. *)
Inductive scan :=
| ScanReturn
| ScanDone (endIdx sepIdx : Z).

Fixpoint scanLoop (buf : gostring) (i : Z) (sepIdx : Z) : scan :=
  match buf with
  | [] => ScanDone 0 sepIdx
  | c :: rest =>
    if bool_decide (c = ";"%byte) then
      if negb (sepIdx =? -1) then ScanReturn
      else scanLoop rest (i + 1) i
    else if bool_decide (c = "R"%byte) then ScanDone i sepIdx
    else scanLoop rest (i + 1) sepIdx
  end.

Definition parseCursorPositionEvent (buf : gostring) : outcome :=
  let ev := {| X := 0; Y := 0 |} in
  match scanLoop buf 0 (-1) with
  | ScanReturn => Returned ev (-1)
  | ScanDone endIdx sepIdx =>
    if (endIdx =? 0) || (sepIdx =? -1) then Returned ev (-1)
    else if negb (length (SplitN2 buf ";"%byte) =? 2)%nat then Returned ev (-1)
    else
      match slice buf 2 sepIdx with
      | None => Panicked
      | Some ys =>
        let '(yv, err) := Atoi ys in
        let ev := {| X := X ev; Y := yv |} in
        match err with
        | Some _ => Returned ev (-1)
        | None =>
          match slice buf (GoInt.add sepIdx 1) endIdx with
          | None => Panicked
          | Some xs =>
            let '(xv, err) := Atoi xs in
            let ev := {| X := xv; Y := Y ev |} in
            match err with
            | Some _ => Returned ev (-1)
            | None => Returned ev (GoInt.add endIdx 1)
            end
          end
        end
      end
  end.

(** The reply as the specification describes it: the offset of the first
    'R' and of the one semicolon before it. *)
Definition replyFields (buf : gostring) : option (nat * nat) :=
  match indexByte buf "R"%byte with
  | None => None
  | Some e =>
    if (countByte (take e buf) ";"%byte =? 1)%nat then
      match indexByte buf ";"%byte with
      | Some p => Some (p, e)
      | None => None
      end
    else None
  end.

(** A non-negative decimal integer: one or more digits. *)
Definition isNonNegativeDecimal (s : gostring) : bool :=
  negb (bool_decide (s = [])) && forallb isDigit s.

Definition consumedOf (o : outcome) : option Z :=
  match o with Returned _ n => Some n | Panicked => None end.

(** A reply as the terminal sends it: ESC, '[', then the text. *)
Definition csi (s : string) : gostring := x1b :: bytes ("[" ++ s).

End CursorPosition.

(** ** The standard renderer *)

Module Renderer.
Import Utf8.

(** What the renderer uses of [termenv.Output]: each primitive as the bytes
    it writes. *)
Class Output := {
  ClearLine : gostring;
  CursorUp : Z -> gostring;
  CursorDown : Z -> gostring;
  CursorBack : Z -> gostring;
  MoveCursor : Z -> Z -> gostring;
}.

(** The fields of the renderer that hold data; the mutex, the output handle,
    the ticker and the channel are left to the caller. *)
Record standardRenderer := {
  buf : gostring;
  queuedMessageLines : list gostring;
  framerate : Z;
  lastRender : gostring;
  lastRenderLines : list gostring;
  forceRepaint : bool;
  linesRendered : Z;
  useANSICompressor : bool;
  cursorHidden : bool;
  altScreenActive : bool;
  bpActive : bool;
  width : Z;
  height : Z;
  ignoreLines : gset Z;
  skipLines : list bool;
  renderingHead : Z;
}.

Definition defaultFPS : Z := 60.
Definition maxFPS : Z := 120.

(** [time.Second], in nanoseconds. *)
Definition Second : Z := 1000000000.

Definition newRenderer (useANSICompressor : bool) (fps : Z) : standardRenderer :=
  let fps := if fps <? 1 then defaultFPS else if fps >? maxFPS then maxFPS else fps in
  {| buf := []; queuedMessageLines := []; framerate := Second ÷ fps;
     lastRender := []; lastRenderLines := []; forceRepaint := false;
     linesRendered := 0; useANSICompressor := useANSICompressor;
     cursorHidden := false; altScreenActive := false; bpActive := false;
     width := 0; height := 0; ignoreLines := ∅; skipLines := [];
     renderingHead := 0 |}.

Definition setBuf (r : standardRenderer) (b : gostring) : standardRenderer :=
  {| buf := b; queuedMessageLines := queuedMessageLines r;
     framerate := framerate r; lastRender := lastRender r;
     lastRenderLines := lastRenderLines r; forceRepaint := forceRepaint r;
     linesRendered := linesRendered r;
     useANSICompressor := useANSICompressor r;
     cursorHidden := cursorHidden r; altScreenActive := altScreenActive r;
     bpActive := bpActive r; width := width r; height := height r;
     ignoreLines := ignoreLines r; skipLines := skipLines r;
     renderingHead := renderingHead r |}.

Definition setQueuedMessageLines (r : standardRenderer) (q : list gostring)
  : standardRenderer :=
  {| buf := buf r; queuedMessageLines := q;
     framerate := framerate r; lastRender := lastRender r;
     lastRenderLines := lastRenderLines r; forceRepaint := forceRepaint r;
     linesRendered := linesRendered r;
     useANSICompressor := useANSICompressor r;
     cursorHidden := cursorHidden r; altScreenActive := altScreenActive r;
     bpActive := bpActive r; width := width r; height := height r;
     ignoreLines := ignoreLines r; skipLines := skipLines r;
     renderingHead := renderingHead r |}.

Definition setForceRepaint (r : standardRenderer) (f : bool) : standardRenderer :=
  {| buf := buf r; queuedMessageLines := queuedMessageLines r;
     framerate := framerate r; lastRender := lastRender r;
     lastRenderLines := lastRenderLines r; forceRepaint := f;
     linesRendered := linesRendered r;
     useANSICompressor := useANSICompressor r;
     cursorHidden := cursorHidden r; altScreenActive := altScreenActive r;
     bpActive := bpActive r; width := width r; height := height r;
     ignoreLines := ignoreLines r; skipLines := skipLines r;
     renderingHead := renderingHead r |}.

Definition setSkipLines (r : standardRenderer) (s : list bool) : standardRenderer :=
  {| buf := buf r; queuedMessageLines := queuedMessageLines r;
     framerate := framerate r; lastRender := lastRender r;
     lastRenderLines := lastRenderLines r; forceRepaint := forceRepaint r;
     linesRendered := linesRendered r;
     useANSICompressor := useANSICompressor r;
     cursorHidden := cursorHidden r; altScreenActive := altScreenActive r;
     bpActive := bpActive r; width := width r; height := height r;
     ignoreLines := ignoreLines r; skipLines := s;
     renderingHead := renderingHead r |}.

Definition setRenderingHead (r : standardRenderer) (h : Z) : standardRenderer :=
  {| buf := buf r; queuedMessageLines := queuedMessageLines r;
     framerate := framerate r; lastRender := lastRender r;
     lastRenderLines := lastRenderLines r; forceRepaint := forceRepaint r;
     linesRendered := linesRendered r;
     useANSICompressor := useANSICompressor r;
     cursorHidden := cursorHidden r; altScreenActive := altScreenActive r;
     bpActive := bpActive r; width := width r; height := height r;
     ignoreLines := ignoreLines r; skipLines := skipLines r;
     renderingHead := h |}.

(** The last four assignments of [flush]. *)
Definition recordRender (r : standardRenderer) (numLinesThisFlush : Z)
  (newLines : list gostring) (bufString : gostring) : standardRenderer :=
  {| buf := []; queuedMessageLines := queuedMessageLines r;
     framerate := framerate r; lastRender := bufString;
     lastRenderLines := newLines; forceRepaint := forceRepaint r;
     linesRendered := numLinesThisFlush;
     useANSICompressor := useANSICompressor r;
     cursorHidden := cursorHidden r; altScreenActive := altScreenActive r;
     bpActive := bpActive r; width := width r; height := height r;
     ignoreLines := ignoreLines r; skipLines := skipLines r;
     renderingHead := renderingHead r |}.

Definition newline : gostring := [x0a].
Definition carriageReturn : gostring := [x0d].

(** [strings.Split(s, "\n")]. *)
Fixpoint Split (s : gostring) : list gostring :=
  match s with
  | [] => [[]]
  | b :: t =>
    if bool_decide (b = x0a) then [] :: Split t
    else
      match Split t with
      | line :: lines => (b :: line) :: lines
      | [] => [[b]]
      end
  end.

(** [len] of a slice or string. Where the program subtracts from a length
    and cannot leave the range of [int] ([len(newLines)-r.height] under its
    guard, [numLinesThisFlush-1]), the difference is written as it is. *)
Definition len {A} (l : list A) : Z := Z.of_nat (length l).

(** [write] replaces the pending frame. *)
Definition write (r : standardRenderer) (s : gostring) : standardRenderer :=
  let s := if bool_decide (s = []) then bytes " " else s in
  setBuf r s.

Definition repaint (r : standardRenderer) : standardRenderer :=
  setForceRepaint r true.

(** How a call of [flush] ends: it returns, having handed the given bytes to
    the output in one [Write] or having written nothing, or an index out
    of range stops the program. *)
Inductive flushed :=
| Flushed (r : standardRenderer) (written : option gostring)
| FlushPanicked.

Section WithOutput.
Context `{Output}.
(** [truncate.String] of the reflow library. *)
Variable truncateString : gostring -> Z -> gostring.

(** The method appends to the output buffer of [flush]: the renderer
    afterwards, and the bytes appended. *)
Definition moveRenderingHead (r : standardRenderer) (toLine : Z)
  : standardRenderer * gostring :=
  let delta := GoInt.sub toLine (renderingHead r) in
  if delta =? 0 then (r, [])
  else if delta =? 1 then (setRenderingHead r toLine, newline)
  else if delta >? 0 then
    if toLine >? linesRendered r then
      let start := GoInt.sub (linesRendered r) (renderingHead r) in
      (setRenderingHead r toLine,
       CursorDown start ++ mjoin (replicate (Z.to_nat (delta - start)) newline))
    else (setRenderingHead r toLine, CursorDown delta)
  else (setRenderingHead r toLine, CursorUp (GoInt.neg delta)).

(** All entries false, and room for [skipCap] of them. *)
Definition ensureSkiplinesSize (r : standardRenderer) (skipCap : Z)
  : standardRenderer :=
  let n := if len (skipLines r) <? skipCap then skipCap else len (skipLines r) in
  setSkipLines r (replicate (Z.to_nat n) false).

Definition truncated (r : standardRenderer) (line : gostring) : gostring :=
  if width r >? 0 then truncateString line (width r) else line.

(** The lines of the pending frame that fit the height. *)
Definition clipLines (r : standardRenderer) (newLines : list gostring)
  : list gostring :=
  if (height r >? 0) && (len newLines >? height r)
  then drop (Z.to_nat (len newLines - height r)) newLines
  else newLines.

(** "paint all lines" of the full flush. *)
Definition paintAll (r : standardRenderer) (newLines : list gostring) : gostring :=
  mjoin
    (imap
       (fun i line =>
          ClearLine ++ truncated r line
          ++ (if Z.of_nat i <? len newLines - 1
              then carriageReturn ++ newline else []))
       newLines).

Definition fullFlush (r : standardRenderer) (newLines : list gostring)
  : standardRenderer * gostring :=
  let '(r, out) :=
    if negb (renderingHead r =? 0) then moveRenderingHead r 0 else (r, []) in
  let out :=
    out
    ++ mjoin
         (map (fun line => ClearLine ++ line ++ carriageReturn ++ newline)
              (queuedMessageLines r)) in
  let r := setQueuedMessageLines r [] in
  let out := out ++ paintAll r newLines in
  (setRenderingHead r (len newLines - 1), out).

(** The two loops that fill [skipLines]. In the first, a negative row of
    [ignoreLines] is below [skipCap] and out of the range of [skipLines]:
    [None] stands for the panic. *)
Definition markIgnored (r : standardRenderer) (skipCap : Z)
  : option standardRenderer :=
  if bool_decide (set_Forall (fun i => 0 <= i) (ignoreLines r)) then
    Some
      (setSkipLines r
         (set_fold
            (fun i skip =>
               if i <? skipCap then <[Z.to_nat i := true]> skip else skip)
            (skipLines r) (ignoreLines r)))
  else None.

(** In the second, [i] is below [linesRendered], so within [skipLines]. *)
Definition markUnchanged (r : standardRenderer) (newLines : list gostring)
  : standardRenderer :=
  setSkipLines r
    (fold_left
       (fun skip i =>
          match newLines !! Z.to_nat i, lastRenderLines r !! Z.to_nat i with
          | Some new, Some old =>
            if bool_decide (new = old) then <[Z.to_nat i := true]> skip
            else if bool_decide (i ∈ ignoreLines r)
                 then <[Z.to_nat i := true]> skip else skip
          | _, _ =>
            if bool_decide (i ∈ ignoreLines r)
            then <[Z.to_nat i := true]> skip else skip
          end)
       (seqZ 0 (linesRendered r)) (skipLines r)).

Definition skipped (r : standardRenderer) (i : Z) : bool :=
  default false (skipLines r !! Z.to_nat i).

(** One iteration of "paint new lines". *)
Definition paintLine (newLines : list gostring)
  (acc : standardRenderer * gostring) (i : Z) : standardRenderer * gostring :=
  let '(r, out) := acc in
  if skipped r i then (r, out)
  else
    let line := truncated r (default [] (newLines !! Z.to_nat i)) in
    let '(r, move) := moveRenderingHead r i in
    (r,
     out ++ move ++ (if i <? linesRendered r then ClearLine else [])
     ++ line ++ (if i <? len newLines - 1 then carriageReturn else [])).

(** One iteration of the loop that clears what is left of the last
    render. *)
Definition clearLine (acc : standardRenderer * gostring) (i : Z)
  : standardRenderer * gostring :=
  let '(r, out) := acc in
  if skipped r i then (r, out)
  else
    let '(r, move) := moveRenderingHead r i in
    (r, out ++ move ++ ClearLine).

Definition diffFlush (r : standardRenderer) (newLines : list gostring)
  : option (standardRenderer * gostring) :=
  let numLinesThisFlush := len newLines in
  let skipCap :=
    if numLinesThisFlush >? linesRendered r then numLinesThisFlush
    else linesRendered r in
  let r := ensureSkiplinesSize r skipCap in
  r ← markIgnored r skipCap;
  let r := markUnchanged r newLines in
  let '(r, out) :=
    fold_left (paintLine newLines) (seqZ 0 numLinesThisFlush) (r, []) in
  if numLinesThisFlush <? linesRendered r then
    let out := out ++ carriageReturn in
    let '(r, out) :=
      fold_left clearLine
        (seqZ numLinesThisFlush (linesRendered r - numLinesThisFlush)) (r, out) in
    let '(r, move) := moveRenderingHead r (numLinesThisFlush - 1) in
    Some (r, out ++ move)
  else Some (r, out).

Definition forceFullFlush (r : standardRenderer) : bool :=
  ((len (queuedMessageLines r) >? 0) && negb (altScreenActive r))
  || forceRepaint r.

(** "Nothing to do". *)
Definition nothingToDo (r : standardRenderer) : bool :=
  negb (forceFullFlush r)
  && ((len (buf r) =? 0) || bool_decide (buf r = lastRender r)).

Definition flush (r0 : standardRenderer) : flushed :=
  let force := forceFullFlush r0 in
  let r := setForceRepaint r0 false in
  let bufString := buf r in
  if nothingToDo r0 then Flushed r None
  else
    let newLines := clipLines r (Split (buf r)) in
    let numLinesThisFlush := len newLines in
    match
      if force then Some (fullFlush r newLines) else diffFlush r newLines
    with
    | None => FlushPanicked
    | Some (r, out) =>
      let out :=
        out
        ++ (if altScreenActive r
            then MoveCursor (GoInt.add (renderingHead r) 1) 0
            else CursorBack (width r)) in
      Flushed (recordRender r numLinesThisFlush newLines bufString) (Some out)
    end.

End WithOutput.

(** The escape sequences of termenv, for the examples. *)
Definition itoa (n : Z) : gostring :=
  bytes (DecimalString.NilZero.string_of_int (Z.to_int n)).

Definition CSI : gostring := x1b :: bytes "[".

#[export] Instance ansi : Output := {
  ClearLine := CSI ++ bytes "2K";
  CursorUp n := CSI ++ itoa n ++ bytes "A";
  CursorDown n := CSI ++ itoa n ++ bytes "B";
  CursorBack n := CSI ++ itoa n ++ bytes "D";
  MoveCursor row column := CSI ++ itoa row ++ bytes ";" ++ itoa column ++ bytes "H";
}.

(** Truncation of a line without escape sequences or wide runes. *)
Definition plainTruncate (line : gostring) (w : Z) : gostring :=
  take (Z.to_nat w) line.

(** [r'] is [r] but for [skipLines] and [renderingHead]. *)
Definition moved (r r' : standardRenderer) : Prop :=
  exists skip head, r' = setRenderingHead (setSkipLines r skip) head.

(** Rows are counted from zero. *)
Definition row (z : Z) : Prop := 0 <= z <= GoInt.maxInt.

(** *** The other methods of the renderer *)

(** The other primitives of [termenv.Output] that the renderer calls, each
    as the bytes it writes. *)
Class Screen := {
  ClearScreen : gostring;
  AltScreen : gostring;
  ExitAltScreen : gostring;
  ShowCursor : gostring;
  HideCursor : gostring;
  ChangeScrollingRegion : Z -> Z -> gostring;
  InsertLines : Z -> gostring;
}.

Definition setIgnoreLines (r : standardRenderer) (s : gset Z) : standardRenderer :=
  {| buf := buf r; queuedMessageLines := queuedMessageLines r;
     framerate := framerate r; lastRender := lastRender r;
     lastRenderLines := lastRenderLines r; forceRepaint := forceRepaint r;
     linesRendered := linesRendered r;
     useANSICompressor := useANSICompressor r;
     cursorHidden := cursorHidden r; altScreenActive := altScreenActive r;
     bpActive := bpActive r; width := width r; height := height r;
     ignoreLines := s; skipLines := skipLines r;
     renderingHead := renderingHead r |}.

Definition setAltScreenActive (r : standardRenderer) (a : bool) : standardRenderer :=
  {| buf := buf r; queuedMessageLines := queuedMessageLines r;
     framerate := framerate r; lastRender := lastRender r;
     lastRenderLines := lastRenderLines r; forceRepaint := forceRepaint r;
     linesRendered := linesRendered r;
     useANSICompressor := useANSICompressor r;
     cursorHidden := cursorHidden r; altScreenActive := a;
     bpActive := bpActive r; width := width r; height := height r;
     ignoreLines := ignoreLines r; skipLines := skipLines r;
     renderingHead := renderingHead r |}.

Definition setCursorHidden (r : standardRenderer) (c : bool) : standardRenderer :=
  {| buf := buf r; queuedMessageLines := queuedMessageLines r;
     framerate := framerate r; lastRender := lastRender r;
     lastRenderLines := lastRenderLines r; forceRepaint := forceRepaint r;
     linesRendered := linesRendered r;
     useANSICompressor := useANSICompressor r;
     cursorHidden := c; altScreenActive := altScreenActive r;
     bpActive := bpActive r; width := width r; height := height r;
     ignoreLines := ignoreLines r; skipLines := skipLines r;
     renderingHead := renderingHead r |}.

Definition setSize (r : standardRenderer) (w h : Z) : standardRenderer :=
  {| buf := buf r; queuedMessageLines := queuedMessageLines r;
     framerate := framerate r; lastRender := lastRender r;
     lastRenderLines := lastRenderLines r; forceRepaint := forceRepaint r;
     linesRendered := linesRendered r;
     useANSICompressor := useANSICompressor r;
     cursorHidden := cursorHidden r; altScreenActive := altScreenActive r;
     bpActive := bpActive r; width := w; height := h;
     ignoreLines := ignoreLines r; skipLines := skipLines r;
     renderingHead := renderingHead r |}.

(** [strings.Join]. *)
Fixpoint Join (elems : list gostring) (sep : gostring) : gostring :=
  match elems with
  | [] => []
  | [s] => s
  | s :: rest => s ++ sep ++ Join rest sep
  end.

(** The messages that [handleMessages] has a case for; any other message
    is [otherMsg]. *)
Inductive Msg :=
| repaintMsg
| WindowSizeMsg (Width Height : Z)
| clearScrollAreaMsg
| syncScrollAreaMsg (lines : list gostring) (topBoundary bottomBoundary : Z)
| scrollUpMsg (lines : list gostring) (topBoundary bottomBoundary : Z)
| scrollDownMsg (lines : list gostring) (topBoundary bottomBoundary : Z)
| printLineMessage (messageBody : gostring)
| otherMsg.

Section WithScreen.
Context `{Output} `{Screen}.

(** The methods below write to the terminal at once: the renderer
    afterwards, and the bytes written. *)
Definition cursorVisibility (r : standardRenderer) : gostring :=
  if cursorHidden r then HideCursor else ShowCursor.

Definition clearScreen (r : standardRenderer) : standardRenderer * gostring :=
  (repaint (setRenderingHead r 0), ClearScreen ++ MoveCursor 1 1).

Definition altScreen (r : standardRenderer) : bool := altScreenActive r.

Definition enterAltScreen (r : standardRenderer) : standardRenderer * gostring :=
  if altScreenActive r then (r, [])
  else
    (repaint (setRenderingHead (setAltScreenActive r true) 0),
     AltScreen ++ ClearScreen ++ MoveCursor 1 1 ++ cursorVisibility r).

Definition exitAltScreen (r : standardRenderer) : standardRenderer * gostring :=
  if negb (altScreenActive r) then (r, [])
  else
    (repaint (setAltScreenActive r false), ExitAltScreen ++ cursorVisibility r).

Definition showCursor (r : standardRenderer) : standardRenderer * gostring :=
  (setCursorHidden r false, ShowCursor).

Definition hideCursor (r : standardRenderer) : standardRenderer * gostring :=
  (setCursorHidden r true, HideCursor).

(** The rows [from], ..., [to - 1] join the ignored ones; with lines on the
    screen, the ignored rows among them are erased from the bottom up. *)
Definition setIgnoredLines (r : standardRenderer) (from to : Z)
  : standardRenderer * gostring :=
  let r := setIgnoreLines r (ignoreLines r ∪ list_to_set (seqZ from (to - from))) in
  if linesRendered r >? 0 then
    (r,
     mjoin
       (map
          (fun i =>
             (if bool_decide (i ∈ ignoreLines r) then ClearLine else [])
             ++ CursorUp 1)
          (reverse (seqZ 0 (linesRendered r))))
     ++ MoveCursor (linesRendered r) 0)
  else (r, []).

Definition clearIgnoredLines (r : standardRenderer) : standardRenderer :=
  setIgnoreLines r ∅.

Definition insertTop (r : standardRenderer) (lines : list gostring)
  (topBoundary bottomBoundary : Z) : gostring :=
  ChangeScrollingRegion topBoundary bottomBoundary
  ++ MoveCursor topBoundary 0
  ++ InsertLines (len lines)
  ++ Join lines (carriageReturn ++ newline)
  ++ ChangeScrollingRegion 0 (height r)
  ++ MoveCursor (linesRendered r) 0.

Definition insertBottom (r : standardRenderer) (lines : list gostring)
  (topBoundary bottomBoundary : Z) : gostring :=
  ChangeScrollingRegion topBoundary bottomBoundary
  ++ MoveCursor bottomBoundary 0
  ++ (carriageReturn ++ newline ++ Join lines (carriageReturn ++ newline))
  ++ ChangeScrollingRegion 0 (height r)
  ++ MoveCursor (linesRendered r) 0.

Definition handleMessages (r : standardRenderer) (msg : Msg)
  : standardRenderer * gostring :=
  match msg with
  | repaintMsg => (repaint r, [])
  | WindowSizeMsg Width Height => (repaint (setSize r Width Height), [])
  | clearScrollAreaMsg => (repaint (clearIgnoredLines r), [])
  | syncScrollAreaMsg lines topBoundary bottomBoundary =>
    let r := clearIgnoredLines r in
    let '(r, erased) := setIgnoredLines r topBoundary bottomBoundary in
    (repaint r, erased ++ insertTop r lines topBoundary bottomBoundary)
  | scrollUpMsg lines topBoundary bottomBoundary =>
    (r, insertTop r lines topBoundary bottomBoundary)
  | scrollDownMsg lines topBoundary bottomBoundary =>
    (r, insertBottom r lines topBoundary bottomBoundary)
  | printLineMessage messageBody =>
    if negb (altScreenActive r) then
      (repaint
         (setQueuedMessageLines r (queuedMessageLines r ++ Split messageBody)),
       [])
    else (r, [])
  | otherMsg => (r, [])
  end.

End WithScreen.

(** Setting the entry of row [i] when [c i] holds: the body of the second
    marking loop of the incremental flush, with [unchangedOrIgnored] for
    [c]. *)
Definition mark (c : Z -> bool) (skip : list bool) (i : Z) : list bool :=
  if c i then <[Z.to_nat i := true]> skip else skip.

Definition unchangedOrIgnored (r : standardRenderer) (newLines : list gostring)
  (i : Z) : bool :=
  match newLines !! Z.to_nat i, lastRenderLines r !! Z.to_nat i with
  | Some new, Some old => bool_decide (new = old) || bool_decide (i ∈ ignoreLines r)
  | _, _ => bool_decide (i ∈ ignoreLines r)
  end.

(** What a call of [flush] wrote, if it returned. *)
Definition writtenBy (f : flushed) : option (option gostring) :=
  match f with
  | Flushed _ written => Some written
  | FlushPanicked => None
  end.

(** The rendering head is on a row of the last render (on row 0 before the
    first one). *)
Definition headInFrame (r : standardRenderer) : Prop :=
  0 <= renderingHead r < Z.max 1 (linesRendered r).

#[export] Instance ansiScreen : Screen := {
  ClearScreen := CSI ++ bytes "2J" ++ CSI ++ bytes "1;1H";
  AltScreen := CSI ++ bytes "?1049h";
  ExitAltScreen := CSI ++ bytes "?1049l";
  ShowCursor := CSI ++ bytes "?25h";
  HideCursor := CSI ++ bytes "?25l";
  ChangeScrollingRegion top bottom :=
    CSI ++ itoa top ++ bytes ";" ++ itoa bottom ++ bytes "r";
  InsertLines n := CSI ++ itoa n ++ bytes "L";
}.

(** What the paint loop writes for row [i] of [n] when nothing was
    rendered before and the head follows the rows. *)
Definition rowBytes (n i : Z) (line : gostring) : gostring :=
  (if i =? 0 then [] else newline) ++ line
  ++ (if i <? n - 1 then carriageReturn else []).

(** A renderer that has painted a frame of three lines. *)
Definition threeLines : standardRenderer :=
  {| buf := []; queuedMessageLines := []; framerate := Second ÷ 60;
     lastRender := bytes "one" ++ newline ++ bytes "two" ++ newline ++ bytes "three";
     lastRenderLines := [bytes "one"; bytes "two"; bytes "three"];
     forceRepaint := false; linesRendered := 3; useANSICompressor := false;
     cursorHidden := false; altScreenActive := false; bpActive := false;
     width := 0; height := 0; ignoreLines := ∅; skipLines := [];
     renderingHead := 2 |}.

(** *** The incremental flush, row by row *)

(** Row [i] holds in [newLines] the line that the last render has on it. *)
Definition unchanged (r : standardRenderer) (newLines : list gostring) (i : Z)
  : bool :=
  match newLines !! Z.to_nat i, lastRenderLines r !! Z.to_nat i with
  | Some new, Some old => bool_decide (new = old)
  | _, _ => false
  end.

(** The rows that the incremental flush leaves alone, as a test on the
    row: the ignored rows, and the rows below [linesRendered] that are
    unchanged. The two loops that fill [skipLines] compute it (lemma
    [marked_skipRow]). *)
Definition skipRow (r : standardRenderer) (newLines : list gostring) (i : Z)
  : bool :=
  bool_decide (i ∈ ignoreLines r)
  || ((i <? linesRendered r) && unchanged r newLines i).

Section Rows.
Context `{Output}.
Variable truncateString : gostring -> Z -> gostring.

(** The incremental flush told row by row, with the test [skipRow] in
    the place of the marks in [skipLines]: [diffFlush] writes the same bytes
    (lemma [diffFlush_rows]). First the bodies of its two loops. *)
Definition paintRow (newLines : list gostring)
  (acc : standardRenderer * gostring) (i : Z) : standardRenderer * gostring :=
  let '(r, out) := acc in
  if skipRow r newLines i then (r, out)
  else
    let line := truncated truncateString r (default [] (newLines !! Z.to_nat i)) in
    let '(r, move) := moveRenderingHead r i in
    (r,
     out ++ move ++ (if i <? linesRendered r then ClearLine else [])
     ++ line ++ (if i <? len newLines - 1 then carriageReturn else [])).

Definition clearRow (newLines : list gostring)
  (acc : standardRenderer * gostring) (i : Z) : standardRenderer * gostring :=
  let '(r, out) := acc in
  if skipRow r newLines i then (r, out)
  else
    let '(r, move) := moveRenderingHead r i in
    (r, out ++ move ++ ClearLine).

(** The rows of [newLines] that are not skipped, painted from the top. *)
Definition paintRows (r : standardRenderer) (newLines : list gostring)
  : standardRenderer * gostring :=
  fold_left (paintRow newLines) (seqZ 0 (len newLines)) (r, []).

(** The rows that the last render had below the new frame, cleared unless
    skipped, and the head back on the last row of the frame. *)
Definition clearRows (newLines : list gostring)
  (acc : standardRenderer * gostring) : standardRenderer * gostring :=
  let '(r, out) := acc in
  if len newLines <? linesRendered r then
    let '(r, out) :=
      fold_left (clearRow newLines)
        (seqZ (len newLines) (linesRendered r - len newLines))
        (r, out ++ carriageReturn) in
    let '(r, move) := moveRenderingHead r (len newLines - 1) in
    (r, out ++ move)
  else (r, out).

(** What the incremental flush of [newLines] writes before it places the
    cursor, and the renderer it leaves, up to [skipLines]. *)
Definition incremental (r : standardRenderer) (newLines : list gostring)
  : standardRenderer * gostring :=
  clearRows newLines (paintRows r newLines).

(** The last bytes of a flush: the cursor goes to the start of the line. *)
Definition cursorToStart (r : standardRenderer) : gostring :=
  if altScreenActive r then MoveCursor (GoInt.add (renderingHead r) 1) 0
  else CursorBack (width r).

End Rows.


(** A renderer that has painted a space above a line. *)
Definition spaceAbove : standardRenderer :=
  {| buf := []; queuedMessageLines := []; framerate := Second ÷ 60;
     lastRender := bytes " " ++ newline ++ bytes "below";
     lastRenderLines := [bytes " "; bytes "below"];
     forceRepaint := false; linesRendered := 2; useANSICompressor := false;
     cursorHidden := false; altScreenActive := false; bpActive := false;
     width := 0; height := 0; ignoreLines := ∅; skipLines := [false; false];
     renderingHead := 1 |}.

End Renderer.

(** * Its properties *)

(** ** Facts on Go's [int] *)

Module GoIntFacts.
Import GoInt.

Lemma wrap_inRange z : inRange (wrap z).
Proof.
  unfold inRange, wrap, minInt, maxInt.
  pose proof (Z.mod_pos_bound (z + 2 ^ 63) (2 ^ 64)). lia.
Qed.

Lemma wrap_id z : inRange z -> wrap z = z.
Proof.
  unfold inRange, wrap, minInt, maxInt. intros H.
  rewrite Z.mod_small; lia.
Qed.

Lemma add_exact a b : inRange (a + b) -> add a b = a + b.
Proof. apply wrap_id. Qed.

Lemma sub_exact a b : inRange (a - b) -> sub a b = a - b.
Proof. apply wrap_id. Qed.

Lemma neg_exact a : inRange (- a) -> neg a = - a.
Proof. apply wrap_id. Qed.

Lemma sub_zero_iff a b : inRange a -> inRange b -> sub a b = 0 <-> a = b.
Proof.
  unfold sub, wrap, inRange, minInt, maxInt. intros Ha Hb. split.
  - intros H.
    destruct (Z_lt_le_dec (a - b) (- 2 ^ 63)) as [Hlt | Hge].
    + replace ((a - b + 2 ^ 63) mod 2 ^ 64) with (a - b + 2 ^ 63 + 2 ^ 64) in H; [lia |].
      apply Z.mod_unique with (q := -1); lia.
    + destruct (Z_lt_le_dec (a - b) (2 ^ 63)) as [Hlt' | Hge'].
      * rewrite Z.mod_small in H; lia.
      * replace ((a - b + 2 ^ 63) mod 2 ^ 64) with (a - b + 2 ^ 63 - 2 ^ 64) in H; [lia |].
        apply Z.mod_unique with (q := 1); lia.
  - intros ->. rewrite Z.sub_diag. reflexivity.
Qed.

End GoIntFacts.

(** ** Facts on decoding and encoding *)

Module Utf8Facts.
Import Utf8.

Lemma byteZ_range b : 0 <= byteZ b <= 255.
Proof. unfold byteZ. pose proof (Byte.to_N_bounded b). lia. Qed.

Lemma Zbyte_byteZ b : Zbyte (byteZ b) = b.
Proof. unfold Zbyte, byteZ. rewrite N2Z.id, Byte.of_to_N. reflexivity. Qed.

Ltac split_between :=
  repeat match goal with
  | H : between _ _ _ = true |- _ =>
    unfold between in H; apply andb_prop in H; destruct H
  | H : (_ && _)%bool = true |- _ => apply andb_prop in H; destruct H
  | H : (_ <=? _) = true |- _ => apply Z.leb_le in H
  | H : (_ <? _) = true |- _ => apply Z.ltb_lt in H
  | H : (_ <? _) = false |- _ => apply Z.ltb_ge in H
  end.

Ltac byte_bounds :=
  repeat match goal with
  | b : byte |- _ =>
    lazymatch goal with
    | _ : 0 <= byteZ b <= 255 |- _ => fail
    | _ => pose proof (byteZ_range b)
    end
  end.

Ltac decide_between :=
  repeat match goal with
  | |- context [between ?lo ?hi ?z] =>
    let E := fresh "E" in
    destruct (between lo hi z) eqn:E;
    [ split_between
    | unfold between in E; apply andb_false_iff in E;
      rewrite !Z.leb_gt in E ]
  end.

Lemma secondLo_cases z0 :
  (z0 = 0xE0 /\ secondLo z0 = 0xA0) \/ (z0 = 0xF0 /\ secondLo z0 = 0x90)
  \/ (z0 <> 0xE0 /\ z0 <> 0xF0 /\ secondLo z0 = 0x80).
Proof.
  unfold secondLo.
  destruct (Z.eqb_spec z0 0xE0); [lia |].
  destruct (Z.eqb_spec z0 0xF0); lia.
Qed.

Lemma secondHi_cases z0 :
  (z0 = 0xED /\ secondHi z0 = 0x9F) \/ (z0 = 0xF4 /\ secondHi z0 = 0x8F)
  \/ (z0 <> 0xED /\ z0 <> 0xF4 /\ secondHi z0 = 0xBF).
Proof.
  unfold secondHi.
  destruct (Z.eqb_spec z0 0xED); [lia |].
  destruct (Z.eqb_spec z0 0xF4); lia.
Qed.

Lemma decodeRune_width s :
  s <> [] -> (1 <= (decodeRune s).2 <= length s)%nat.
Proof.
  destruct s as [| b0 t]; [congruence | intros _].
  unfold decodeRune.
  repeat first
    [ progress (cbn [snd length]) | lia
    | match goal with
      | |- context [if ?c then _ else _] => destruct c
      | |- context [match ?l with [] => _ | _ :: _ => _ end] => destruct l
      end ].
Qed.

Lemma decode_encode s r n :
  s <> [] ->
  decodeRune s = (r, n) -> decoded (r, n) = true -> encodeRune r = take n s.
Proof.
  unfold decoded, decodeRune. cbn [fst snd].
  destruct s as [| b0 t]; [congruence | intros _].
  intros Hd Hok.
  repeat match type of Hd with
  | context [if ?c then _ else _] => let E := fresh "E" in destruct c eqn:E
  | context [match ?l with [] => _ | _ :: _ => _ end] => destruct l
  end;
  injection Hd as <- <-; try discriminate Hok; clear Hok;
  split_between; byte_bounds.
  all: try (pose proof (secondLo_cases (byteZ b0)); pose proof (secondHi_cases (byteZ b0))).
  all: unfold encodeRune; decide_between; cbn [orb]; try (exfalso; lia).
  all: cbn [take].
  all: repeat f_equal.
  all: try (rewrite <- Zbyte_byteZ; f_equal; Z.div_mod_to_equations; lia).
Qed.

Lemma decodeRune_app s t r n :
  decodeRune s = (r, n) -> decoded (r, n) = true ->
  s <> [] -> decodeRune (s ++ t) = (r, n).
Proof.
  unfold decoded, decodeRune. cbn [fst snd].
  destruct s as [| b0 [| b1 [| b2 [| b3 s']]]]; [congruence | ..]; intros Hd Hok _;
    cbn [app];
    repeat match type of Hd with
    | context [if ?c then _ else _] => destruct c
    end;
    try exact Hd; injection Hd as <- <-; discriminate Hok.
Qed.

Lemma rangeFrom_fuel fuel i s :
  (length s <= fuel)%nat -> rangeFrom fuel i s = rangeFrom (length s) i s.
Proof.
  revert i s. induction fuel as [fuel IH] using lt_wf_ind. intros i s Hlen.
  destruct s as [| b0 t]; [destruct fuel; reflexivity |].
  destruct fuel as [| fuel]; [cbn in Hlen; lia |].
  pose proof (decodeRune_width (b0 :: t) ltac:(congruence)) as Hw.
  cbn [length rangeFrom] in *.
  destruct (decodeRune (b0 :: t)) as [r n]. cbn [snd] in Hw.
  f_equal.
  assert (Hd : (length (drop n (b0 :: t)) <= length t)%nat).
  { rewrite length_drop. cbn [length]. lia. }
  rewrite (IH fuel) by lia.
  rewrite (IH (length t)) by lia. reflexivity.
Qed.

Lemma validFrom_fuel fuel s :
  (length s <= fuel)%nat -> validFrom fuel s = validFrom (length s) s.
Proof.
  revert s. induction fuel as [fuel IH] using lt_wf_ind. intros s Hlen.
  destruct s as [| b0 t]; [destruct fuel; reflexivity |].
  destruct fuel as [| fuel]; [cbn in Hlen; lia |].
  pose proof (decodeRune_width (b0 :: t) ltac:(congruence)) as Hw.
  cbn [length validFrom] in *.
  destruct (decodeRune (b0 :: t)) as [r n]. cbn [snd] in Hw.
  f_equal.
  assert (Hd : (length (drop n (b0 :: t)) <= length t)%nat).
  { rewrite length_drop. cbn [length]. lia. }
  rewrite (IH fuel) by lia.
  rewrite (IH (length t)) by lia. reflexivity.
Qed.

(** Unfolding of [range] and of validity by one rune. *)
Lemma rangeString_step i s :
  s <> [] ->
  rangeFrom (length s) i s =
  (i, (decodeRune s).1)
    :: rangeFrom (length (drop (decodeRune s).2 s)) (i + Z.of_nat (decodeRune s).2)
         (drop (decodeRune s).2 s).
Proof.
  intros Hs. pose proof (decodeRune_width s Hs) as Hw.
  destruct s as [| b0 t]; [congruence |].
  cbn [length rangeFrom] in *.
  destruct (decodeRune (b0 :: t)) as [r n]. cbn [fst snd] in *.
  f_equal. apply rangeFrom_fuel. rewrite length_drop. cbn [length]. lia.
Qed.

Lemma validString_step s :
  s <> [] ->
  validString s =
  decoded (decodeRune s) && validString (drop (decodeRune s).2 s).
Proof.
  intros Hs. pose proof (decodeRune_width s Hs) as Hw.
  destruct s as [| b0 t]; [congruence |].
  unfold validString, decoded. cbn [length validFrom] in *.
  destruct (decodeRune (b0 :: t)) as [r n]. cbn [fst snd] in *.
  f_equal. apply validFrom_fuel. rewrite length_drop. cbn [length]. lia.
Qed.

(** Induction on a string rune by rune. *)
Lemma rune_ind (P : gostring -> Prop) :
  P [] ->
  (forall s, s <> [] -> P (drop (decodeRune s).2 s) -> P s) ->
  forall s, P s.
Proof.
  intros Hnil Hstep s.
  remember (length s) as k eqn:Hk. revert s Hk.
  induction k as [k IH] using lt_wf_ind. intros s ->.
  destruct s as [| b0 t]; [exact Hnil |].
  apply Hstep; [congruence |].
  pose proof (decodeRune_width (b0 :: t) ltac:(congruence)).
  eapply IH; [| reflexivity]. rewrite length_drop. lia.
Qed.

Lemma rangeString_app i s t :
  validString s = true ->
  rangeFrom (length (s ++ t)) i (s ++ t) =
  rangeFrom (length s) i s ++ rangeFrom (length t) (i + Z.of_nat (length s)) t.
Proof.
  revert i. induction s as [| s Hs IH] using rune_ind; intros i Hv.
  - cbn [app length]. rewrite Z.add_0_r.
    destruct t; reflexivity.
  - rewrite validString_step in Hv by exact Hs.
    apply andb_prop in Hv as [Hdec Hv].
    pose proof (decodeRune_width s Hs) as Hw.
    assert (Hst : s ++ t <> []) by (destruct s; [congruence | discriminate]).
    rewrite (rangeString_step i (s ++ t) Hst), (rangeString_step i s Hs).
    destruct (decodeRune s) as [r n] eqn:Hd.
    rewrite (decodeRune_app s t r n Hd Hdec Hs). cbn [fst snd] in *.
    rewrite drop_app_le by lia.
    rewrite IH by exact Hv.
    cbn [app]. do 3 f_equal.
    rewrite length_drop. lia.
Qed.

Lemma valid_reencode s :
  validString s = true -> flat_map encodeRune (runes s) = s.
Proof.
  unfold runes, rangeString. generalize 0.
  induction s as [| s Hs IH] using rune_ind; intros i Hv; [reflexivity |].
  rewrite validString_step in Hv by exact Hs.
  apply andb_prop in Hv as [Hdec Hv].
  rewrite (rangeString_step i s Hs).
  destruct (decodeRune s) as [r n] eqn:Hd. cbn [fst snd] in *.
  cbn [fmap list_fmap flat_map snd].
  rewrite IH by exact Hv.
  rewrite (decode_encode s r n Hs Hd Hdec).
  apply take_drop.
Qed.

Lemma rangeFrom_offsets fuel i0 s i r :
  (i, r) ∈ rangeFrom fuel i0 s -> i0 <= i.
Proof.
  revert i0 s. induction fuel as [| fuel IH]; intros i0 s.
  - destruct s; cbn; intros H; inversion H.
  - destruct s as [| b0 t]; [cbn; intros H; inversion H |].
    cbn [rangeFrom]. destruct (decodeRune (b0 :: t)) as [r' n].
    intros [[= -> ->] | H]%elem_of_cons; [lia |].
    apply IH in H. lia.
Qed.


Lemma byteZ_Zbyte z : 0 <= z <= 255 -> byteZ (Zbyte z) = z.
Proof.
  intros Hz. unfold byteZ, Zbyte.
  destruct (Byte.of_N (Z.to_N z)) as [b |] eqn:Hb.
  - apply Byte.to_of_N in Hb. rewrite Hb. lia.
  - apply Byte.of_N_None_iff in Hb. lia.
Qed.

(** [range] yields scalar values only. *)
Lemma decodeRune_scalar s : s <> [] -> scalar (decodeRune s).1.
Proof.
  destruct s as [| b0 t]; [congruence | intros _].
  unfold decodeRune, scalar, RuneError.
  repeat match goal with
  | |- context [if ?c then _ else _] => let E := fresh "E" in destruct c eqn:E
  | |- context [match ?l with [] => _ | _ :: _ => _ end] => destruct l
  end; cbn [fst]; split_between; byte_bounds; try lia.
  all: pose proof (secondLo_cases (byteZ b0)); pose proof (secondHi_cases (byteZ b0)); lia.
Qed.

Ltac arith := Z.div_mod_to_equations; lia.

Ltac case_comparisons :=
  repeat (match goal with
          | |- context [?a =? ?b] =>
            destruct (Z.eqb_spec a b); try (exfalso; arith)
          | |- context [?a <? ?b] =>
            destruct (Z.ltb_spec a b); try (exfalso; arith)
          | |- context [?a <=? ?b] =>
            destruct (Z.leb_spec a b); try (exfalso; arith)
          end; cbn [andb]).

(** Decoding what [WriteRune] wrote gives the rune back. *)
Lemma decodeRune_encodeRune r t :
  scalar r -> decodeRune (encodeRune r ++ t) = (r, length (encodeRune r)).
Proof.
  intros Hr. unfold scalar in Hr. unfold encodeRune.
  decide_between; cbn [orb]; try (exfalso; lia).
  all: cbn [app length]; unfold decodeRune, between, secondLo, secondHi.
  all: replace (r / 262144) with (r / 64 / 64 / 64)
    by (rewrite !Z.div_div by lia; reflexivity).
  all: replace (r / 4096) with (r / 64 / 64)
    by (rewrite !Z.div_div by lia; reflexivity).
  all: rewrite ?byteZ_Zbyte by arith.
  all: case_comparisons.
  all: f_equal; arith.
Qed.

Lemma encodeRune_nonempty r : encodeRune r <> [].
Proof. unfold encodeRune. repeat case_match; discriminate. Qed.

Lemma rangeFrom_scalar i s :
  Forall scalar (rangeFrom (length s) i s).*2.
Proof.
  revert i. induction s as [| s Hs IH] using rune_ind; intros i.
  - constructor.
  - rewrite rangeString_step by exact Hs. cbn [fmap list_fmap snd].
    constructor; [by apply decodeRune_scalar | apply IH].
Qed.

Lemma runes_scalar s : Forall scalar (runes s).
Proof. apply rangeFrom_scalar. Qed.

Lemma rangeFrom_encode l i :
  Forall scalar l ->
  (rangeFrom (length (flat_map encodeRune l)) i (flat_map encodeRune l)).*2 = l.
Proof.
  intros Hl. revert i. induction Hl as [| r l Hr Hl IH]; intros i; [reflexivity |].
  cbn [flat_map].
  rewrite rangeString_step
    by (intros [E _]%app_eq_nil; by apply (encodeRune_nonempty r)).
  rewrite decodeRune_encodeRune by exact Hr. cbn [fst snd fmap list_fmap].
  rewrite drop_app_length. f_equal. apply IH.
Qed.

(** Reading back a string written rune by rune. *)
Lemma runes_encode l : Forall scalar l -> runes (flat_map encodeRune l) = l.
Proof. intros Hl. by apply rangeFrom_encode. Qed.

End Utf8Facts.

(** ** Properties of the clickable registry *)

Module ClickableFacts.
Import Utf8 Utf8Facts Clickable.

Section RegistryFacts.
Context {Data : Type}.
Variable RuneWidth : rune -> Z.

Abbreviation state := (clickableState Data).

Lemma stripLoop_app l1 l2 (cr : state) p :
  stripLoop RuneWidth (l1 ++ l2) cr p =
  match stripLoop RuneWidth l1 cr p with
  | Next cr' p' => stripLoop RuneWidth l2 cr' p'
  | ReturnFrame cr' => ReturnFrame cr'
  end.
Proof.
  revert cr p. induction l1 as [| ir l1 IH]; intros cr p; [reflexivity |].
  cbn [app stripLoop]. destruct (stripStep RuneWidth cr p ir); [apply IH | reflexivity].
Qed.

(** Runes other than the markers, outside of an id, go to the stripped
    frame and leave the registry and the stack alone. *)
Lemma stripLoop_text l (cr : state) p :
  forallb (fun ir => negb (isMarker ir.2)) l = true ->
  currentParsingId p <= 0 ->
  exists p',
    stripLoop RuneWidth l cr p = Next cr p'
    /\ parsingClickableStack p' = parsingClickableStack p
    /\ currentParsingId p' = currentParsingId p
    /\ strippedFrameBuilder p' = strippedFrameBuilder p ++ flat_map encodeRune l.*2.
Proof.
  revert p. induction l as [| [i r] l IH]; intros p Hl Hid.
  - exists p. cbn. rewrite app_nil_r. done.
  - cbn [forallb] in Hl. apply andb_prop in Hl as [Hr Hl].
    unfold isMarker in Hr. cbn [snd] in Hr.
    rewrite !negb_orb in Hr. apply andb_prop in Hr as [[H1 H2]%andb_prop H3].
    apply negb_true_iff in H1, H2, H3.
    cbn [stripLoop stripStep]. rewrite H1, H2, H3.
    destruct (Z.gtb_spec (currentParsingId p) 0) as [? | _]; [lia |].
    edestruct IH as (p' & Hloop & Hs & Hi & Hb); [exact Hl | | ].
    2: { exists p'. split; [exact Hloop |]. rewrite Hs, Hi, Hb. cbn.
         rewrite <- app_assoc. done. }
    cbn. exact Hid.
Qed.

(** A run of separators counts the id up. *)
Lemma stripLoop_separators l (cr : state) p n :
  l.*2 = replicate n annotationSeparator ->
  0 <= currentParsingId p ->
  currentParsingId p + Z.of_nat n <= GoInt.maxInt ->
  stripLoop RuneWidth l cr p =
  Next cr {| prev := prev p; current := current p;
             parsingClickableStack := parsingClickableStack p;
             currentParsingId := currentParsingId p + Z.of_nat n;
             strippedFrameBuilder := strippedFrameBuilder p |}.
Proof.
  revert l p. induction n as [| n IH]; intros l p Hl Hlo Hhi.
  - destruct l; [| discriminate]. cbn. rewrite Z.add_0_r. by destruct p.
  - destruct l as [| [i r] l]; [discriminate |].
    cbn in Hl. injection Hl as -> Hl.
    cbn [stripLoop stripStep].
    change (annotationSeparator =? annotationAnchor) with false.
    change (annotationSeparator =? annotationSeparator) with true.
    destruct (Z.eqb_spec (currentParsingId p) (-1)) as [? | _]; [lia |].
    rewrite GoIntFacts.add_exact by (unfold GoInt.inRange, GoInt.minInt, GoInt.maxInt in *; lia).
    rewrite IH; cbn; [ | exact Hl | lia | lia].
    do 2 f_equal. lia.
Qed.

Lemma rangeString_separators n i t :
  exists l,
    rangeFrom
      (length (mjoin (replicate n (encodeRune annotationSeparator)) ++ t)) i
      (mjoin (replicate n (encodeRune annotationSeparator)) ++ t)
    = l ++ rangeFrom (length t) (i + 3 * Z.of_nat n) t
    /\ l.*2 = replicate n annotationSeparator.
Proof.
  revert i. induction n as [| n IH]; intros i.
  - exists []. cbn [replicate mjoin list_join app]. split; [| done].
    f_equal. lia.
  - destruct (IH (i + 3)) as (l & Hl & Hruns).
    exists ((i, annotationSeparator) :: l). split; [| cbn; by rewrite Hruns].
    change (mjoin (replicate (S n) (encodeRune annotationSeparator)))
      with (encodeRune annotationSeparator
            ++ mjoin (replicate n (encodeRune annotationSeparator))).
    rewrite <- app_assoc.
    rewrite rangeString_app by reflexivity.
    change (length (encodeRune annotationSeparator)) with 3%nat.
    change (Z.of_nat 3) with 3. rewrite Hl.
    change (rangeFrom 3 i (encodeRune annotationSeparator))
      with [(i, annotationSeparator)].
    cbn [app]. do 3 f_equal. lia.
Qed.

(** What [stableId] returns, and what [registerAndWrap] stores under it. *)
Lemma stableId_range (cr : state) key :
  idsOK cr -> 0 <= (stableId cr key).2 <= GoInt.maxInt.
Proof.
  intros [Hc Hm]. unfold stableId.
  destruct (stableKeyMap cr !! key) as [id |] eqn:Hk; cbn [snd].
  - apply Hm in Hk. lia.
  - lia.
Qed.

Lemma registerAndWrap_spec (cr : state) wrapped key d :
  let id := (stableId cr key).2 in
  let '(cr2, w) := registerAndWrap cr wrapped key d in
  w = encodeRune annotationAnchor ++ wrapped
      ++ mjoin (replicate (Z.to_nat id) (encodeRune annotationSeparator))
      ++ encodeRune annotationTerminator
  /\ currentGeneration cr2 = currentGeneration cr
  /\ currentRegistered cr2 = currentRegistered cr
  /\ nextRegistered cr2 =
     <[id := {| data := d; bounds := zeroBounds;
                generation := GoInt.add (currentGeneration cr) 1 |}]>
       (nextRegistered cr).
Proof.
  unfold registerAndWrap, stableId.
  destruct (stableKeyMap cr !! key); cbn; done.
Qed.

Lemma rangeFrom_runes fuel i j s :
  (rangeFrom fuel i s).*2 = (rangeFrom fuel j s).*2.
Proof.
  revert i j s. induction fuel as [| fuel IH]; intros i j s.
  - by destruct s.
  - destruct s as [| b0 t]; [done |].
    cbn [rangeFrom]. destruct (decodeRune (b0 :: t)) as [r n].
    cbn. f_equal. apply IH.
Qed.

Lemma forallb_runes (f : rune -> bool) (l : list (Z * rune)) :
  forallb (fun ir => f ir.2) l = forallb f l.*2.
Proof. induction l as [| [i r] l IH]; [done |]. cbn. by rewrite IH. Qed.

(** C5, amended. For every valid UTF-8 string [S] with none of the marker
    runes, every key and payload, and every registry whose ids count up from
    zero: [registerAndWrap] followed by [stripClickableSequencesFromFrame]
    on the wrapped string returns exactly [S]. *)
Theorem C5_strip_wrap_roundtrip (cr : state) (S K : gostring) (P : option Data) :
  idsOK cr ->
  validString S = true ->
  forallb (fun r => negb (isMarker r)) (runes S) = true ->
  (stripClickableSequencesFromFrame RuneWidth
     (registerAndWrap cr S K P).1 (registerAndWrap cr S K P).2).2 = S.
Proof.
  intros Hids Hvalid Hplain.
  pose proof (stableId_range cr K Hids) as Hid.
  pose proof (registerAndWrap_spec cr S K P) as Hreg. cbn zeta in Hreg.
  destruct (registerAndWrap cr S K P) as [cr2 w].
  destruct Hreg as (-> & Hgen & _ & Hnext). cbn [fst snd].
  set (id := (stableId cr K).2) in *.
  unfold stripClickableSequencesFromFrame, rangeString.
  (* the runes of the wrapped string *)
  rewrite rangeString_app by reflexivity.
  rewrite rangeString_app by exact Hvalid.
  destruct (rangeString_separators (Z.to_nat id)
              (0 + Z.of_nat (length (encodeRune annotationAnchor))
               + Z.of_nat (length S))
              (encodeRune annotationTerminator)) as (seps & -> & Hseps).
  set (j := _ + 3 * Z.of_nat (Z.to_nat id)).
  change (rangeFrom (length (encodeRune annotationTerminator)) j
            (encodeRune annotationTerminator))
    with [(j, annotationTerminator)].
  change (rangeFrom (length (encodeRune annotationAnchor)) 0
            (encodeRune annotationAnchor))
    with [(0, annotationAnchor)].
  (* the anchor *)
  rewrite stripLoop_app. cbn [stripLoop stripStep].
  change (annotationAnchor =? annotationAnchor) with true. cbn iota.
  (* the text *)
  rewrite stripLoop_app.
  edestruct (stripLoop_text (rangeFrom (length S)
               (0 + Z.of_nat (length (encodeRune annotationAnchor))) S) cr2)
    as (p2 & -> & Hstack & Hpid & Hbuilder).
  { rewrite (forallb_runes (fun r => negb (isMarker r))), (rangeFrom_runes _ _ 0).
    exact Hplain. }
  { cbn. lia. }
  cbn in Hstack, Hpid, Hbuilder.
  (* the id *)
  rewrite stripLoop_app.
  rewrite (stripLoop_separators _ _ _ (Z.to_nat id)); [| exact Hseps | lia | lia].
  (* the terminator *)
  cbn [stripLoop stripStep].
  change (annotationTerminator =? annotationAnchor) with false.
  change (annotationTerminator =? annotationSeparator) with false.
  change (annotationTerminator =? annotationTerminator) with true.
  cbn iota. cbn [parsingClickableStack currentParsingId prev current
                 strippedFrameBuilder].
  rewrite Hstack, Hpid. cbn [length Z.of_nat Pos.of_succ_nat Z.sub Z.add
                              Z.opp Z.pos_sub Z.ltb Z.compare Z.eqb Pos.eqb].
  rewrite Z2Nat.id, Z.add_0_l by lia.
  rewrite Hnext, lookup_insert_eq. cbn [generation].
  rewrite Hgen, Z.eqb_refl. cbn.
  rewrite Hbuilder, (rangeFrom_runes _ _ 0).
  apply (valid_reencode S Hvalid).
Qed.

Lemma containsPoint_cellLe cb p :
  containsPoint cb p = true <-> cellLe (start cb) p /\ cellLe p (end_ cb).
Proof.
  unfold containsPoint, cellLe.
  rewrite andb_true_iff, !orb_true_iff, !andb_true_iff.
  rewrite Z.ltb_lt, !Z.eqb_eq, Z.leb_le, Z.gtb_gt, Z.geb_ge. lia.
Qed.

Lemma getClickedStep_cases (cs : state) p best c :
  (candidate cs p c
   /\ sequencePosition (bounds best) <= sequencePosition (bounds c)
   /\ getClickedStep cs p best c = c)
  \/ ((~ candidate cs p c
       \/ sequencePosition (bounds c) < sequencePosition (bounds best))
      /\ getClickedStep cs p best c = best).
Proof.
  unfold getClickedStep, candidate.
  destruct (Z.eqb_spec (generation c) (currentGeneration cs)) as [Hg | Hg];
    cbn [andb]; [| right; tauto].
  destruct (containsPoint (bounds c) p); cbn [andb]; [| right; split; [left; intros [_ ?]; done | done]].
  destruct (Z.geb_spec (sequencePosition (bounds c))
              (sequencePosition (bounds best))); [left | right]; split; auto; lia.
Qed.

(** The entry the loop of [getClicked] ends with. *)
Lemma getClicked_fold (cs : state) p entries :
  (forall c, c ∈ entries -> 0 <= sequencePosition (bounds c)) ->
  let best := fold_left (getClickedStep cs p) entries zeroClickable in
  (best = zeroClickable /\ forall c, c ∈ entries -> ~ candidate cs p c)
  \/ (best ∈ entries /\ candidate cs p best
      /\ forall c, c ∈ entries -> candidate cs p c ->
           sequencePosition (bounds c) <= sequencePosition (bounds best)).
Proof.
  induction entries as [| c entries IH] using rev_ind; intros Hpos.
  - left. split; [done |]. intros c Hc. inversion Hc.
  - cbn zeta. rewrite fold_left_app. cbn [fold_left].
    assert (Hpos' : forall c, c ∈ entries -> 0 <= sequencePosition (bounds c)).
    { intros c' Hc'. apply Hpos, elem_of_app. by left. }
    assert (Hc : 0 <= sequencePosition (bounds c)).
    { apply Hpos, elem_of_app. right. by apply list_elem_of_singleton. }
    specialize (IH Hpos'). cbn zeta in IH.
    set (best := fold_left (getClickedStep cs p) entries zeroClickable) in *.
    destruct (getClickedStep_cases cs p best c) as [(Hcand & Hle & ->) | (Hno & ->)].
    + right. split; [apply elem_of_app; right; by apply list_elem_of_singleton |].
      split; [exact Hcand |].
      intros c' [Hc' | ->%list_elem_of_singleton]%elem_of_app Hcand'; [| lia].
      destruct IH as [[_ Hnone] | (_ & _ & Hmax)].
      * exfalso. by apply (Hnone c').
      * specialize (Hmax c' Hc' Hcand'). lia.
    + destruct IH as [[Hz Hnone] | (Hin & Hcand & Hmax)].
      * left. split; [exact Hz |].
        intros c' [Hc' | ->%list_elem_of_singleton]%elem_of_app; [by apply Hnone |].
        destruct Hno as [Hno | Hlt]; [exact Hno |].
        rewrite Hz in Hlt. cbn in Hlt. lia.
      * right. split; [apply elem_of_app; by left |]. split; [exact Hcand |].
        intros c' [Hc' | ->%list_elem_of_singleton]%elem_of_app Hcand';
          [by apply Hmax |].
        destruct Hno as [Hno | Hlt]; [done | lia].
Qed.

(** Without any assumption on the positions: [getClicked] returns the zero
    value's [nil] or the payload of an entry of the current generation. *)
Lemma getClicked_fold_generation (cs : state) p entries :
  let best := fold_left (getClickedStep cs p) entries zeroClickable in
  best = zeroClickable \/ (best ∈ entries /\ candidate cs p best).
Proof.
  induction entries as [| c entries IH] using rev_ind; [by left |].
  cbn zeta in *. rewrite fold_left_app. cbn [fold_left].
  set (best := fold_left (getClickedStep cs p) entries zeroClickable) in *.
  destruct (getClickedStep_cases cs p best c) as [(Hcand & _ & ->) | (_ & ->)].
  - right. split; [| exact Hcand].
    apply elem_of_app. right. by apply list_elem_of_singleton.
  - destruct IH as [-> | [Hin Hcand]]; [by left | right].
    split; [apply elem_of_app; by left | exact Hcand].
Qed.

Lemma iterationOrder_elem (cs : state) entries c :
  iterationOrder cs entries ->
  c ∈ entries <-> exists id, currentRegistered cs !! id = Some c.
Proof.
  unfold iterationOrder. intros ->.
  rewrite list_elem_of_fmap. split.
  - intros ([id c'] & -> & Hin). exists id. by apply elem_of_map_to_list.
  - intros [id Hid]. exists (id, c). split; [done |]. by apply elem_of_map_to_list.
Qed.

(** C6. For every cell and every order in which the map is gone through,
    [getClicked] returns the payload of an entry of [currentRegistered] of the
    current generation whose bounds contain the cell and whose
    [sequencePosition] is largest among such entries ([nil] when there is
    none); the bounds contain the cells from [start] to [end_] in reading
    order, both included. *)
Theorem C6_getClicked_largest_sequencePosition (cs : state) entries (x y : Z) :
  iterationOrder cs entries ->
  positionsOK (currentRegistered cs) ->
  let p := {| x := x; y := y |} in
  ((forall c, ~ hits cs p c) -> getClickedIn entries cs x y = None)
  /\ ((exists c, hits cs p c) ->
      exists c, hits cs p c
        /\ getClickedIn entries cs x y = data c
        /\ forall c', hits cs p c' ->
             sequencePosition (bounds c') <= sequencePosition (bounds c))
  /\ (forall cb q,
        containsPoint cb q = true <-> cellLe (start cb) q /\ cellLe q (end_ cb)).
Proof.
  intros Horder Hpos p.
  assert (Hpos' : forall c, c ∈ entries -> 0 <= sequencePosition (bounds c)).
  { intros c [id Hid]%(iterationOrder_elem cs entries c Horder).
    exact (Hpos id c Hid). }
  pose proof (getClicked_fold cs p entries Hpos') as Hfold. cbn zeta in Hfold.
  unfold getClickedIn. fold p.
  set (best := fold_left (getClickedStep cs p) entries zeroClickable) in *.
  split; [| split; [| apply containsPoint_cellLe]].
  - intros Hnone. destruct Hfold as [[-> _] | (Hin & Hcand & _)]; [done |].
    exfalso. apply (Hnone best). split; [| exact Hcand].
    by apply (iterationOrder_elem cs entries best Horder).
  - intros [c [Hreg Hcand]].
    apply (iterationOrder_elem cs entries c Horder) in Hreg.
    destruct Hfold as [[_ Hnone] | (Hin & Hbest & Hmax)].
    + exfalso. by apply (Hnone c).
    + exists best. split; [split; [| exact Hbest] |].
      * by apply (iterationOrder_elem cs entries best Horder).
      * split; [done |]. intros c' [Hreg' Hcand']. apply Hmax; [| exact Hcand'].
        by apply (iterationOrder_elem cs entries c' Horder).
Qed.

Lemma stackAt_in_range (stack : list clickableBounds) :
  0 <= Z.of_nat (length stack) - 1 ->
  stack !! Z.to_nat (Z.of_nat (length stack) - 1) = Some (stackAt stack (Z.of_nat (length stack) - 1)).
Proof.
  intros H. unfold stackAt.
  destruct (stack !! Z.to_nat (Z.of_nat (length stack) - 1)) eqn:E; [done |].
  apply lookup_ge_None in E. lia.
Qed.

Lemma stackAt_position (stack : list clickableBounds) last :
  Forall (fun b => 0 <= sequencePosition b) stack ->
  0 <= sequencePosition (stackAt stack last).
Proof.
  intros H. unfold stackAt.
  destruct (stack !! Z.to_nat last) as [b |] eqn:E; cbn; [| done].
  eapply Forall_lookup_1 in E; [| exact H]. exact E.
Qed.

(** What one iteration does to the registry. *)
Lemma stripStep_registry (cr : state) p ir :
  match stripStep RuneWidth cr p ir with
  | Next cr' p' =>
    currentGeneration cr' = currentGeneration cr
    /\ idCounter cr' = idCounter cr /\ stableKeyMap cr' = stableKeyMap cr
    /\ currentRegistered cr' = currentRegistered cr
    /\ (nextRegistered cr' = nextRegistered cr
        \/ exists existing b,
             nextRegistered cr !! currentParsingId p = Some existing
             /\ generation existing = GoInt.add (currentGeneration cr) 1
             /\ sequencePosition b
                = sequencePosition
                    (stackAt (parsingClickableStack p)
                       (Z.of_nat (length (parsingClickableStack p)) - 1))
             /\ nextRegistered cr' =
                <[currentParsingId p :=
                    {| data := data existing; bounds := b;
                       generation := generation existing |}]>
                  (nextRegistered cr))
  | ReturnFrame cr' =>
    currentGeneration cr' = currentGeneration cr
    /\ idCounter cr' = idCounter cr /\ stableKeyMap cr' = stableKeyMap cr
    /\ ((currentRegistered cr' = currentRegistered cr /\ nextRegistered cr' = ∅)
        \/ (currentRegistered cr' = ∅ /\ nextRegistered cr' = nextRegistered cr))
  end.
Proof.
  destruct ir as [i r]. unfold stripStep.
  repeat match goal with
  | |- context [if ?c then _ else _] => destruct c eqn:?
  | |- context [match ?o with Some _ => _ | None => _ end] => destruct o eqn:?
  end; cbn; try by auto 10.
  all: repeat split; try done; right; eexists _, _.
  all: split; [done |]; split; [by apply Z.eqb_eq |].
  all: split; [| reflexivity]; reflexivity.
Qed.

Lemma registryKept_refl (cr : state) : registryKept cr cr.
Proof. unfold registryKept. auto 10. Qed.

Lemma registryKept_trans (cr1 cr2 cr3 : state) :
  registryKept cr1 cr2 -> registryKept cr2 cr3 -> registryKept cr1 cr3.
Proof.
  unfold registryKept.
  intros (Hg & Hi & Hk & Hc & Hf & Hp) (Hg' & Hi' & Hk' & Hc' & Hf' & Hp').
  repeat split; try congruence; auto.
  destruct Hc' as [-> | ->]; auto.
Qed.

Lemma stripStep_kept (cr : state) p ir :
  0 <= ir.1 -> stackOK p ->
  registryKept cr (stepState (stripStep RuneWidth cr p ir))
  /\ match stripStep RuneWidth cr p ir with
     | Next _ p' => stackOK p'
     | ReturnFrame _ => True
     end.
Proof.
  intros Hi Hstack. split.
  - pose proof (stripStep_registry cr p ir) as H.
    destruct (stripStep RuneWidth cr p ir) as [cr' p' | cr']; cbn [stepState].
    + destruct H as (Hg & Hc & Hk & Hcur & Hnext).
      repeat split; auto.
      * intros id Hfresh c. unfold freshIn in *. rewrite Hg.
        destruct Hnext as [-> | (existing & b & Hex & Hgen & _ & ->)]; [apply Hfresh |].
        destruct (decide (currentParsingId p = id)) as [-> | Hne].
        -- rewrite lookup_insert_eq. intros [= <-]. exact Hgen.
        -- rewrite lookup_insert_ne by exact Hne. apply Hfresh.
      * intros Hpos.
        destruct Hnext as [-> | (existing & b & Hex & Hgen & Hb & ->)]; [exact Hpos |].
        apply map_Forall_insert_2; [| exact Hpos]. cbn. rewrite Hb.
        by apply stackAt_position.
    + destruct H as (Hg & Hc & Hk & [[Hcur Hn] | [Hcur Hn]]);
        unfold registryKept, freshIn; rewrite Hn, Hg; repeat split; auto.
      * intros id _ c. rewrite lookup_empty. done.
      * intros _. apply map_Forall_empty.
  - destruct ir as [i r]. unfold stripStep, stackOK in *. cbn [fst] in Hi.
    repeat match goal with
    | |- context [if ?c then _ else _] => destruct c eqn:?
    | |- context [match ?o with Some _ => _ | None => _ end] => destruct o eqn:?
    end; cbn; try done.
    + apply Forall_app. split; [done |]. by apply Forall_singleton.
    + by apply Forall_take.
    + by apply Forall_take.
Qed.

Lemma stripLoop_kept l (cr : state) p :
  Forall (fun ir => 0 <= ir.1) l -> stackOK p ->
  registryKept cr (stepState (stripLoop RuneWidth l cr p)).
Proof.
  revert cr p. induction l as [| ir l IH]; intros cr p Hl Hstack.
  - apply registryKept_refl.
  - apply Forall_cons in Hl as [Hi Hl].
    destruct (stripStep_kept cr p ir Hi Hstack) as [Hkept Hstack'].
    cbn [stripLoop].
    destruct (stripStep RuneWidth cr p ir) as [cr' p' | cr']; [| exact Hkept].
    eapply registryKept_trans; [exact Hkept | by apply IH].
Qed.

Lemma rangeString_offsets frame : Forall (fun ir => 0 <= ir.1) (rangeString frame).
Proof.
  apply Forall_forall. intros [i r] Hin.
  by apply rangeFrom_offsets in Hin.
Qed.

Lemma strip_kept (cr : state) frame :
  registryKept cr (stripClickableSequencesFromFrame RuneWidth cr frame).1.
Proof.
  unfold stripClickableSequencesFromFrame.
  pose proof (stripLoop_kept (rangeString frame) cr parserInit
                (rangeString_offsets frame) (Forall_nil_2 _)) as H.
  destruct (stripLoop RuneWidth (rangeString frame) cr parserInit) as [cr' p | cr'];
    cbn [stepState] in H; [| exact H].
  destruct (negb (currentParsingId p =? -1)); [| exact H].
  eapply registryKept_trans; [exact H |].
  unfold registryKept, freshIn. cbn. auto 10.
Qed.

Lemma registerAndWrap_fresh (cr : state) wrapped key d id :
  freshIn cr id \/ id = (stableId cr key).2 ->
  freshIn (registerAndWrap cr wrapped key d).1 id.
Proof.
  pose proof (registerAndWrap_spec cr wrapped key d) as H. cbn zeta in H.
  destruct (registerAndWrap cr wrapped key d) as [cr2 w].
  destruct H as (_ & Hg & _ & Hn). cbn [fst].
  unfold freshIn. rewrite Hg, Hn. intros Hid c.
  destruct (decide ((stableId cr key).2 = id)) as [<- | Hne].
  - rewrite lookup_insert_eq. by intros [= <-].
  - rewrite lookup_insert_ne by exact Hne.
    destruct Hid as [Hf | ->]; [apply Hf | done].
Qed.

Lemma runOp_fresh (cr : state) o id :
  isSwap o = false -> freshIn cr id -> freshIn (runOp RuneWidth cr o) id.
Proof.
  destruct o as [wrapped key d | frame |]; cbn [runOp isSwap]; intros Ho Hf.
  - apply registerAndWrap_fresh. by left.
  - by apply (strip_kept cr frame).
  - discriminate.
Qed.

Lemma run_fresh ops (cr : state) id :
  forallb (fun o => negb (isSwap o)) ops = true ->
  freshIn cr id -> freshIn (run RuneWidth ops cr) id.
Proof.
  revert cr. induction ops as [| o ops IH]; intros cr Hops Hf; [exact Hf |].
  cbn [forallb] in Hops. apply andb_prop in Hops as [Ho%negb_true_iff Hops].
  cbn [run fold_left]. apply IH; [exact Hops |]. by apply runOp_fresh.
Qed.

Lemma runOp_boundsOK (cr : state) o : boundsOK cr -> boundsOK (runOp RuneWidth cr o).
Proof.
  unfold boundsOK. intros [Hc Hn].
  destruct o as [wrapped key d | frame |]; cbn [runOp].
  - pose proof (registerAndWrap_spec cr wrapped key d) as H. cbn zeta in H.
    destruct (registerAndWrap cr wrapped key d) as [cr2 w].
    cbn [fst]. destruct H as (_ & _ & -> & ->). split; [exact Hc |].
    apply map_Forall_insert_2; [done | exact Hn].
  - destruct (strip_kept cr frame) as (_ & _ & _ & Hcur & _ & Hnext).
    split; [| by apply Hnext].
    destruct Hcur as [-> | ->]; [exact Hc | apply map_Forall_empty].
  - done.
Qed.

Lemma run_boundsOK ops :
  boundsOK (run RuneWidth ops (makeClickableState : state)).
Proof.
  assert (H : forall cr : state, boundsOK cr -> boundsOK (run RuneWidth ops cr)).
  { induction ops as [| o ops IH]; intros cr Hcr; [exact Hcr |].
    cbn [run fold_left]. apply IH. by apply runOp_boundsOK. }
  apply H. split; apply map_Forall_empty.
Qed.

Lemma runOp_idsOK (cr : state) o n :
  idsOK cr -> idCounter cr <= n -> n < GoInt.maxInt ->
  idsOK (runOp RuneWidth cr o) /\ idCounter (runOp RuneWidth cr o) <= n + 1.
Proof.
  intros [Hc Hm] Hn Hmax.
  destruct o as [wrapped key d | frame |]; cbn [runOp].
  - unfold registerAndWrap, stableId, idsOK.
    destruct (stableKeyMap cr !! key) as [id |] eqn:Hk; cbn.
    + split; [split; [done | exact Hm] | lia].
    + rewrite GoIntFacts.add_exact
        by (unfold GoInt.inRange, GoInt.minInt, GoInt.maxInt in *; lia).
      split; [split; [lia |] | lia].
      intros key' id'. destruct (decide (key = key')) as [<- | Hne].
      * rewrite lookup_insert_eq. intros [= <-]. lia.
      * rewrite lookup_insert_ne by exact Hne. intros H%Hm. lia.
  - destruct (strip_kept cr frame) as (_ & Hi & Hk & _).
    unfold idsOK. rewrite Hi, Hk. split; [done | lia].
  - split; [done | cbn; lia].
Qed.

Lemma run_idsOK ops :
  Z.of_nat (length ops) <= GoInt.maxInt ->
  idsOK (run RuneWidth ops (makeClickableState : state)).
Proof.
  assert (H : forall (cr : state) n,
             idsOK cr -> idCounter cr <= n ->
             n + Z.of_nat (length ops) <= GoInt.maxInt ->
             idsOK (run RuneWidth ops cr)).
  { induction ops as [| o ops IH]; intros cr n Hcr Hn Hlen; [exact Hcr |].
    cbn [length] in Hlen. cbn [run fold_left].
    destruct (runOp_idsOK cr o n Hcr Hn ltac:(lia)) as [Hcr' Hn'].
    apply (IH _ (n + 1)); [exact Hcr' | exact Hn' | lia]. }
  intros Hlen. apply (H _ 0); [| done | lia].
  split; [done |]. intros key id. cbn. by rewrite lookup_empty.
Qed.

(** C2, amended. [swapDoubleBuffer] exchanges the two maps and adds one to
    [currentGeneration], evicting nothing. An id that [registerAndWrap]
    registered since the previous swap, if still in the map, has
    [generation] equal to [currentGeneration] after the swap; entries of
    older generations stay in [currentRegistered], and [getClicked] never
    returns their payload. *)
Theorem C2_swap_current_generation (cr : state) :
  (currentRegistered (swapDoubleBuffer cr) = nextRegistered cr
   /\ nextRegistered (swapDoubleBuffer cr) = currentRegistered cr
   /\ currentGeneration (swapDoubleBuffer cr)
      = GoInt.add (currentGeneration cr) 1)
  /\ (forall wrapped key d ops c,
        forallb (fun o => negb (isSwap o)) ops = true ->
        let cs :=
          swapDoubleBuffer (run RuneWidth ops (registerAndWrap cr wrapped key d).1) in
        currentRegistered cs !! (stableId cr key).2 = Some c ->
        generation c = currentGeneration cs)
  /\ (forall entries x y payload,
        iterationOrder cr entries ->
        getClickedIn entries cr x y = Some payload ->
        exists id c,
          currentRegistered cr !! id = Some c
          /\ data c = Some payload
          /\ generation c = currentGeneration cr).
Proof.
  split; [done |]. split.
  - intros wrapped key d ops c Hops cs Hc. subst cs. cbn in *.
    eapply (run_fresh ops); [exact Hops | | exact Hc].
    apply registerAndWrap_fresh. by right.
  - intros entries x y payload Horder Hget. unfold getClickedIn in Hget.
    destruct (getClicked_fold_generation cr {| x := x; y := y |} entries)
      as [Hz | [Hin [Hgen _]]].
    + rewrite Hz in Hget. discriminate.
    + apply (iterationOrder_elem cr entries _ Horder) in Hin as [id Hid].
      eauto.
Qed.

End RegistryFacts.

(** *** Malformed frames *)

(** Runs the loop of [stripClickableSequencesFromFrame] on the runes of a
    given frame, for any registry and any width function. *)
Ltac run_stripLoop :=
  match goal with
  | |- context [stripLoop ?w (?f ?frame) ?cr parserInit] =>
    let l := eval vm_compute in (f frame) in
    replace (f frame) with l by (vm_compute; reflexivity);
    let s := eval lazy -[advance setNextRegistered setCurrentRegistered] in
               (stripLoop w l cr parserInit) in
    change (stripLoop w l cr parserInit) with s
  end.

(** An id left open at the end of the frame, or followed by text: the frame
    comes back unchanged, [currentRegistered] is emptied and
    [nextRegistered] is left as it was. *)
Lemma strip_unterminated {Data} RuneWidth (cr : clickableState Data) frame :
  frame ∈ [missingTerminatorThenEOF; missingTerminatorFollowedByText;
           missingTerminatorAndCount] ->
  stripClickableSequencesFromFrame RuneWidth cr frame
  = (setCurrentRegistered cr ∅, frame).
Proof.
  rewrite !elem_of_cons, elem_of_nil.
  intros [-> | [-> | [-> | []]]]; unfold stripClickableSequencesFromFrame;
    run_stripLoop; reflexivity.
Qed.

(** A separator or a terminator with no anchor before it: the frame comes
    back unchanged and [nextRegistered] is emptied. *)
Lemma strip_orphan {Data} RuneWidth (cr : clickableState Data) frame :
  frame ∈ [missingStart; missingStartAndCount] ->
  stripClickableSequencesFromFrame RuneWidth cr frame
  = (setNextRegistered cr ∅, frame).
Proof.
  rewrite !elem_of_cons, elem_of_nil.
  intros [-> | [-> | []]]; unfold stripClickableSequencesFromFrame;
    run_stripLoop; reflexivity.
Qed.

(** An id that was not registered for the next frame: likewise. *)
Lemma strip_missingReference {Data} RuneWidth (cr : clickableState Data) :
  (forall c, nextRegistered cr !! 4 = Some c ->
     generation c <> GoInt.add (currentGeneration cr) 1) ->
  stripClickableSequencesFromFrame RuneWidth cr missingReference
  = (setNextRegistered cr ∅, missingReference).
Proof.
  intros Hid. unfold stripClickableSequencesFromFrame.
  assert (Hrunes : exists j,
            rangeString missingReference
            = removelast (rangeString missingReference)
              ++ [(j, annotationTerminator)])
    by (eexists; vm_compute; reflexivity).
  destruct Hrunes as [j ->]. rewrite stripLoop_app.
  run_stripLoop.
  cbn [stripLoop stripStep].
  change (annotationTerminator =? annotationAnchor) with false.
  change (annotationTerminator =? annotationSeparator) with false.
  change (annotationTerminator =? annotationTerminator) with true.
  cbv iota.
  cbn [parsingClickableStack currentParsingId length Z.of_nat
       Pos.of_succ_nat Z.sub Z.add Z.opp Z.pos_sub Z.ltb Z.compare].
  destruct (nextRegistered cr !! 4) as [c |] eqn:Hc; [| reflexivity].
  destruct (Z.eqb_spec (generation c) (GoInt.add (currentGeneration cr) 1))
    as [Hg | _]; [| reflexivity].
  by apply Hid in Hg.
Qed.
(** C1 at a registry that has an entry registered for the next frame, for the
    three frames with an id left open: the frame comes back unchanged, but
    [nextRegistered] keeps its entry; it is [currentRegistered] that is
    emptied. *)
Theorem C1_unterminated_id_keeps_nextRegistered :
  Forall
    (fun frame =>
       let res := stripClickableSequencesFromFrame plainWidth oneRegistered frame in
       res.2 = frame
       /\ size (nextRegistered res.1) = 1%nat
       /\ nextRegistered res.1 = nextRegistered oneRegistered
       /\ currentRegistered res.1 = ∅)
    [missingTerminatorThenEOF; missingTerminatorFollowedByText;
     missingTerminatorAndCount].
Proof.
  repeat apply Forall_cons_2; [.. | apply Forall_nil_2].
  all: cbv zeta; rewrite strip_unterminated by set_solver.
  all: cbn [fst snd setCurrentRegistered nextRegistered currentRegistered].
  all: split; [reflexivity |]; split; [| split; reflexivity].
  all: vm_compute; reflexivity.
Qed.

(** The frames of the test suite on a fresh registry: there [nextRegistered]
    is empty afterwards, since it was empty before. *)
Example strip_malformed_fresh :
  Forall
    (fun frame =>
       let res :=
         stripClickableSequencesFromFrame plainWidth
           (makeClickableState : clickableState string) frame in
       res.2 = frame /\ size (nextRegistered res.1) = 0%nat)
    [missingTerminatorThenEOF; missingTerminatorFollowedByText;
     missingTerminatorAndCount; missingStart; missingReference;
     missingStartAndCount].
Proof.
  repeat apply Forall_cons_2; [.. | apply Forall_nil_2].
  all: split; vm_compute; reflexivity.
Qed.

(** *** Generations *)

(** C2 as stated fails: after the third swap of [threeFrames] the entry of
    the first frame is still in [currentRegistered], with generation 1,
    while [currentGeneration] is 3. *)
Lemma C2_counterexample_stale_entry_kept :
  let cs := run plainWidth threeFrames makeClickableState in
  currentGeneration cs = 3
  /\ exists c, currentRegistered cs !! 0 = Some c /\ generation c = 1
     /\ generation c <> currentGeneration cs.
Proof.
  cbv zeta. split; [vm_compute; reflexivity |].
  eexists. split; [vm_compute; reflexivity |].
  split; [reflexivity | vm_compute; discriminate].
Qed.

Lemma C2_witness :
  let cr : clickableState string := makeClickableState in
  let cs :=
    swapDoubleBuffer
      (run plainWidth [StripFrame (bytes "Click me please")]
         (registerAndWrap cr (bytes "here") (bytes "link-1")
            (Some "DATA-1"%string)).1) in
  exists c,
    currentRegistered cs !! (stableId cr (bytes "link-1")).2 = Some c
    /\ generation c = currentGeneration cs.
Proof.
  intros cr cs.
  assert (Hc : exists c,
             currentRegistered cs !! (stableId cr (bytes "link-1")).2 = Some c)
    by (eexists; vm_compute; reflexivity).
  destruct Hc as [c Hc]. exists c. split; [exact Hc |].
  apply (proj1 (proj2 (C2_swap_current_generation plainWidth cr))
           (bytes "here") (bytes "link-1") (Some "DATA-1"%string)
           [StripFrame (bytes "Click me please")] c); [reflexivity | exact Hc].
Defined.

(** *** Round trip *)

(** C5 as stated fails on a string that is not valid UTF-8: the byte 0xFF
    holds no marker rune, is read as U+FFFD and written back as the three
    bytes of U+FFFD. *)
Lemma C5_counterexample_invalid_utf8 :
  let cr : clickableState string := makeClickableState in
  let S := [xff] in
  let wrapped := registerAndWrap cr S (bytes "link-1") (Some "DATA-1"%string) in
  forallb (fun r => negb (isMarker r)) (runes S) = true
  /\ (stripClickableSequencesFromFrame plainWidth wrapped.1 wrapped.2).2
     = [xef; xbf; xbd]
  /\ (stripClickableSequencesFromFrame plainWidth wrapped.1 wrapped.2).2 <> S.
Proof.
  cbv zeta. split; [reflexivity |]. split; [vm_compute; reflexivity |].
  vm_compute. discriminate.
Qed.

Lemma C5_witness :
  let cr : clickableState string := makeClickableState in
  let S := bytes "here" in
  (stripClickableSequencesFromFrame plainWidth
     (registerAndWrap cr S (bytes "link-1") (Some "DATA-1"%string)).1
     (registerAndWrap cr S (bytes "link-1") (Some "DATA-1"%string)).2).2 = S.
Proof.
  intros cr S.
  apply (C5_strip_wrap_roundtrip plainWidth cr S).
  - split; [vm_compute; split; discriminate |].
    intros key id Hkey. cbn in Hkey. rewrite lookup_empty in Hkey.
    discriminate Hkey.
  - reflexivity.
  - reflexivity.
Defined.

(** *** Hit testing *)

Lemma C6_witness :
  let cs := run plainWidth nestedFrame makeClickableState in
  let p := {| x := 17; y := 0 |} in
  (exists c, hits cs p c)
  /\ exists c, hits cs p c
       /\ getClicked cs 17 0 = data c
       /\ forall c', hits cs p c' ->
            sequencePosition (bounds c') <= sequencePosition (bounds c).
Proof.
  intros cs p.
  assert (Hhit : exists c, hits cs p c).
  { eexists. split; [exists 0; vm_compute; reflexivity |].
    split; vm_compute; reflexivity. }
  split; [exact Hhit |].
  assert (Hpos : positionsOK (currentRegistered cs))
    by (apply (bool_decide_unpack _); vm_compute; reflexivity).
  apply (proj1 (proj2 (C6_getClicked_largest_sequencePosition cs
                         (map_to_list (currentRegistered cs)).*2 17 0
                         (reflexivity _) Hpos))).
  exact Hhit.
Defined.

(** The scenarios of the test suite. *)
Example nested_inner_wins :
  let cs := run plainWidth nestedFrame makeClickableState in
  getClicked cs 8 0 = None
  /\ getClicked cs 10 0 = Some "outer-data"%string
  /\ getClicked cs 17 0 = Some "inner-data"%string
  /\ getClicked cs 20 0 = Some "inner-data"%string.
Proof. vm_compute. repeat split. Qed.

(** *** Stripping, ids and clicks *)

Section RegistryInvariantsFacts.
Context {Data : Type}.
Variable RuneWidth : rune -> Z.

Abbreviation state := (clickableState Data).

Lemma walk_app pc l1 l2 :
  walk RuneWidth pc (l1 ++ l2) = walk RuneWidth (walk RuneWidth pc l1) l2.
Proof. apply fold_left_app. Qed.

(** Text outside of an id: the loop walks the cells and copies the runes. *)
Lemma stripLoop_walk l (cr : state) p :
  forallb (fun ir => negb (isMarker ir.2)) l = true ->
  currentParsingId p <= 0 ->
  stripLoop RuneWidth l cr p =
  Next cr {| prev := (walk RuneWidth (prev p, current p) l.*2).1;
             current := (walk RuneWidth (prev p, current p) l.*2).2;
             parsingClickableStack := parsingClickableStack p;
             currentParsingId := currentParsingId p;
             strippedFrameBuilder :=
               strippedFrameBuilder p ++ flat_map encodeRune l.*2 |}.
Proof.
  revert p. induction l as [| [i r] l IH]; intros p Hl Hid.
  - cbn. rewrite app_nil_r. by destruct p.
  - cbn [forallb] in Hl. apply andb_prop in Hl as [Hr Hl].
    unfold isMarker in Hr. cbn [snd] in Hr.
    rewrite !negb_orb in Hr. apply andb_prop in Hr as [[H1 H2]%andb_prop H3].
    apply negb_true_iff in H1, H2, H3.
    cbn [stripLoop stripStep]. rewrite H1, H2, H3.
    destruct (Z.gtb_spec (currentParsingId p) 0) as [? | _]; [lia |].
    rewrite IH; [| exact Hl | exact Hid].
    cbn. by rewrite <- app_assoc.
Qed.

Lemma strip_plain (cr : state) frame :
  forallb (fun r => negb (isMarker r)) (runes frame) = true ->
  stripClickableSequencesFromFrame RuneWidth cr frame
  = (cr, flat_map encodeRune (runes frame)).
Proof.
  intros Hplain. unfold stripClickableSequencesFromFrame.
  rewrite stripLoop_walk;
    [| by rewrite (forallb_runes (fun r => negb (isMarker r))) | cbn; lia].
  reflexivity.
Qed.

(** X1. A frame without markers goes through as [range] reads it and
    [WriteRune] writes it back, and the registry is left alone; a valid
    UTF-8 frame comes back byte for byte. *)
Theorem strip_plain_frame (cr : state) frame :
  forallb (fun r => negb (isMarker r)) (runes frame) = true ->
  stripClickableSequencesFromFrame RuneWidth cr frame
  = (cr, flat_map encodeRune (runes frame))
  /\ (validString frame = true ->
      stripClickableSequencesFromFrame RuneWidth cr frame = (cr, frame)).
Proof.
  intros Hplain. pose proof (strip_plain cr frame Hplain) as E.
  split; [exact E |]. intros Hv. by rewrite E, valid_reencode.
Qed.

Lemma stripStep_builder (cr : state) p i r :
  match stripStep RuneWidth cr p (i, r) with
  | Next _ p' =>
    strippedFrameBuilder p' =
    strippedFrameBuilder p
    ++ flat_map encodeRune (filter (fun r => isMarker r = false) [r])
  | ReturnFrame _ => True
  end.
Proof.
  unfold stripStep.
  destruct (isMarker r) eqn:Hm.
  - rewrite filter_cons_False, filter_nil by (rewrite Hm; discriminate).
    unfold isMarker in Hm.
    repeat match goal with
    | |- context [if ?c then _ else _] => destruct c eqn:?
    | |- context [match ?o with Some _ => _ | None => _ end] => destruct o eqn:?
    end; cbn; rewrite ?app_nil_r; try done.
  - rewrite filter_cons_True, filter_nil by exact Hm.
    unfold isMarker in Hm. rewrite !orb_false_iff in Hm.
    destruct Hm as [[-> ->] ->].
    destruct (currentParsingId p >? 0); [done |]. cbn. by rewrite app_nil_r.
Qed.

Lemma stripLoop_builder l (cr : state) p :
  match stripLoop RuneWidth l cr p with
  | Next _ p' =>
    strippedFrameBuilder p' =
    strippedFrameBuilder p
    ++ flat_map encodeRune (filter (fun r => isMarker r = false) l.*2)
  | ReturnFrame _ => True
  end.
Proof.
  revert cr p. induction l as [| [i r] l IH]; intros cr p.
  - cbn. by rewrite app_nil_r.
  - cbn [stripLoop]. pose proof (stripStep_builder cr p i r) as Hstep.
    destruct (stripStep RuneWidth cr p (i, r)) as [cr1 p1 |]; [| done].
    specialize (IH cr1 p1).
    destruct (stripLoop RuneWidth l cr1 p1) as [cr2 p2 |]; [| done].
    rewrite IH, Hstep. cbn [fmap list_fmap snd].
    change (r :: l.*2) with ([r] ++ l.*2).
    by rewrite filter_app, flat_map_app, app_assoc.
Qed.

(** X2. What comes back is the frame itself, or the frame without its markers:
    the other runes, in their order, and no marker among them. *)
Theorem strip_output (cr : state) frame :
  let out := (stripClickableSequencesFromFrame RuneWidth cr frame).2 in
  let kept := filter (fun r => isMarker r = false) (runes frame) in
  out = frame \/ (out = flat_map encodeRune kept /\ runes out = kept).
Proof.
  cbn zeta. unfold stripClickableSequencesFromFrame.
  pose proof (stripLoop_builder (rangeString frame) cr parserInit) as Hb.
  destruct (stripLoop RuneWidth (rangeString frame) cr parserInit) as [cr' p |];
    [| by left].
  destruct (negb (currentParsingId p =? -1)); [by left | right].
  cbn [snd]. cbn in Hb. fold (runes frame) in Hb. rewrite Hb.
  split; [reflexivity |]. apply runes_encode.
  apply Forall_forall. intros r [_ Hr]%list_elem_of_filter.
  revert r Hr. apply Forall_forall, runes_scalar.
Qed.

Lemma sameEntries_refl (m : gmap Z (clickable Data)) : sameEntries m m.
Proof. intros id. by destruct (m !! id). Qed.

Lemma sameEntries_trans (m1 m2 m3 : gmap Z (clickable Data)) :
  sameEntries m1 m2 -> sameEntries m2 m3 -> sameEntries m1 m3.
Proof.
  intros H12 H23 id. specialize (H12 id). specialize (H23 id).
  destruct (m1 !! id), (m2 !! id), (m3 !! id); try done.
  destruct H12, H23. split; congruence.
Qed.

Lemma stripLoop_entries l (cr : state) p :
  nextRegistered (stepState (stripLoop RuneWidth l cr p)) = ∅
  \/ sameEntries (nextRegistered cr)
       (nextRegistered (stepState (stripLoop RuneWidth l cr p))).
Proof.
  revert cr p. induction l as [| ir l IH]; intros cr p.
  - right. apply sameEntries_refl.
  - cbn [stripLoop]. pose proof (stripStep_registry RuneWidth cr p ir) as Hstep.
    destruct (stripStep RuneWidth cr p ir) as [cr1 p1 | cr1].
    + destruct Hstep as (_ & _ & _ & _ & Hnext).
      destruct (IH cr1 p1) as [He | Hs]; [by left | right].
      eapply sameEntries_trans; [| exact Hs].
      destruct Hnext as [-> | (existing & b & Hex & _ & _ & ->)];
        [apply sameEntries_refl |].
      intros id. destruct (decide (currentParsingId p = id)) as [<- | Hne].
      * by rewrite lookup_insert_eq, Hex.
      * rewrite lookup_insert_ne by exact Hne.
        by destruct (nextRegistered cr !! id).
    + cbn [stepState].
      destruct Hstep as (_ & _ & _ & [[_ ->] | [_ ->]]);
        [by left | right; apply sameEntries_refl].
Qed.

Lemma strip_entries (cr : state) frame :
  let cr' := (stripClickableSequencesFromFrame RuneWidth cr frame).1 in
  nextRegistered cr' = ∅ \/ sameEntries (nextRegistered cr) (nextRegistered cr').
Proof.
  cbn zeta. unfold stripClickableSequencesFromFrame.
  pose proof (stripLoop_entries (rangeString frame) cr parserInit) as H.
  destruct (stripLoop RuneWidth (rangeString frame) cr parserInit) as [cr' p | cr'];
    cbn [stepState] in H; [| exact H].
  by destruct (negb (currentParsingId p =? -1)).
Qed.

(** X3. The call registers nothing and drops no single entry: the counters, the
    key map and the payloads stay; [currentRegistered] stays or is emptied;
    [nextRegistered] is emptied, or keeps its ids with their payload and
    generation, the bounds alone being rewritten. *)
Theorem strip_keeps_entries (cr : state) frame :
  let cr' := (stripClickableSequencesFromFrame RuneWidth cr frame).1 in
  currentGeneration cr' = currentGeneration cr
  /\ idCounter cr' = idCounter cr
  /\ stableKeyMap cr' = stableKeyMap cr
  /\ (currentRegistered cr' = currentRegistered cr \/ currentRegistered cr' = ∅)
  /\ (nextRegistered cr' = ∅
      \/ sameEntries (nextRegistered cr) (nextRegistered cr')).
Proof.
  cbn zeta.
  destruct (strip_kept RuneWidth cr frame) as (Hg & Hi & Hk & Hc & _).
  split_and!; try done. apply strip_entries.
Qed.

Lemma stableId_lookup (cr : state) key :
  stableKeyMap (stableId cr key).1 !! key = Some (stableId cr key).2.
Proof.
  unfold stableId. destruct (stableKeyMap cr !! key) eqn:Hk; cbn; [exact Hk |].
  apply lookup_insert_eq.
Qed.

Lemma stableId_keeps (cr : state) key k id :
  stableKeyMap cr !! k = Some id -> stableKeyMap (stableId cr key).1 !! k = Some id.
Proof.
  intros Hk. unfold stableId.
  destruct (stableKeyMap cr !! key) eqn:Hkey; cbn; [exact Hk |].
  rewrite lookup_insert_ne; [exact Hk | congruence].
Qed.

Lemma registerAndWrap_keys (cr : state) wrapped key d :
  stableKeyMap (registerAndWrap cr wrapped key d).1 = stableKeyMap (stableId cr key).1
  /\ idCounter (registerAndWrap cr wrapped key d).1 = idCounter (stableId cr key).1.
Proof. unfold registerAndWrap. by destruct (stableId cr key). Qed.

Lemma runOp_keeps_key (cr : state) o k id :
  stableKeyMap cr !! k = Some id -> stableKeyMap (runOp RuneWidth cr o) !! k = Some id.
Proof.
  intros Hk. destruct o as [wrapped key d | frame |]; cbn [runOp].
  - destruct (registerAndWrap_keys cr wrapped key d) as [-> _].
    by apply stableId_keeps.
  - destruct (strip_kept RuneWidth cr frame) as (_ & _ & -> & _). exact Hk.
  - exact Hk.
Qed.

Lemma run_keeps_key ops (cr : state) k id :
  stableKeyMap cr !! k = Some id -> stableKeyMap (run RuneWidth ops cr) !! k = Some id.
Proof.
  revert cr. induction ops as [| o ops IH]; intros cr Hk; [exact Hk |].
  cbn [run fold_left]. apply IH. by apply runOp_keeps_key.
Qed.

(** X4. A key keeps its id: whatever is called after a key got its id, asking
    again returns the same id and changes nothing. *)
Theorem stableId_stable (cr : state) key ops :
  let first := stableId cr key in
  stableId (run RuneWidth ops first.1) key = (run RuneWidth ops first.1, first.2).
Proof.
  cbn zeta.
  pose proof (run_keeps_key ops _ _ _ (stableId_lookup cr key)) as Hk.
  unfold stableId at 1. by rewrite Hk.
Qed.

Lemma stableId_keysOK (cr : state) key n :
  idsOK cr -> keysInjective cr -> idCounter cr <= n -> n < GoInt.maxInt ->
  idsOK (stableId cr key).1 /\ keysInjective (stableId cr key).1
  /\ idCounter (stableId cr key).1 <= n + 1.
Proof.
  intros [Hc Hm] Hinj Hn Hmax. unfold stableId.
  destruct (stableKeyMap cr !! key) as [id |] eqn:Hk; cbn [fst].
  - split_and!; [by split | exact Hinj | lia].
  - unfold idsOK, keysInjective. cbn.
    rewrite GoIntFacts.add_exact
      by (unfold GoInt.inRange, GoInt.minInt, GoInt.maxInt in *; lia).
    split_and!; try lia.
    + intros key' id'. destruct (decide (key = key')) as [<- | Hne].
      * rewrite lookup_insert_eq. intros [= <-]. lia.
      * rewrite lookup_insert_ne by exact Hne. intros H%Hm. lia.
    + intros k1 k2 id.
      destruct (decide (key = k1)) as [<- | H1], (decide (key = k2)) as [<- | H2];
        rewrite ?lookup_insert_eq, ?lookup_insert_ne by done; try done.
      * intros [= <-] H%Hm. lia.
      * intros H%Hm [= <-]. lia.
      * apply Hinj.
Qed.

Lemma runOp_keysOK (cr : state) o n :
  idsOK cr -> keysInjective cr -> idCounter cr <= n -> n < GoInt.maxInt ->
  idsOK (runOp RuneWidth cr o) /\ keysInjective (runOp RuneWidth cr o)
  /\ idCounter (runOp RuneWidth cr o) <= n + 1.
Proof.
  intros Hids Hinj Hn Hmax.
  destruct o as [wrapped key d | frame |]; cbn [runOp].
  - destruct (registerAndWrap_keys cr wrapped key d) as [Hk Hi].
    destruct (stableId_keysOK cr key n Hids Hinj Hn Hmax) as ([Hc Hm] & Hinj' & Hn').
    unfold idsOK, keysInjective. by rewrite Hk, Hi.
  - destruct (strip_kept RuneWidth cr frame) as (_ & Hi & Hk & _).
    unfold idsOK, keysInjective. rewrite Hi, Hk.
    split; [exact Hids |]. split; [exact Hinj | lia].
  - split; [exact Hids |]. split; [exact Hinj | cbn; lia].
Qed.

Lemma run_keysOK ops (cr : state) n :
  idsOK cr -> keysInjective cr -> idCounter cr <= n ->
  n + Z.of_nat (length ops) <= GoInt.maxInt ->
  idsOK (run RuneWidth ops cr) /\ keysInjective (run RuneWidth ops cr)
  /\ idCounter (run RuneWidth ops cr) <= n + Z.of_nat (length ops).
Proof.
  revert cr n. induction ops as [| o ops IH]; intros cr n Hids Hinj Hn Hlen.
  - cbn. split_and!; [done | done | lia].
  - cbn [length] in Hlen. cbn [run fold_left].
    destruct (runOp_keysOK cr o n Hids Hinj Hn ltac:(lia)) as (Hids' & Hinj' & Hn').
    destruct (IH _ (n + 1) Hids' Hinj' Hn' ltac:(lia)) as (? & ? & ?).
    unfold run in *. split_and!; [done | done |]. cbn [length]. lia.
Qed.

(** X5. Two keys never share an id, whenever each of them is first seen, as long
    as fewer than 2^63 calls were made on the registry. *)
Theorem stableId_distinct_keys ops1 ops2 k1 k2 :
  Z.of_nat (length ops1) + Z.of_nat (length ops2) + 2 <= GoInt.maxInt ->
  k1 <> k2 ->
  let first := stableId (run RuneWidth ops1 (makeClickableState : state)) k1 in
  let second := stableId (run RuneWidth ops2 first.1) k2 in
  second.2 <> first.2.
Proof.
  intros Hlen Hne. cbn zeta.
  set (cr1 := run RuneWidth ops1 (makeClickableState : state)).
  assert (H0 : idsOK (makeClickableState : state)
               /\ keysInjective (makeClickableState : state)).
  { split; [split; [done |] |]; intros ?; cbn; intros *; by rewrite lookup_empty. }
  destruct H0 as [Hids0 Hinj0].
  destruct (run_keysOK ops1 _ 0 Hids0 Hinj0 ltac:(done) ltac:(lia))
    as (Hids1 & Hinj1 & Hn1). fold cr1 in Hids1, Hinj1, Hn1.
  destruct (stableId_keysOK cr1 k1 _ Hids1 Hinj1 Hn1 ltac:(lia))
    as (Hids2 & Hinj2 & Hn2).
  set (cr2 := (stableId cr1 k1).1) in *.
  destruct (run_keysOK ops2 cr2 _ Hids2 Hinj2 Hn2 ltac:(lia))
    as (Hids3 & Hinj3 & Hn3).
  set (cr3 := run RuneWidth ops2 cr2) in *.
  destruct (stableId_keysOK cr3 k2 _ Hids3 Hinj3 Hn3 ltac:(lia))
    as (_ & Hinj4 & _).
  intros Heq. apply Hne.
  apply (Hinj4 k1 k2 (stableId cr1 k1).2).
  - apply stableId_keeps, run_keeps_key, stableId_lookup.
  - rewrite <- Heq. apply stableId_lookup.
Qed.

Lemma runes_app s t : validString s = true -> runes (s ++ t) = runes s ++ runes t.
Proof.
  intros Hv. unfold runes, rangeString.
  rewrite rangeString_app by exact Hv. rewrite fmap_app. f_equal.
  apply rangeFrom_runes.
Qed.

Lemma strip_wrapped (cr : state) (pre S post K : gostring) (P : option Data) :
  idsOK cr ->
  validString pre = true -> validString S = true -> validString post = true ->
  forallb (fun r => negb (isMarker r)) (runes pre) = true ->
  forallb (fun r => negb (isMarker r)) (runes S) = true ->
  forallb (fun r => negb (isMarker r)) (runes post) = true ->
  stripClickableSequencesFromFrame RuneWidth (registerAndWrap cr S K P).1
    (pre ++ (registerAndWrap cr S K P).2 ++ post)
  = (setNextRegistered (registerAndWrap cr S K P).1
       (<[(stableId cr K).2 := renderedEntry RuneWidth cr pre S P]> (nextRegistered cr)),
     pre ++ S ++ post).
Proof.
  intros Hids Hvpre HvS Hvpost Hpre HS Hpost.
  pose proof (stableId_range cr K Hids) as Hid.
  pose proof (registerAndWrap_spec cr S K P) as Hreg. cbn zeta in Hreg.
  destruct (registerAndWrap cr S K P) as [cr2 w].
  destruct Hreg as (-> & Hgen & Hcur & Hnext). cbn [fst snd].
  set (id := (stableId cr K).2) in *.
  unfold stripClickableSequencesFromFrame, rangeString.
  rewrite <- !app_assoc.
  rewrite rangeString_app by exact Hvpre.
  rewrite rangeString_app by reflexivity.
  rewrite rangeString_app by exact HvS.
  destruct (rangeString_separators (Z.to_nat id)
              (0 + Z.of_nat (length pre)
               + Z.of_nat (length (encodeRune annotationAnchor))
               + Z.of_nat (length S))
              (encodeRune annotationTerminator ++ post)) as (seps & -> & Hseps).
  rewrite rangeString_app by reflexivity.
  set (j0 := 0 + Z.of_nat (length pre)).
  set (j := _ + 3 * Z.of_nat (Z.to_nat id)).
  change (rangeFrom (length (encodeRune annotationTerminator)) j
            (encodeRune annotationTerminator))
    with [(j, annotationTerminator)].
  change (rangeFrom (length (encodeRune annotationAnchor)) j0
            (encodeRune annotationAnchor))
    with [(j0, annotationAnchor)].
  (* the text before *)
  rewrite stripLoop_app, stripLoop_walk;
    [| by rewrite (forallb_runes (fun r => negb (isMarker r))) | cbn; lia].
  fold (rangeString pre). fold (runes pre).
  set (c1 := walk RuneWidth (prev parserInit, current parserInit) (runes pre)).
  (* the anchor *)
  cbn [app stripLoop stripStep].
  change (annotationAnchor =? annotationAnchor) with true. cbn iota.
  cbn [parsingClickableStack currentParsingId prev current strippedFrameBuilder
       parserInit app].
  (* the wrapped text *)
  rewrite stripLoop_app, stripLoop_walk;
    [| by rewrite (forallb_runes (fun r => negb (isMarker r))),
            (rangeFrom_runes _ _ 0)
     | cbn; lia].
  rewrite (rangeFrom_runes _ _ 0). fold (rangeString S). fold (runes S).
  cbn [parsingClickableStack currentParsingId prev current strippedFrameBuilder].
  replace (c1.1, c1.2) with c1 by (by destruct c1).
  set (c2 := walk RuneWidth c1 (runes S)).
  (* the id *)
  rewrite stripLoop_app.
  rewrite (stripLoop_separators _ _ _ _ (Z.to_nat id)); [| exact Hseps | cbn; lia | cbn; lia].
  (* the terminator *)
  cbn [stripLoop stripStep].
  change (annotationTerminator =? annotationAnchor) with false.
  change (annotationTerminator =? annotationSeparator) with false.
  change (annotationTerminator =? annotationTerminator) with true.
  cbn iota. cbn [parsingClickableStack currentParsingId prev current
                 strippedFrameBuilder].
  cbn [length Z.of_nat Pos.of_succ_nat Z.sub Z.add
       Z.opp Z.pos_sub Z.ltb Z.compare Z.eqb Pos.eqb].
  rewrite Z2Nat.id by lia.
  rewrite Hnext, lookup_insert_eq. cbn [generation].
  rewrite Hgen, Z.eqb_refl. cbn iota.
  change (Z.of_nat 1 - 1) with 0.
  change (0 <? 0) with false. change (0 =? 0) with true. cbn iota.
  unfold stackAt.
  cbn [Z.to_nat lookup list_lookup default from_option take start
       sequencePosition data].
  rewrite Z.add_0_l, insert_insert_eq.
  (* the text after *)
  rewrite stripLoop_walk;
    [| by rewrite (forallb_runes (fun r => negb (isMarker r))),
            (rangeFrom_runes _ _ 0)
     | cbn; lia].
  rewrite (rangeFrom_runes _ _ 0). fold (rangeString post). fold (runes post).
  cbn [parsingClickableStack currentParsingId prev current strippedFrameBuilder
       negb Z.eqb Pos.eqb fst snd nextRegistered currentRegistered
       setNextRegistered].
  change (Z.to_nat 0) with 0%nat.
  cbn [lookup list_lookup default from_option id start sequencePosition].
  rewrite !valid_reencode by done. rewrite <- app_assoc.
  unfold renderedEntry. rewrite runes_app, walk_app by exact Hvpre.
  subst c2 c1 j0. by rewrite Z.add_0_l.
Qed.

(** X6. A clickable in a frame: for text before, inside and after it that is
    valid UTF-8 and holds no marker, the frame comes back without the
    markers, and the entry registered under the key's id gets as bounds the
    cell where the wrapped text starts, the cell of its last rune, and the
    byte offset of its anchor. *)
Theorem strip_registers_bounds (cr : state) (pre S post K : gostring)
  (P : option Data) :
  idsOK cr ->
  validString pre = true -> validString S = true -> validString post = true ->
  forallb (fun r => negb (isMarker r)) (runes pre) = true ->
  forallb (fun r => negb (isMarker r)) (runes S) = true ->
  forallb (fun r => negb (isMarker r)) (runes post) = true ->
  let id := (stableId cr K).2 in
  let wrapped := registerAndWrap cr S K P in
  let res :=
    stripClickableSequencesFromFrame RuneWidth wrapped.1
      (pre ++ wrapped.2 ++ post) in
  res.2 = pre ++ S ++ post
  /\ currentRegistered res.1 = currentRegistered cr
  /\ nextRegistered res.1 =
     <[id := {| data := P;
                bounds :=
                  {| start := (walk RuneWidth (zeroCell, zeroCell) (runes pre)).2;
                     end_ :=
                       (walk RuneWidth (zeroCell, zeroCell) (runes (pre ++ S))).1;
                     sequencePosition := Z.of_nat (length pre) |};
                generation := GoInt.add (currentGeneration cr) 1 |}]>
       (nextRegistered cr).
Proof.
  intros Hids Hvpre HvS Hvpost Hpre HS Hpost. cbn zeta.
  rewrite strip_wrapped by done. cbn [fst snd].
  split_and!; [done | | done].
  pose proof (registerAndWrap_spec cr S K P) as Hreg. cbn zeta in Hreg.
  destruct (registerAndWrap cr S K P) as [cr2 w]. by destruct Hreg as (_ & _ & ? & _).
Qed.

(** X7. One clickable on a fresh registry, stripped and swapped in: a click
    returns its payload on the cells from the first to the last rune of the
    wrapped text, in reading order, and [nil] everywhere else. *)
Theorem single_clickable_click (pre S post K : gostring) (P : option Data)
  entries (x y : Z) :
  validString pre = true -> validString S = true -> validString post = true ->
  forallb (fun r => negb (isMarker r)) (runes pre) = true ->
  forallb (fun r => negb (isMarker r)) (runes S) = true ->
  forallb (fun r => negb (isMarker r)) (runes post) = true ->
  let wrapped := registerAndWrap (makeClickableState : state) S K P in
  let cs :=
    swapDoubleBuffer
      (stripClickableSequencesFromFrame RuneWidth wrapped.1
         (pre ++ wrapped.2 ++ post)).1 in
  let first := (walk RuneWidth (zeroCell, zeroCell) (runes pre)).2 in
  let last := (walk RuneWidth (zeroCell, zeroCell) (runes (pre ++ S))).1 in
  iterationOrder cs entries ->
  getClickedIn entries cs x y =
  if bool_decide (cellLe first {| x := x; y := y |}
                  /\ cellLe {| x := x; y := y |} last)
  then P else None.
Proof.
  intros Hvpre HvS Hvpost Hpre HS Hpost. cbn zeta.
  assert (Hids : idsOK (makeClickableState : state)).
  { split; [done |]. intros key id. cbn. by rewrite lookup_empty. }
  rewrite strip_wrapped by done. cbn [fst].
  unfold iterationOrder.
  change (currentRegistered (swapDoubleBuffer ?c)) with (nextRegistered c).
  cbn [nextRegistered setNextRegistered makeClickableState].
  rewrite insert_empty, map_to_list_singleton. cbn [fmap list_fmap snd].
  intros ->%Permutation_singleton_r.
  unfold getClickedIn. cbn [fold_left]. unfold getClickedStep.
  set (p := {| x := x; y := y |}).
  change (generation (renderedEntry _ _ _ _ _)) with (GoInt.add 0 1).
  change (currentGeneration (swapDoubleBuffer _)) with (GoInt.add 0 1).
  rewrite Z.eqb_refl. cbn [andb].
  change (sequencePosition (bounds (renderedEntry _ _ pre S P)))
    with (Z.of_nat (length pre)).
  change (sequencePosition (bounds zeroClickable)) with 0.
  destruct (Z.geb_spec (Z.of_nat (length pre)) 0) as [_ | ?]; [| lia].
  rewrite andb_true_r.
  pose proof (containsPoint_cellLe (bounds (renderedEntry RuneWidth makeClickableState pre S P)) p)
    as Hc.
  change (start (bounds (renderedEntry _ _ pre S P)))
    with (walk RuneWidth (zeroCell, zeroCell) (runes pre)).2 in Hc.
  change (end_ (bounds (renderedEntry _ _ pre S P)))
    with (walk RuneWidth (zeroCell, zeroCell) (runes (pre ++ S))).1 in Hc.
  case_bool_decide as Hd.
  - apply Hc in Hd. by rewrite Hd.
  - destruct (containsPoint _ p); [| done]. exfalso. by apply Hd, Hc.
Qed.

Lemma registeredBy_app (done more : list (op (Data := Data))) d :
  registeredBy done d -> registeredBy (done ++ more) d.
Proof.
  intros (wrapped & key & Hin). exists wrapped, key.
  apply elem_of_app. by left.
Qed.

Lemma runOp_pending (cr : state) o done :
  isSwap o = false ->
  pendingFrom cr done -> pendingFrom (runOp RuneWidth cr o) (done ++ [o]).
Proof.
  unfold pendingFrom. intros Ho Hp.
  destruct o as [wrapped key d | frame |]; cbn [runOp]; [| | discriminate].
  - pose proof (registerAndWrap_spec cr wrapped key d) as H. cbn zeta in H.
    destruct (registerAndWrap cr wrapped key d) as [cr2 w].
    destruct H as (_ & Hg & _ & Hn). cbn [fst]. rewrite Hg, Hn.
    intros id c.
    destruct (decide ((stableId cr key).2 = id)) as [<- | Hne].
    + rewrite lookup_insert_eq. intros [= <-] _. cbn.
      exists wrapped, key. apply elem_of_app. right. by apply list_elem_of_singleton.
    + rewrite lookup_insert_ne by exact Hne. intros Hc Hgen.
      apply registeredBy_app. by apply (Hp id).
  - destruct (strip_kept RuneWidth cr frame) as (Hg & _).
    destruct (strip_entries cr frame) as [He | Hs]; rewrite Hg.
    + rewrite He. intros id c. by rewrite lookup_empty.
    + intros id c Hc Hgen. specialize (Hs id). rewrite Hc in Hs.
      destruct (nextRegistered cr !! id) as [c0 |] eqn:Hc0; [| done].
      destruct Hs as [Hd Hgn]. rewrite Hd.
      apply registeredBy_app. apply (Hp id); [exact Hc0 | congruence].
Qed.

Lemma run_pending ops (cr : state) done :
  forallb (fun o => negb (isSwap o)) ops = true ->
  pendingFrom cr done -> pendingFrom (run RuneWidth ops cr) (done ++ ops).
Proof.
  revert cr done. induction ops as [| o ops IH]; intros cr done Hops Hp.
  - by rewrite app_nil_r.
  - cbn [forallb] in Hops. apply andb_prop in Hops as [Ho%negb_true_iff Hops].
    cbn [run fold_left]. rewrite (cons_middle o done ops), app_assoc.
    apply IH; [exact Hops |]. by apply runOp_pending.
Qed.

Lemma runOp_generationsOK (cr : state) o n :
  generationsOK cr -> currentGeneration cr <= n -> n < GoInt.maxInt ->
  generationsOK (runOp RuneWidth cr o)
  /\ currentGeneration (runOp RuneWidth cr o) <= n + 1.
Proof.
  intros (H0 & Hc & Hn) Hle Hmax.
  assert (Hadd : GoInt.add (currentGeneration cr) 1 = currentGeneration cr + 1).
  { apply GoIntFacts.add_exact.
    unfold GoInt.inRange, GoInt.minInt, GoInt.maxInt in *. lia. }
  destruct o as [wrapped key d | frame |]; cbn [runOp].
  - pose proof (registerAndWrap_spec cr wrapped key d) as H. cbn zeta in H.
    destruct (registerAndWrap cr wrapped key d) as [cr2 w].
    destruct H as (_ & Hg & Hcur & Hnext). cbn [fst].
    unfold generationsOK. rewrite Hg, Hcur, Hnext, Hadd.
    split; [| lia]. split_and!; [done | exact Hc |].
    intros id c.
    destruct (decide ((stableId cr key).2 = id)) as [<- | Hne].
    + rewrite lookup_insert_eq. intros [= <-]. cbn. lia.
    + rewrite lookup_insert_ne by exact Hne. apply Hn.
  - destruct (strip_kept RuneWidth cr frame) as (Hg & _ & _ & Hcur & _).
    unfold generationsOK. rewrite Hg. split; [| lia]. split_and!; [done | |].
    + destruct Hcur as [-> | ->]; [exact Hc |].
      intros id c. by rewrite lookup_empty.
    + destruct (strip_entries cr frame) as [-> | Hs].
      * intros id c. by rewrite lookup_empty.
      * intros id c Hc'. specialize (Hs id). rewrite Hc' in Hs.
        destruct (nextRegistered cr !! id) as [c0 |] eqn:Hc0; [| done].
        destruct Hs as [_ ->]. by apply (Hn id).
  - unfold generationsOK. cbn. rewrite Hadd. split; [| lia].
    split_and!; [lia | exact Hn |]. intros id c H%Hc. lia.
Qed.

Lemma run_generationsOK ops (cr : state) n :
  generationsOK cr -> currentGeneration cr <= n ->
  n + Z.of_nat (length ops) <= GoInt.maxInt ->
  generationsOK (run RuneWidth ops cr)
  /\ currentGeneration (run RuneWidth ops cr) <= n + Z.of_nat (length ops).
Proof.
  revert cr n. induction ops as [| o ops IH]; intros cr n Hok Hn Hlen.
  - cbn. split; [done | lia].
  - cbn [length] in Hlen. cbn [run fold_left].
    destruct (runOp_generationsOK cr o n Hok Hn ltac:(lia)) as (Hok' & Hn').
    destruct (IH _ (n + 1) Hok' Hn' ltac:(lia)) as (? & ?).
    unfold run in *. split; [done |]. cbn [length]. lia.
Qed.

(** After a swap nothing is registered yet for the frame to come. *)
Lemma swap_pending ops :
  Z.of_nat (length ops) + 2 <= GoInt.maxInt ->
  pendingFrom
    (swapDoubleBuffer (run RuneWidth ops (makeClickableState : state))) [].
Proof.
  intros Hlen.
  assert (H0 : generationsOK (makeClickableState : state)).
  { split_and!; [done | |]; intros id c; cbn; by rewrite lookup_empty. }
  destruct (run_generationsOK ops _ 0 H0 ltac:(done) ltac:(lia))
    as ((Hge & Hc & _) & Hle).
  set (cr := run RuneWidth ops makeClickableState) in *.
  intros id c Hin Hgen. cbn in Hin, Hgen. apply Hc in Hin.
  rewrite !GoIntFacts.add_exact in Hgen;
    unfold GoInt.inRange, GoInt.minInt, GoInt.maxInt in *;
    rewrite ?GoIntFacts.add_exact;
    unfold GoInt.inRange, GoInt.minInt, GoInt.maxInt in *; lia.
Qed.

(** X8. A click only returns what was registered for the frame on display: for a
    history [ops0] that ends at a frame boundary and calls [ops] without a
    swap, a payload that [getClicked] returns after the next swap was passed
    to [registerAndWrap] in [ops]. *)
Theorem getClicked_registered_this_frame ops0 ops entries x y (d : Data) :
  Z.of_nat (length ops0) + 2 <= GoInt.maxInt ->
  ops0 = [] \/ last ops0 = Some SwapDoubleBuffer ->
  forallb (fun o => negb (isSwap o)) ops = true ->
  let cs :=
    swapDoubleBuffer
      (run RuneWidth ops (run RuneWidth ops0 (makeClickableState : state))) in
  iterationOrder cs entries ->
  getClickedIn entries cs x y = Some d ->
  registeredBy ops (Some d).
Proof.
  intros Hlen Hboundary Hops cs Horder Hget.
  assert (Hstart : pendingFrom (run RuneWidth ops0 (makeClickableState : state)) []).
  { destruct Hboundary as [-> | Hlast].
    - intros id c. cbn. by rewrite lookup_empty.
    - apply last_Some in Hlast as [ops0' ->].
      unfold run. rewrite fold_left_app. cbn [fold_left runOp].
      apply swap_pending. rewrite length_app in Hlen. cbn in Hlen. lia. }
  pose proof (run_pending ops _ [] Hops Hstart) as Hp. cbn [app] in Hp.
  unfold getClickedIn in Hget.
  destruct (getClicked_fold_generation cs {| x := x; y := y |} entries)
    as [Hz | [Hin [Hgen _]]].
  - rewrite Hz in Hget. discriminate.
  - apply (iterationOrder_elem cs entries _ Horder) in Hin as [id Hid].
    rewrite <- Hget. apply (Hp id); [exact Hid | exact Hgen].
Qed.

(** The loop rewrites the entries of the ids that the terminators name, and
    no other: an entry of [nextRegistered] under another id is as it was,
    unless the loop gave up and emptied the map. *)
Lemma stripLoop_closed l (cr : state) p id :
  id ∉ closedIdsFrom l.*2 (length (parsingClickableStack p)) (currentParsingId p) ->
  let cr' := stepState (stripLoop RuneWidth l cr p) in
  nextRegistered cr' = ∅ \/ nextRegistered cr' !! id = nextRegistered cr !! id.
Proof.
  revert cr p. induction l as [| [i r] l IH]; intros cr p Hid; [by right |].
  cbn [fmap list_fmap snd closedIdsFrom] in Hid. cbn [stripLoop]. unfold stripStep.
  destruct (r =? annotationAnchor).
  { apply (IH cr). cbn [parsingClickableStack currentParsingId].
    rewrite length_app, Nat.add_1_r. exact Hid. }
  destruct (r =? annotationSeparator).
  { destruct (currentParsingId p =? -1); [by left |]. by apply (IH cr). }
  destruct (r =? annotationTerminator).
  { destruct (parsingClickableStack p) as [| b stack] eqn:Hstack using rev_ind.
    { cbn [length]. by left. }
    clear IHstack. rewrite length_app, Nat.add_1_r in *.
    destruct (Z.ltb_spec (Z.of_nat (S (length stack)) - 1) 0) as [? | _]; [lia |].
    apply not_elem_of_cons in Hid as [Hne Hid].
    destruct (nextRegistered cr !! currentParsingId p) as [existing |] eqn:Hex;
      [| by left].
    destruct (generation existing =? GoInt.add (currentGeneration cr) 1);
      [| by left].
    match goal with
    | |- context [stripLoop _ l ?cr1 ?p1] =>
      destruct (IH cr1 p1) as [Hempty | Hkeep]
    end.
    - cbn [parsingClickableStack currentParsingId].
      replace (Z.to_nat (Z.of_nat (S (length stack)) - 1)) with (length stack) by lia.
      rewrite take_app_length.
      replace (Z.of_nat (S (length stack)) - 1 =? 0)
        with (match length stack with O => true | S _ => false end)
        by (destruct (length stack); [done | symmetry; apply Z.eqb_neq; lia]).
      by destruct (length stack).
    - by left.
    - right. rewrite Hkeep. cbn [nextRegistered setNextRegistered].
      by rewrite lookup_insert_ne. }
  destruct (currentParsingId p >? 0); [by right |].
  by apply (IH cr).
Qed.

Lemma strip_closed (cr : state) frame id :
  id ∉ closedIds frame ->
  let cr' := (stripClickableSequencesFromFrame RuneWidth cr frame).1 in
  nextRegistered cr' = ∅ \/ nextRegistered cr' !! id = nextRegistered cr !! id.
Proof.
  intros Hid. unfold stripClickableSequencesFromFrame.
  pose proof (stripLoop_closed (rangeString frame) cr parserInit id Hid) as Hl.
  cbn zeta in Hl.
  destruct (stripLoop RuneWidth (rangeString frame) cr parserInit) as [cr1 p | cr1];
    cbn [stepState] in Hl; [| exact Hl].
  by destruct (negb (currentParsingId p =? -1)).
Qed.

(** X9. A clickable that is registered for a frame and that no terminator
    of the frame names, whatever other clickables were registered and
    whatever the frame shows of them, keeps the zero bounds that
    [registerAndWrap] gave it, unless the frame was malformed and
    [nextRegistered] was emptied; after the swap it answers a click on the
    cell (0, 0). *)
Theorem unrendered_clickable_at_origin (cr : state) :
  (forall wrapped key d,
     unrendered (registerAndWrap cr wrapped key d).1 (stableId cr key).2 d)
  /\ (forall id d wrapped key d',
        unrendered cr id d -> (stableId cr key).2 <> id ->
        unrendered (registerAndWrap cr wrapped key d').1 id d)
  /\ (forall id d frame entries,
        boundsOK cr -> unrendered cr id d -> id ∉ closedIds frame ->
        let stripped := (stripClickableSequencesFromFrame RuneWidth cr frame).1 in
        nextRegistered stripped <> ∅ ->
        let cs := swapDoubleBuffer stripped in
        let origin := {| x := 0; y := 0 |} in
        iterationOrder cs entries ->
        unrendered stripped id d
        /\ hits cs origin
             {| data := d; bounds := zeroBounds;
                generation := currentGeneration cs |}
        /\ exists c, hits cs origin c /\ getClickedIn entries cs 0 0 = data c).
Proof.
  split; [| split].
  - intros wrapped key d.
    pose proof (registerAndWrap_spec cr wrapped key d) as Hreg. cbn zeta in Hreg.
    destruct (registerAndWrap cr wrapped key d) as [cr2 w].
    destruct Hreg as (_ & Hg & _ & Hn). unfold unrendered. cbn [fst].
    rewrite Hn, Hg. apply lookup_insert_eq.
  - intros id d wrapped key d' Hun Hne.
    pose proof (registerAndWrap_spec cr wrapped key d') as Hreg. cbn zeta in Hreg.
    destruct (registerAndWrap cr wrapped key d') as [cr2 w].
    destruct Hreg as (_ & Hg & _ & Hn). unfold unrendered in *. cbn [fst].
    rewrite Hn, Hg, lookup_insert_ne by exact Hne. exact Hun.
  - intros id d frame entries Hb Hun Hid stripped Hfull cs origin Horder.
    pose proof (runOp_boundsOK RuneWidth cr (StripFrame frame) Hb) as [_ Hpos].
    cbn [runOp] in Hpos. fold stripped in Hpos.
    pose proof (strip_kept RuneWidth cr frame) as (Hgen & _). fold stripped in Hgen.
    destruct (strip_closed cr frame id Hid) as [Hempty | Hkeep]; [done |].
    fold stripped in Hkeep. unfold unrendered in *. rewrite Hun in Hkeep.
    rewrite Hgen.
    assert (Hcs : currentGeneration cs = GoInt.add (currentGeneration cr) 1).
    { subst cs. cbn [swapDoubleBuffer currentGeneration]. by rewrite Hgen. }
    assert (Hhit : hits cs origin
              {| data := d; bounds := zeroBounds;
                 generation := currentGeneration cs |}).
    { split; [| by split]. exists id. rewrite Hcs. exact Hkeep. }
    split; [exact Hkeep |]. split; [exact Hhit |].
    destruct (getClicked_fold cs origin entries) as [[_ Hnone] | (Hin & Hcand & _)].
    + intros c [id' Hid']%(iterationOrder_elem cs entries _ Horder).
      by apply (Hpos id').
    + exfalso. destruct Hhit as [Hex Hc].
      apply (Hnone _ (proj2 (iterationOrder_elem cs entries _ Horder) Hex) Hc).
    + eexists. split; [| reflexivity]. split; [| exact Hcand].
      by apply (iterationOrder_elem cs entries _ Horder).
Qed.

End RegistryInvariantsFacts.

(** *** Examples for the properties above *)

Lemma strip_plain_frame_witness :
  let cr : clickableState string := makeClickableState in
  let frame := bytes "Click me please" in
  forallb (fun r => negb (isMarker r)) (runes frame) = true
  /\ stripClickableSequencesFromFrame plainWidth cr frame = (cr, frame).
Proof.
  cbv zeta. split; [vm_compute; reflexivity |].
  apply (strip_plain_frame plainWidth
           (makeClickableState : clickableState string) (bytes "Click me please"));
    vm_compute; reflexivity.
Defined.

Lemma stableId_distinct_keys_witness :
  let cr : clickableState string :=
    run plainWidth [RegisterAndWrap (bytes "here") (bytes "link-1") None]
      makeClickableState in
  let first := stableId cr (bytes "link-2") in
  let second := stableId (run plainWidth [SwapDoubleBuffer] first.1) (bytes "link-3") in
  bytes "link-2" <> bytes "link-3" /\ second.2 <> first.2.
Proof.
  cbv zeta. split; [discriminate |].
  apply (stableId_distinct_keys (Data := string) plainWidth
           [RegisterAndWrap (bytes "here") (bytes "link-1") None]
           [SwapDoubleBuffer] (bytes "link-2") (bytes "link-3")).
  - vm_compute. discriminate.
  - discriminate.
Defined.

Lemma strip_registers_bounds_witness :
  let cr : clickableState string := makeClickableState in
  let wrapped := registerAndWrap cr (bytes "here") (bytes "link-1") (Some "DATA-1"%string) in
  let res :=
    stripClickableSequencesFromFrame plainWidth wrapped.1
      (bytes "Click me " ++ wrapped.2 ++ bytes " please") in
  res.2 = bytes "Click me here please"
  /\ nextRegistered res.1 !! 0 =
     Some {| data := Some "DATA-1"%string;
             bounds := {| start := {| x := 9; y := 0 |};
                          end_ := {| x := 12; y := 0 |};
                          sequencePosition := 9 |};
             generation := 1 |}.
Proof.
  cbv zeta.
  destruct (strip_registers_bounds plainWidth
              (makeClickableState : clickableState string)
              (bytes "Click me ") (bytes "here") (bytes " please")
              (bytes "link-1") (Some "DATA-1"%string))
    as (Hout & _ & Hnext); try (vm_compute; reflexivity).
  { split; [done |]. intros key id. cbn. by rewrite lookup_empty. }
  cbv zeta in Hout, Hnext. split; [exact Hout |].
  rewrite Hnext. apply lookup_insert_eq.
Defined.

Lemma single_clickable_click_witness :
  let wrapped :=
    registerAndWrap (makeClickableState : clickableState string)
      (bytes "here") (bytes "link-1") (Some "DATA-1"%string) in
  let cs :=
    swapDoubleBuffer
      (stripClickableSequencesFromFrame plainWidth wrapped.1
         (bytes "Click me " ++ wrapped.2 ++ bytes " please")).1 in
  getClicked cs 12 0 = Some "DATA-1"%string /\ getClicked cs 13 0 = None.
Proof.
  cbv zeta. unfold getClicked. split.
  - rewrite (single_clickable_click plainWidth (bytes "Click me ") (bytes "here")
               (bytes " please") (bytes "link-1") (Some "DATA-1"%string));
      vm_compute; reflexivity.
  - rewrite (single_clickable_click plainWidth (bytes "Click me ") (bytes "here")
               (bytes " please") (bytes "link-1") (Some "DATA-1"%string));
      vm_compute; reflexivity.
Defined.

Lemma getClicked_registered_this_frame_witness :
  let w :=
    (registerAndWrap (makeClickableState : clickableState string)
       (bytes "here") (bytes "link-1") (Some "DATA-1"%string)).2 in
  let ops :=
    [RegisterAndWrap (bytes "here") (bytes "link-1") (Some "DATA-1"%string);
     StripFrame (bytes "Click me " ++ w ++ bytes " please")] in
  getClicked (swapDoubleBuffer (run plainWidth ops makeClickableState)) 9 0
  = Some "DATA-1"%string
  /\ registeredBy ops (Some "DATA-1"%string).
Proof.
  cbv zeta. split; [vm_compute; reflexivity |].
  eapply (getClicked_registered_this_frame plainWidth [] _ _ 9 0).
  - vm_compute. discriminate.
  - by left.
  - reflexivity.
  - unfold iterationOrder. reflexivity.
  - vm_compute. reflexivity.
Defined.

Lemma unrendered_clickable_at_origin_witness :
  let cr : clickableState string := makeClickableState in
  let hidden := registerAndWrap cr (bytes "here") (bytes "link-1")
                  (Some "DATA-1"%string) in
  let shown := registerAndWrap hidden.1 (bytes "there") (bytes "link-2")
                 (Some "DATA-2"%string) in
  let frame := bytes "Click " ++ shown.2 in
  let cs :=
    swapDoubleBuffer (stripClickableSequencesFromFrame plainWidth shown.1 frame).1 in
  closedIds frame = [1]
  /\ getClicked cs 6 0 = Some "DATA-2"%string
  /\ hits cs {| x := 0; y := 0 |}
       {| data := Some "DATA-1"%string; bounds := zeroBounds;
          generation := currentGeneration cs |}
  /\ exists c, hits cs {| x := 0; y := 0 |} c /\ getClicked cs 0 0 = data c.
Proof.
  cbv zeta. split; [vm_compute; reflexivity |].
  split; [vm_compute; reflexivity |].
  set (cr := makeClickableState : clickableState string).
  set (hidden := registerAndWrap cr (bytes "here") (bytes "link-1")
                   (Some "DATA-1"%string)).
  set (shown := registerAndWrap hidden.1 (bytes "there") (bytes "link-2")
                  (Some "DATA-2"%string)).
  destruct (unrendered_clickable_at_origin plainWidth cr) as (Hfirst & _ & _).
  destruct (unrendered_clickable_at_origin plainWidth hidden.1) as (_ & Hlater & _).
  destruct (unrendered_clickable_at_origin plainWidth shown.1) as (_ & _ & Hstrip).
  apply (Hstrip 0 (Some "DATA-1"%string) (bytes "Click " ++ shown.2)).
  - apply (runOp_boundsOK plainWidth hidden.1
             (RegisterAndWrap (bytes "there") (bytes "link-2") (Some "DATA-2"%string))).
    apply (runOp_boundsOK plainWidth cr
             (RegisterAndWrap (bytes "here") (bytes "link-1") (Some "DATA-1"%string))).
    split; apply map_Forall_empty.
  - apply Hlater; [apply Hfirst | vm_compute; discriminate].
  - replace (closedIds _) with [1] by (vm_compute; reflexivity).
    apply not_elem_of_cons. split; [discriminate | apply not_elem_of_nil].
  - vm_compute. done.
  - unfold iterationOrder. reflexivity.
Defined.

End ClickableFacts.

(** ** Properties of the cursor-position reply parser *)

Module CursorPositionFacts.
Import Utf8 Utf8Facts CursorPosition.

Lemma indexByte_lt s c k : indexByte s c = Some k -> (k < length s)%nat.
Proof.
  revert k. induction s as [| b t IH]; intros k; [done |].
  cbn. case_bool_decide; [intros [= <-]; lia |].
  destruct (indexByte t c) as [k' |]; [| done].
  intros [= <-]. specialize (IH k' eq_refl). lia.
Qed.

Lemma indexByte_lookup s c k : indexByte s c = Some k -> s !! k = Some c.
Proof.
  revert k. induction s as [| b t IH]; intros k; [done |].
  cbn. case_bool_decide as Hb; [intros [= <-]; by subst |].
  destruct (indexByte t c) as [k' |]; [| done].
  intros [= <-]. by apply IH.
Qed.


(** What the scanning loop finds, by the first 'R' of what is left to scan
    and the semicolons before it. *)
Lemma scanLoop_spec rest i sepIdx :
  0 <= i ->
  match indexByte rest "R"%byte with
  | None =>
    scanLoop rest i sepIdx = ScanReturn
    \/ exists s, scanLoop rest i sepIdx = ScanDone 0 s
  | Some e =>
    let k := countByte (take e rest) ";"%byte in
    if sepIdx =? -1 then
      (k = 0%nat -> scanLoop rest i sepIdx = ScanDone (i + Z.of_nat e) (-1))
      /\ (k = 1%nat ->
          exists p, indexByte rest ";"%byte = Some p /\ (p < e)%nat
            /\ scanLoop rest i sepIdx
               = ScanDone (i + Z.of_nat e) (i + Z.of_nat p))
      /\ ((2 <= k)%nat -> scanLoop rest i sepIdx = ScanReturn)
    else
      (k = 0%nat -> scanLoop rest i sepIdx = ScanDone (i + Z.of_nat e) sepIdx)
      /\ ((1 <= k)%nat -> scanLoop rest i sepIdx = ScanReturn)
  end.
Proof.
  revert i sepIdx. induction rest as [| c rest IH]; intros i sepIdx Hi.
  - cbn. right. by eexists.
  - cbn [indexByte scanLoop].
    destruct (bool_decide (c = ";"%byte)) eqn:Hsemi.
    + apply bool_decide_eq_true in Hsemi as ->.
      rewrite bool_decide_eq_false_2 by done.
      destruct (sepIdx =? -1) eqn:Hsep; cbn [negb].
      * specialize (IH (i + 1) i ltac:(lia)).
        destruct (Z.eqb_spec i (-1)) as [? | _]; [lia |].
        destruct (indexByte rest "R"%byte) as [e |]; cbn [fmap option_fmap option_map];
          [| exact IH].
        cbn zeta in *. cbn [take countByte].
        rewrite bool_decide_eq_true_2 by done.
        destruct IH as [IH0 IH1]. split; [lia |]. split.
        -- intros Hk. exists O. split; [done |]. split; [lia |].
           rewrite IH0 by lia. f_equal; lia.
        -- intros Hk. apply IH1. lia.
      * destruct (indexByte rest "R"%byte) as [e |]; cbn [fmap option_fmap option_map];
          [| by left].
        cbn zeta. cbn [take countByte].
        rewrite bool_decide_eq_true_2 by done. split; [lia | done].
    + apply bool_decide_eq_false in Hsemi.
      destruct (bool_decide (c = "R"%byte)) eqn:HR.
      * cbn zeta. cbn [take countByte]. rewrite Z.add_0_r.
        destruct (Z.eqb_spec sepIdx (-1)) as [-> | _].
        -- split; [done |]. split; [done | lia].
        -- split; [done | lia].
      * specialize (IH (i + 1) sepIdx ltac:(lia)).
        destruct (indexByte rest "R"%byte) as [e |]; cbn [fmap option_fmap option_map];
          [| exact IH].
        cbn zeta in *. cbn [take countByte].
        rewrite (bool_decide_eq_false_2 (c = ";"%byte)) by done.
        replace (i + Z.of_nat (S e)) with (i + 1 + Z.of_nat e) by lia.
        cbn [Nat.add].
        destruct (sepIdx =? -1).
        -- destruct IH as (IH0 & IH1 & IH2). split; [exact IH0 |]. split; [| exact IH2].
           intros Hk. destruct (IH1 Hk) as (p & Hp & Hlt & Hscan).
           exists (S p). rewrite Hp. split; [done |]. split; [lia |].
           rewrite Hscan. f_equal. lia.
        -- exact IH.
Qed.

Lemma indexByte_count s c p n :
  indexByte s c = Some p -> (p < n)%nat -> (1 <= countByte (take n s) c)%nat.
Proof.
  revert p n. induction s as [| b t IH]; intros p n; [done |].
  cbn [indexByte]. destruct n as [| n]; [lia |]. cbn [take countByte].
  case_bool_decide; [lia |].
  destruct (indexByte t c) as [p' |]; [| done].
  intros [= <-] Hlt. specialize (IH p' n eq_refl ltac:(lia)). lia.
Qed.

Lemma slice_in_range buf (lo hi : nat) :
  (lo <= hi <= length buf)%nat ->
  slice buf (Z.of_nat lo) (Z.of_nat hi) = Some (take (hi - lo) (drop lo buf)).
Proof.
  intros H. unfold slice.
  destruct (Z.leb_spec 0 (Z.of_nat lo)); [| lia].
  destruct (Z.leb_spec (Z.of_nat lo) (Z.of_nat hi)); [| lia].
  destruct (Z.leb_spec (Z.of_nat hi) (Z.of_nat (length buf))); [| lia].
  cbn [andb]. do 3 f_equal; lia.
Qed.

Lemma digitsValue_nonneg l a :
  forallb isDigit l = true -> 0 <= a ->
  0 <= fold_left (fun n b => n * 10 + (byteZ b - 48)) l a.
Proof.
  revert a. induction l as [| d l IH]; intros a Hl Ha; cbn; [lia |].
  cbn in Hl. apply andb_prop in Hl as [Hdig Hl]. apply IH; [exact Hl |].
  unfold isDigit in Hdig. split_between. lia.
Qed.

(** [Atoi] on a non-negative decimal integer, and the strings it accepts:
    digits with at most one sign before them. *)
Lemma Atoi_nonNegativeDecimal s :
  isNonNegativeDecimal s = true -> digitsValue s <= GoInt.maxInt ->
  Atoi s = (digitsValue s, None).
Proof.
  unfold isNonNegativeDecimal, Atoi. intros [Hne Hd]%andb_prop Hmax.
  destruct s as [| b t]; [done |].
  assert (Hb : isDigit b = true) by (cbn in Hd; by apply andb_prop in Hd as [? _]).
  assert (Hsign : ~ (b = "-"%byte \/ b = "+"%byte))
    by (intros [-> | ->]; discriminate Hb).
  rewrite (bool_decide_eq_false_2 (b = "-"%byte)) by tauto.
  rewrite (bool_decide_eq_false_2 _ Hsign), Hd.
  pose proof (digitsValue_nonneg (b :: t) 0 Hd ltac:(lia)) as Hpos.
  fold (digitsValue (b :: t)) in Hpos.
  destruct (Z.gtb_spec (digitsValue (b :: t)) GoInt.maxInt); [lia |].
  destruct (Z.ltb_spec (digitsValue (b :: t)) GoInt.minInt); [| done].
  unfold GoInt.minInt in *. lia.
Qed.

Lemma Atoi_accepts s v :
  Atoi s = (v, None) ->
  exists ds, isNonNegativeDecimal ds = true
    /\ (s = ds \/ s = "+"%byte :: ds \/ s = "-"%byte :: ds).
Proof.
  unfold Atoi.
  set (ds := match s with
             | b :: t => if bool_decide (b = "-"%byte \/ b = "+"%byte) then t else s
             | [] => s
             end).
  intros H. exists ds.
  assert (Hds : isNonNegativeDecimal ds = true).
  { unfold isNonNegativeDecimal. destruct ds as [| d ds']; [done |].
    destruct (forallb isDigit (d :: ds')); [done | discriminate H]. }
  split; [exact Hds |]. subst ds.
  destruct s as [| b t]; [discriminate Hds |].
  case_bool_decide as Hsign; [| by left].
  destruct Hsign as [-> | ->]; auto.
Qed.

(** C3, amended. For every buffer with no semicolon in its first two
    bytes: the call returns; [consumed] is -1 when there is no 'R', when
    the bytes before the first 'R' do not hold exactly one semicolon, or when
    [strconv.Atoi] rejects the bytes between offset 2 and the semicolon or
    those between the semicolon and the 'R'; otherwise the message holds the
    two numbers as [Atoi] reads them, [Y] first, and [consumed] is the
    offset of the 'R' plus one. *)
Theorem C3_parseCursorPositionEvent_reply (buf : gostring) :
  Z.of_nat (length buf) <= GoInt.maxInt ->
  countByte (take 2 buf) ";"%byte = 0%nat ->
  exists ev n,
    parseCursorPositionEvent buf = Returned ev n
    /\ match replyFields buf with
       | None => n = -1
       | Some (p, e) =>
         match Atoi (take (p - 2) (drop 2 buf)),
               Atoi (take (e - (p + 1)) (drop (p + 1) buf)) with
         | (yv, None), (xv, None) =>
           ev = {| X := xv; Y := yv |} /\ n = Z.of_nat e + 1
         | _, _ => n = -1
         end
       end.
Proof.
  intros Hlen Hprefix.
  pose proof (scanLoop_spec buf 0 (-1) ltac:(lia)) as Hscan.
  unfold parseCursorPositionEvent, replyFields.
  destruct (indexByte buf "R"%byte) as [e |] eqn:HR.
  - cbn zeta in Hscan. change (-1 =? -1) with true in Hscan. cbv iota in Hscan.
    destruct Hscan as (H0 & H1 & H2).
    pose proof (indexByte_lt _ _ _ HR) as He.
    destruct (countByte (take e buf) ";"%byte) as [| [| k]] eqn:Hk.
    + rewrite H0 by done. rewrite orb_true_r. by eexists _, _.
    + destruct (H1 eq_refl) as (p & Hp & Hpe & ->).
      rewrite Hp. rewrite !Z.add_0_l.
      destruct (Z.eqb_spec (Z.of_nat e) 0) as [? | _]; [lia |].
      destruct (Z.eqb_spec (Z.of_nat p) (-1)) as [? | _]; [lia |].
      unfold SplitN2. rewrite Hp. cbn [orb negb length Nat.eqb].
      assert (2 <= p)%nat.
      { destruct (le_lt_dec 2 p) as [? | Hlt]; [done |].
        pose proof (indexByte_count _ _ _ 2%nat Hp Hlt). lia. }
      change 2 with (Z.of_nat 2) at 1.
      rewrite slice_in_range by lia.
      destruct (Atoi (take (p - 2) (drop 2 buf))) as [yv [yerr |]];
        [by eexists _, _ |].
      rewrite GoIntFacts.add_exact
        by (unfold GoInt.inRange, GoInt.minInt, GoInt.maxInt in *; lia).
      replace (Z.of_nat p + 1) with (Z.of_nat (p + 1)) by lia.
      rewrite slice_in_range by lia.
      destruct (Atoi (take (e - (p + 1)) (drop (p + 1) buf))) as [xv [xerr |]];
        [by eexists _, _ |].
      rewrite GoIntFacts.add_exact
        by (unfold GoInt.inRange, GoInt.minInt, GoInt.maxInt in *; lia).
      by eexists _, _.
    + rewrite H2 by lia. by eexists _, _.
  - destruct Hscan as [-> | [s ->]]; by eexists _, _.
Qed.

(** C3 as stated fails where a number has a sign: "-5" is not a
    non-negative decimal integer, and the reply is accepted with [Y = -5]. *)
Lemma C3_counterexample_signed_row :
  isNonNegativeDecimal (bytes "-5") = false
  /\ parseCursorPositionEvent (csi "-5;3R") = Returned {| X := 3; Y := -5 |} 7.
Proof. split; vm_compute; reflexivity. Qed.

Lemma C3_witness :
  exists ev n,
    parseCursorPositionEvent (csi "12;34R") = Returned ev n
    /\ match replyFields (csi "12;34R") with
       | None => n = -1
       | Some (p, e) =>
         match Atoi (take (p - 2) (drop 2 (csi "12;34R"))),
               Atoi (take (e - (p + 1)) (drop (p + 1) (csi "12;34R"))) with
         | (yv, None), (xv, None) =>
           ev = {| X := xv; Y := yv |} /\ n = Z.of_nat e + 1
         | _, _ => n = -1
         end
       end.
Proof.
  apply (C3_parseCursorPositionEvent_reply (csi "12;34R")).
  - vm_compute. discriminate.
  - reflexivity.
Defined.

(** The scenarios behind the claim. *)
Example parse_reply :
  parseCursorPositionEvent (csi "12;34R") = Returned {| X := 34; Y := 12 |} 8.
Proof. vm_compute. reflexivity. Qed.

Example parse_rejects :
  Forall (fun buf => consumedOf (parseCursorPositionEvent buf) = Some (-1))
    [csi "12;34"; csi "12R"; csi "1;2;3R"; csi "1;R"; csi ";2R"; csi "1;a2R";
     csi "99999999999999999999;2R"; bytes "R"].
Proof. repeat constructor. Qed.

(** A semicolon within the first two bytes makes [buf[2:sepIdx]] panic. *)
Example parse_semicolon_in_prefix :
  parseCursorPositionEvent (bytes ";1R") = Panicked.
Proof. vm_compute. reflexivity. Qed.

(** *** Panics, trailing input and the round trip *)

Lemma indexByte_elem s c : c ∈ s -> exists k, indexByte s c = Some k.
Proof.
  induction s as [| b t IH]; [by intros ?%elem_of_nil |].
  intros Hin. cbn. case_bool_decide as Hb; [by eexists |].
  apply elem_of_cons in Hin as [-> | Hin]; [done |].
  destruct (IH Hin) as [k ->]. by eexists.
Qed.

Lemma indexByte_app s t c k :
  indexByte s c = Some k -> indexByte (s ++ t) c = Some k.
Proof.
  revert k. induction s as [| b s IH]; intros k; [done |].
  cbn. case_bool_decide; [done |].
  destruct (indexByte s c) as [k' |]; [| done].
  intros [= <-]. by rewrite (IH k').
Qed.

(** The loop stops at the first 'R': what follows it is not read. *)
Lemma scanLoop_app buf rest i sepIdx :
  "R"%byte ∈ buf -> scanLoop (buf ++ rest) i sepIdx = scanLoop buf i sepIdx.
Proof.
  revert i sepIdx. induction buf as [| c buf IH]; intros i sepIdx;
    [by intros ?%elem_of_nil |].
  intros Hin. cbn [app scanLoop].
  case_bool_decide as Hsemi.
  - destruct (negb (sepIdx =? -1)); [done |]. apply IH.
    apply elem_of_cons in Hin as [Heq | Hin]; [congruence | exact Hin].
  - case_bool_decide as HR; [done |]. apply IH.
    apply elem_of_cons in Hin as [Heq | Hin]; [congruence | exact Hin].
Qed.

Lemma slice_app buf rest lo hi :
  hi <= Z.of_nat (length buf) -> slice (buf ++ rest) lo hi = slice buf lo hi.
Proof.
  intros Hhi. unfold slice. rewrite length_app.
  destruct (Z.leb_spec 0 lo); [| done].
  destruct (Z.leb_spec lo hi); [| done].
  destruct (Z.leb_spec hi (Z.of_nat (length buf))); [| lia].
  destruct (Z.leb_spec hi (Z.of_nat (length buf + length rest))); [| lia].
  cbn [andb]. f_equal.
  rewrite drop_app_le by lia. apply take_app_le. rewrite length_drop. lia.
Qed.

(** X10. Once the terminating 'R' is in the buffer, the bytes after it do not
    change the result. *)
Theorem parse_ignores_rest (buf rest : gostring) :
  "R"%byte ∈ buf ->
  parseCursorPositionEvent (buf ++ rest) = parseCursorPositionEvent buf.
Proof.
  intros HR. destruct (indexByte_elem _ _ HR) as [e He].
  unfold parseCursorPositionEvent. rewrite scanLoop_app by exact HR.
  pose proof (scanLoop_spec buf 0 (-1) ltac:(done)) as Hscan.
  rewrite He in Hscan. cbn zeta in Hscan.
  change (-1 =? -1) with true in Hscan. cbn iota in Hscan.
  destruct Hscan as (H0 & H1 & H2).
  destruct (countByte (take e buf) ";"%byte) as [| [| k]].
  - rewrite H0 by done. by rewrite orb_true_r.
  - destruct (H1 eq_refl) as (p & Hp & Hlt & ->).
    pose proof (indexByte_lt _ _ _ He) as Hlen.
    unfold SplitN2. rewrite Hp, (indexByte_app _ rest _ _ Hp). cbn [length].
    rewrite !Z.add_0_l.
    rewrite (slice_app buf rest 2) by lia.
    rewrite (slice_app buf rest (GoInt.add (Z.of_nat p) 1)) by lia.
    reflexivity.
  - by rewrite H2 by lia.
Qed.

(** X11. The call stops the program exactly on the buffers whose first 'R' has
    one semicolon before it, within the first two bytes. *)
Theorem parse_panics_iff (buf : gostring) :
  Z.of_nat (length buf) <= GoInt.maxInt ->
  parseCursorPositionEvent buf = Panicked
  <-> exists p e, replyFields buf = Some (p, e) /\ (p < 2)%nat.
Proof.
  intros Hlen. unfold parseCursorPositionEvent, replyFields.
  pose proof (scanLoop_spec buf 0 (-1) ltac:(done)) as Hscan.
  destruct (indexByte buf "R"%byte) as [e |] eqn:He.
  2: { split; [| by intros (? & ? & ? & _)].
       destruct Hscan as [-> | [s ->]]; done. }
  cbn zeta in Hscan. change (-1 =? -1) with true in Hscan. cbn iota in Hscan.
  destruct Hscan as (H0 & H1 & H2).
  pose proof (indexByte_lt _ _ _ He) as Hlt.
  destruct (countByte (take e buf) ";"%byte) as [| [| k]]; cbn [Nat.eqb].
  - rewrite H0 by done. rewrite orb_true_r.
    split; [done | by intros (? & ? & ? & _)].
  - destruct (H1 eq_refl) as (p & Hp & Hpe & ->). rewrite Hp, !Z.add_0_l.
    destruct (Z.eqb_spec (Z.of_nat e) 0) as [? | _]; [lia |].
    destruct (Z.eqb_spec (Z.of_nat p) (-1)) as [? | _]; [lia |]. cbn [orb].
    unfold SplitN2. rewrite Hp. cbn [length Nat.eqb negb].
    rewrite GoIntFacts.add_exact
      by (unfold GoInt.inRange, GoInt.minInt, GoInt.maxInt in *; lia).
    change (Z.of_nat p + 1) with (Z.of_nat p + Z.of_nat 1).
    rewrite <- Nat2Z.inj_add, (slice_in_range buf (p + 1) e) by lia.
    destruct (decide (p < 2)%nat) as [Hp2 | Hp2].
    + unfold slice. destruct (Z.leb_spec 2 (Z.of_nat p)); [lia |].
      split; [| done]. intros _. by exists p, e.
    + pose proof (slice_in_range buf 2 p ltac:(lia)) as Hs.
      change (Z.of_nat 2) with 2 in Hs. rewrite Hs.
      split; [| intros (? & ? & [= <- <-] & ?); lia].
      destruct (Atoi (take (p - 2) (drop 2 buf))) as [yv [err |]]; [done |].
      destruct (Atoi _) as [xv [err |]]; done.
  - rewrite H2 by lia. split; [done | by intros (? & ? & ? & _)].
Qed.

Lemma scanLoop_skip l t i sepIdx :
  Forall (fun b => b <> ";"%byte /\ b <> "R"%byte) l ->
  scanLoop (l ++ t) i sepIdx = scanLoop t (i + Z.of_nat (length l)) sepIdx.
Proof.
  intros Hl. revert i. induction Hl as [| b l [Hs HR] Hl IH]; intros i.
  - cbn. by rewrite Z.add_0_r.
  - cbn [app scanLoop length]. rewrite !bool_decide_eq_false_2 by done.
    rewrite IH. f_equal. lia.
Qed.

Lemma indexByte_skip l t c :
  Forall (fun b => b <> c) l ->
  indexByte (l ++ c :: t) c = Some (length l).
Proof.
  induction 1 as [| b l Hb Hl IH]; cbn.
  - by rewrite bool_decide_eq_true_2.
  - rewrite bool_decide_eq_false_2 by done. by rewrite IH.
Qed.

Lemma isDigit_plain b : isDigit b = true -> b <> ";"%byte /\ b <> "R"%byte.
Proof. intros Hb. split; intros ->; vm_compute in Hb; discriminate. Qed.

Lemma digits_plain ds :
  forallb isDigit ds = true -> Forall (fun b => b <> ";"%byte /\ b <> "R"%byte) ds.
Proof.
  intros H. apply Forall_forall. intros b Hb. apply isDigit_plain.
  rewrite forallb_forall in H. apply H. by apply list_elem_of_In.
Qed.

(** X12. A reply is read back to its numbers: two decimal numbers within [int],
    separated by a semicolon and followed by 'R', after any two bytes that
    are neither ';' nor 'R' (the prefix is not compared with ESC '['), and
    whatever comes after the 'R'. *)
Theorem parse_reply_roundtrip (prefix ys xs rest : gostring) :
  length prefix = 2%nat ->
  Forall (fun b => b <> ";"%byte /\ b <> "R"%byte) prefix ->
  isNonNegativeDecimal ys = true -> isNonNegativeDecimal xs = true ->
  digitsValue ys <= GoInt.maxInt -> digitsValue xs <= GoInt.maxInt ->
  Z.of_nat (length ys + length xs) + 4 <= GoInt.maxInt ->
  parseCursorPositionEvent (prefix ++ ys ++ ";"%byte :: xs ++ "R"%byte :: rest)
  = Returned {| X := digitsValue xs; Y := digitsValue ys |}
      (Z.of_nat (length ys + length xs) + 4).
Proof.
  intros Hpl Hprefix Hys Hxs Hyv Hxv Hlen.
  pose proof Hys as Hys'. pose proof Hxs as Hxs'.
  unfold isNonNegativeDecimal in Hys', Hxs'.
  apply andb_prop in Hys' as [_ Hyd], Hxs' as [_ Hxd].
  unfold parseCursorPositionEvent.
  rewrite scanLoop_skip by exact Hprefix.
  rewrite scanLoop_skip by (by apply digits_plain).
  cbn [scanLoop]. rewrite bool_decide_eq_true_2 by done.
  change (negb (-1 =? -1)) with false. cbn iota.
  rewrite scanLoop_skip by (by apply digits_plain).
  cbn [scanLoop]. rewrite bool_decide_eq_false_2 by done.
  rewrite bool_decide_eq_true_2 by done.
  rewrite Hpl.
  set (sepIdx := 0 + Z.of_nat 2 + Z.of_nat (length ys)).
  set (endIdx := sepIdx + 1 + Z.of_nat (length xs)).
  destruct (Z.eqb_spec endIdx 0) as [? | _]; [lia |].
  destruct (Z.eqb_spec sepIdx (-1)) as [? | _]; [lia |]. cbn [orb].
  unfold SplitN2.
  rewrite (app_assoc prefix ys), indexByte_skip.
  2: { apply Forall_app. split; eapply Forall_impl; try exact Hprefix;
         try (by apply digits_plain); by intros b [? _]. }
  cbn [length Nat.eqb negb].
  assert (Hslice1 :
    slice ((prefix ++ ys) ++ ";"%byte :: xs ++ "R"%byte :: rest) 2 sepIdx = Some ys).
  { replace sepIdx with (Z.of_nat (2 + length ys)) by lia.
    change 2 with (Z.of_nat 2) at 1. rewrite slice_in_range.
    - rewrite <- app_assoc, drop_app_length' by done.
      f_equal. replace (2 + length ys - 2)%nat with (length ys) by lia.
      by rewrite take_app_length.
    - rewrite !length_app. cbn. lia. }
  rewrite Hslice1, (Atoi_nonNegativeDecimal ys Hys Hyv).
  rewrite GoIntFacts.add_exact
    by (unfold GoInt.inRange, GoInt.minInt, GoInt.maxInt in *; lia).
  assert (Hslice2 :
    slice ((prefix ++ ys) ++ ";"%byte :: xs ++ "R"%byte :: rest) (sepIdx + 1) endIdx
    = Some xs).
  { replace (sepIdx + 1) with (Z.of_nat (length (prefix ++ ys) + 1))
      by (rewrite length_app; lia).
    replace endIdx with (Z.of_nat (length (prefix ++ ys) + 1 + length xs))
      by (rewrite length_app; lia).
    rewrite slice_in_range.
    - rewrite (cons_middle ";"%byte), app_assoc.
      rewrite drop_app_length' by (rewrite !length_app; cbn [length]; lia).
      f_equal.
      replace (length (prefix ++ ys) + 1 + length xs - (length (prefix ++ ys) + 1))%nat
        with (length xs) by lia.
      by rewrite take_app_length.
    - rewrite !length_app. cbn. rewrite !length_app. cbn. lia. }
  rewrite Hslice2, (Atoi_nonNegativeDecimal xs Hxs Hxv).
  rewrite GoIntFacts.add_exact
    by (unfold GoInt.inRange, GoInt.minInt, GoInt.maxInt in *; lia).
  f_equal. lia.
Qed.

Lemma parse_ignores_rest_witness :
  parseCursorPositionEvent (csi "12;34R" ++ csi "5;6R")
  = parseCursorPositionEvent (csi "12;34R").
Proof.
  apply (parse_ignores_rest (csi "12;34R") (csi "5;6R")).
  vm_compute. do 7 apply list_elem_of_further. apply list_elem_of_here.
Defined.

Lemma parse_panics_iff_witness :
  parseCursorPositionEvent (bytes "0;R") = Panicked
  /\ exists p e, replyFields (bytes "0;R") = Some (p, e) /\ (p < 2)%nat.
Proof.
  assert (H : exists p e, replyFields (bytes "0;R") = Some (p, e) /\ (p < 2)%nat).
  { exists 1%nat, 2%nat. split; [vm_compute; reflexivity | lia]. }
  split; [| exact H].
  apply (parse_panics_iff (bytes "0;R")); [vm_compute; discriminate | exact H].
Defined.

Lemma parse_reply_roundtrip_witness :
  parseCursorPositionEvent (bytes "??" ++ bytes "007" ++ ";"%byte :: bytes "42" ++ "R"%byte :: bytes "tail")
  = Returned {| X := 42; Y := 7 |} 9.
Proof.
  apply (parse_reply_roundtrip (bytes "??") (bytes "007") (bytes "42") (bytes "tail"));
    try (vm_compute; first [reflexivity | discriminate]).
  repeat constructor; discriminate.
Defined.

End CursorPositionFacts.

(** ** Properties of the standard renderer *)

Module RendererFacts.
Import Utf8 Renderer.

(** *** The tick period *)

(** C4 as stated fails above the range: 121 frames per second give the
    period of 120, not that of the default 60. *)
Lemma C4_counterexample_fps_above_max :
  framerate (newRenderer false 121) = Second ÷ 120
  /\ framerate (newRenderer false 121) <> Second ÷ 60.
Proof. split; [reflexivity | vm_compute; discriminate]. Qed.

(** C4, amended. The tick period is one second divided by [fps] for [fps]
    from 1 to 120, by 60 for [fps] below 1, and by 120 for [fps] above
    120. *)
Theorem C4_newRenderer_framerate (useANSICompressor : bool) (fps : Z) :
  (1 <= fps <= 120 ->
   framerate (newRenderer useANSICompressor fps) = Second ÷ fps)
  /\ (fps < 1 -> framerate (newRenderer useANSICompressor fps) = Second ÷ 60)
  /\ (120 < fps -> framerate (newRenderer useANSICompressor fps) = Second ÷ 120).
Proof.
  unfold newRenderer, defaultFPS, maxFPS. cbn [framerate].
  destruct (Z.ltb_spec fps 1), (Z.gtb_spec fps 120); split_and!; intros; (reflexivity || lia).
Qed.

Lemma C4_witness :
  framerate (newRenderer false 30) = Second ÷ 30
  /\ framerate (newRenderer false 0) = Second ÷ 60
  /\ framerate (newRenderer false 144) = Second ÷ 120.
Proof.
  split; [| split].
  - apply (proj1 (C4_newRenderer_framerate false 30)). lia.
  - apply (proj1 (proj2 (C4_newRenderer_framerate false 0))). lia.
  - apply (proj2 (proj2 (C4_newRenderer_framerate false 144))). lia.
Defined.

Section WithOutputFacts.
Context `{Output}.
Variable truncateString : gostring -> Z -> gostring.

(** *** Moving the rendering head *)

Lemma moved_refl r : moved r r.
Proof. exists (skipLines r), (renderingHead r). by destruct r. Qed.

Lemma moved_trans r1 r2 r3 : moved r1 r2 -> moved r2 r3 -> moved r1 r3.
Proof. intros (s & h & ->) (s' & h' & ->). by exists s', h'. Qed.

Lemma moveRenderingHead_moved r toLine : moved r (moveRenderingHead r toLine).1.
Proof.
  unfold moveRenderingHead.
  repeat match goal with
  | |- context [if ?c then _ else _] => destruct c
  end; cbn [fst]; first [apply moved_refl | exists (skipLines r), toLine; by destruct r].
Qed.

(** C9. Between rows, [moveRenderingHead] writes nothing when the target
    is the rendering head; one newline when it is the next row; for a
    target further down, [CursorDown] to the last rendered line and then
    newlines when the target is past [linesRendered], and [CursorDown] by
    the difference otherwise; [CursorUp] by the difference for a target
    further up; and the rendering head is the target afterwards. *)
Theorem C9_moveRenderingHead (r : standardRenderer) (toLine : Z) :
  row (renderingHead r) -> row (linesRendered r) -> row toLine ->
  let delta := toLine - renderingHead r in
  let out := (moveRenderingHead r toLine).2 in
  (delta = 0 -> out = [])
  /\ (delta = 1 -> out = newline)
  /\ (1 < delta -> linesRendered r < toLine ->
      out = CursorDown (linesRendered r - renderingHead r)
            ++ mjoin (replicate (Z.to_nat (toLine - linesRendered r)) newline))
  /\ (1 < delta -> toLine <= linesRendered r -> out = CursorDown delta)
  /\ (delta < 0 -> out = CursorUp (- delta))
  /\ renderingHead (moveRenderingHead r toLine).1 = toLine.
Proof.
  unfold row, GoInt.maxInt. intros Hh Hl Ht. cbv zeta.
  unfold moveRenderingHead.
  rewrite !GoIntFacts.sub_exact
    by (unfold GoInt.inRange, GoInt.minInt, GoInt.maxInt; lia).
  destruct (Z.eqb_spec (toLine - renderingHead r) 0) as [H0 | H0].
  { cbn [fst snd]. split_and!; intros; (reflexivity || lia). }
  destruct (Z.eqb_spec (toLine - renderingHead r) 1) as [H1 | H1].
  { cbn [fst snd]. split_and!; intros; (reflexivity || lia). }
  destruct (Z.gtb_spec (toLine - renderingHead r) 0) as [Hpos | Hneg].
  - destruct (Z.gtb_spec toLine (linesRendered r)) as [Hpast | Hin];
      cbn [fst snd]; split_and!; intros; try (reflexivity || lia).
    do 3 f_equal. lia.
  - rewrite GoIntFacts.neg_exact
      by (unfold GoInt.inRange, GoInt.minInt, GoInt.maxInt; lia).
    cbn [fst snd]. split_and!; intros; (reflexivity || lia).
Qed.

(** *** Flushing *)

Lemma setSkipLines_moved r skip : moved r (setSkipLines r skip).
Proof. exists skip, (renderingHead r). by destruct r. Qed.

Lemma paintLine_moved newLines r out i :
  moved r (paintLine truncateString newLines (r, out) i).1.
Proof.
  unfold paintLine. destruct (skipped r i); [apply moved_refl |].
  pose proof (moveRenderingHead_moved r i) as Hm.
  destruct (moveRenderingHead r i) as [r' move]. exact Hm.
Qed.

Lemma clearLine_moved r out i : moved r (clearLine (r, out) i).1.
Proof.
  unfold clearLine. destruct (skipped r i); [apply moved_refl |].
  pose proof (moveRenderingHead_moved r i) as Hm.
  destruct (moveRenderingHead r i) as [r' move]. exact Hm.
Qed.

Lemma fold_moved (f : standardRenderer * gostring -> Z -> standardRenderer * gostring)
  rows r out :
  (forall r out i, moved r (f (r, out) i).1) ->
  moved r (fold_left f rows (r, out)).1.
Proof.
  intros Hf. revert r out. induction rows as [| i rows IH]; intros r out.
  - apply moved_refl.
  - cbn [fold_left]. specialize (Hf r out i).
    destruct (f (r, out) i) as [r' out'].
    eapply moved_trans; [exact Hf | apply IH].
Qed.

Lemma diffFlush_moved r newLines r' out :
  diffFlush truncateString r newLines = Some (r', out) -> moved r r'.
Proof.
  unfold diffFlush, markIgnored, ensureSkiplinesSize, markUnchanged.
  case_bool_decide; [| discriminate]. cbn [mbind option_bind].
  match goal with
  | |- context [fold_left (paintLine truncateString newLines) ?rows (?r1, [])] =>
    pose proof (fold_moved (paintLine truncateString newLines) rows r1 []
                  (paintLine_moved newLines)) as Hpaint;
    destruct (fold_left (paintLine truncateString newLines) rows (r1, []))
      as [r2 out2]
  end.
  cbn [fst] in Hpaint.
  assert (Hr2 : moved r r2).
  { eapply moved_trans; [| exact Hpaint].
    eapply moved_trans; [| apply setSkipLines_moved].
    eapply moved_trans; apply setSkipLines_moved. }
  destruct (len newLines <? linesRendered r2); [| by intros [= <- <-]].
  match goal with
  | |- context [fold_left clearLine ?rows (r2, ?o)] =>
    pose proof (fold_moved clearLine rows r2 o clearLine_moved) as Hclear;
    destruct (fold_left clearLine rows (r2, o)) as [r3 out3]
  end.
  cbn [fst] in Hclear.
  pose proof (moveRenderingHead_moved r3 (len newLines - 1)) as Hlast.
  destruct (moveRenderingHead r3 (len newLines - 1)) as [r4 move].
  intros [= <- <-].
  eapply moved_trans; [exact Hr2 |]. eapply moved_trans; [exact Hclear | exact Hlast].
Qed.

Lemma diffFlush_returns r newLines :
  set_Forall (fun i => 0 <= i) (ignoreLines r) ->
  is_Some (diffFlush truncateString r newLines).
Proof.
  intros Hrows. unfold diffFlush, markIgnored, ensureSkiplinesSize.
  cbn [ignoreLines setSkipLines].
  rewrite bool_decide_eq_true_2 by exact Hrows. cbn [mbind option_bind].
  repeat match goal with
  | |- context [let '(_, _) := ?p in _] => destruct p
  | |- context [if ?c then _ else _] => destruct c
  end; done.
Qed.

Lemma fullFlush_renderer r newLines :
  (fullFlush truncateString r newLines).1
  = setRenderingHead (setQueuedMessageLines r []) (len newLines - 1).
Proof.
  unfold fullFlush.
  destruct (negb (renderingHead r =? 0)).
  - destruct (moveRenderingHead_moved r 0) as (skip & head & Hm).
    pose proof (moveRenderingHead_moved r 0) as Hr.
    assert (Hskip : skipLines (moveRenderingHead r 0).1 = skipLines r).
    { unfold moveRenderingHead.
      repeat match goal with
      | |- context [if ?c then _ else _] => destruct c
      end; done. }
    destruct (moveRenderingHead r 0) as [r1 move]. cbn [fst] in *. subst r1.
    cbn in Hskip. subst skip. by destruct r.
  - reflexivity.
Qed.

Lemma Split_nonempty s : Split s <> [].
Proof.
  destruct s as [| b t]; cbn; [done |].
  case_bool_decide; [done |]. by destruct (Split t).
Qed.

Lemma moved_fields r r' :
  moved r r' ->
  queuedMessageLines r' = queuedMessageLines r
  /\ altScreenActive r' = altScreenActive r
  /\ forceRepaint r' = forceRepaint r
  /\ width r' = width r.
Proof. by intros (skip & head & ->). Qed.

(** The renderer and the bytes written by a flush that has something to
    do and does not stop at a negative row of [ignoreLines]. *)
Lemma flush_paints r :
  nothingToDo r = false ->
  (forceFullFlush r = false -> set_Forall (fun i => 0 <= i) (ignoreLines r)) ->
  exists r1 out,
    (if forceFullFlush r
     then Some (fullFlush truncateString (setForceRepaint r false)
                  (clipLines r (Split (buf r))))
     else diffFlush truncateString (setForceRepaint r false)
            (clipLines r (Split (buf r))))
    = Some (r1, out)
    /\ forceRepaint r1 = false
    /\ flush truncateString r
       = Flushed
           (recordRender r1 (len (clipLines r (Split (buf r))))
              (clipLines r (Split (buf r))) (buf r))
           (Some
              (out
               ++ (if altScreenActive r1
                   then MoveCursor (GoInt.add (renderingHead r1) 1) 0
                   else CursorBack (width r1)))).
Proof.
  intros Hdo Hrows. unfold flush. rewrite Hdo.
  change (clipLines (setForceRepaint r false)) with (clipLines r).
  change (buf (setForceRepaint r false)) with (buf r).
  destruct (forceFullFlush r) eqn:Hforce.
  - destruct (fullFlush truncateString (setForceRepaint r false)
                (clipLines r (Split (buf r)))) as [r1 out] eqn:Hfull.
    exists r1, out. split; [done |]. split; [| done].
    pose proof (fullFlush_renderer (setForceRepaint r false)
                  (clipLines r (Split (buf r)))) as Hr.
    rewrite Hfull in Hr. cbn [fst] in Hr. by subst r1.
  - destruct (diffFlush_returns (setForceRepaint r false)
                (clipLines r (Split (buf r))) (Hrows eq_refl)) as [[r1 out] Hdiff].
    rewrite Hdiff. exists r1, out. split; [done |]. split; [| done].
    apply diffFlush_moved, moved_fields in Hdiff. by destruct Hdiff as (_ & _ & -> & _).
Qed.

(** C7. After a flush that completed, a second flush with nothing in
    between writes nothing, and leaves the renderer as it is. *)
Theorem C7_flush_twice_writes_nothing (r r1 : standardRenderer)
  (written : option gostring) :
  flush truncateString r = Flushed r1 written ->
  flush truncateString r1 = Flushed r1 None.
Proof.
  intros Hflush.
  assert (Hidle : nothingToDo r1 = true /\ forceRepaint r1 = false).
  { unfold flush in Hflush.
    destruct (nothingToDo r) eqn:Hdo.
    - injection Hflush as <- _. split; [| done].
      unfold nothingToDo, forceFullFlush in *. cbn.
      apply andb_prop in Hdo as [Hforce Hsame]. rewrite Hsame.
      apply negb_true_iff, orb_false_iff in Hforce as [-> _]. done.
    - unfold nothingToDo in Hdo.
      destruct (forceFullFlush r) eqn:Hforce.
      + pose proof (fullFlush_renderer (setForceRepaint r false)
                      (clipLines (setForceRepaint r false)
                         (Split (buf (setForceRepaint r false))))) as Hr.
        destruct (fullFlush truncateString _ _) as [r' out].
        cbn [fst] in Hr. subst r'. injection Hflush as <- _. done.
      + destruct (diffFlush truncateString _ _) as [[r' out] |] eqn:Hdiff;
          [| discriminate].
        apply diffFlush_moved, moved_fields in Hdiff.
        destruct Hdiff as (Hq & Ha & Hf & _).
        injection Hflush as <- _.
        unfold nothingToDo, forceFullFlush in *. cbn.
        rewrite Hq, Ha, Hf. cbn.
        apply orb_false_iff in Hforce as [-> _]. done. }
  destruct Hidle as [Hidle Hforce].
  unfold flush. rewrite Hidle. f_equal.
  destruct r1. cbn in Hforce. by subst.
Qed.

End WithOutputFacts.

Lemma C9_witness :
  let r := setRenderingHead (newRenderer false 60) 0 in
  (moveRenderingHead r 3).2
  = CursorDown (linesRendered r - renderingHead r)
    ++ mjoin (replicate (Z.to_nat (3 - linesRendered r)) newline).
Proof.
  intros r.
  apply (proj1 (proj2 (proj2 (C9_moveRenderingHead r 3
           ltac:(vm_compute; split; discriminate)
           ltac:(vm_compute; split; discriminate)
           ltac:(vm_compute; split; discriminate)))));
    vm_compute; reflexivity.
Defined.

Lemma C7_witness :
  let r := write (newRenderer false 60) (bytes "Thing to render") in
  exists r1 written,
    flush plainTruncate r = Flushed r1 written
    /\ flush plainTruncate r1 = Flushed r1 None.
Proof.
  intros r.
  assert (Hfirst : exists r1 written, flush plainTruncate r = Flushed r1 written)
    by (eexists _, _; vm_compute; reflexivity).
  destruct Hfirst as (r1 & written & Hfirst).
  exists r1, written. split; [exact Hfirst |].
  exact (C7_flush_twice_writes_nothing plainTruncate r r1 written Hfirst).
Defined.

(** The scenarios of the test suite. *)
Example flush_simple :
  flush plainTruncate
    (write (setForceRepaint (newRenderer false 60) false)
       (bytes "Thing to render" ++ newline ++ bytes "that is multiple"
        ++ newline ++ bytes "lines"))
  = Flushed
      (recordRender (setRenderingHead (setSkipLines (newRenderer false 60)
                                         [false; false; false]) 2)
         3 [bytes "Thing to render"; bytes "that is multiple"; bytes "lines"]
         (bytes "Thing to render" ++ newline ++ bytes "that is multiple"
          ++ newline ++ bytes "lines"))
      (Some
         (bytes "Thing to render" ++ carriageReturn ++ newline
          ++ bytes "that is multiple" ++ carriageReturn ++ newline
          ++ bytes "lines" ++ CursorBack 0)).
Proof. vm_compute. reflexivity. Qed.

(** *** Frames, rows and messages *)

Section WithScreenFacts.
Context `{Output} `{Screen}.
Variable truncateString : gostring -> Z -> gostring.

Lemma moveRenderingHead_bytes r r' toLine :
  renderingHead r = renderingHead r' -> linesRendered r = linesRendered r' ->
  (moveRenderingHead r toLine).2 = (moveRenderingHead r' toLine).2.
Proof.
  intros Hh Hl. unfold moveRenderingHead. rewrite Hh, Hl.
  repeat case_match; reflexivity.
Qed.

Lemma paintAll_width r r' newLines :
  width r = width r' ->
  paintAll truncateString r newLines = paintAll truncateString r' newLines.
Proof. intros Hw. unfold paintAll, truncated. by rewrite Hw. Qed.

Lemma clipLines_height r r' newLines :
  height r = height r' -> clipLines r newLines = clipLines r' newLines.
Proof. intros Hh. unfold clipLines. by rewrite Hh. Qed.

(** The bytes of a flush that was forced. *)
Lemma flush_forced r :
  forceFullFlush r = true ->
  flush truncateString r =
  Flushed
    (recordRender
       (setRenderingHead
          (setQueuedMessageLines (setForceRepaint r false) [])
          (len (clipLines r (Split (buf r))) - 1))
       (len (clipLines r (Split (buf r)))) (clipLines r (Split (buf r))) (buf r))
    (Some
       ((if renderingHead r =? 0 then [] else (moveRenderingHead r 0).2)
        ++ mjoin
             (map (fun line => ClearLine ++ line ++ carriageReturn ++ newline)
                (queuedMessageLines r))
        ++ paintAll truncateString r (clipLines r (Split (buf r)))
        ++ (if altScreenActive r
            then MoveCursor (GoInt.add (len (clipLines r (Split (buf r))) - 1) 1) 0
            else CursorBack (width r)))).
Proof.
  intros Hforce. unfold flush, nothingToDo. rewrite Hforce. cbn [negb andb].
  change (buf (setForceRepaint r false)) with (buf r).
  rewrite (clipLines_height (setForceRepaint r false) r) by done.
  set (newLines := clipLines r (Split (buf r))).
  pose proof (fullFlush_renderer truncateString (setForceRepaint r false) newLines) as Hr.
  destruct (fullFlush truncateString (setForceRepaint r false) newLines)
    as [r1 out] eqn:Hfull.
  cbn [fst] in Hr. subst r1. cbn [altScreenActive setRenderingHead renderingHead
    setQueuedMessageLines setForceRepaint width].
  f_equal. f_equal. rewrite !app_assoc. f_equal.
  unfold fullFlush in Hfull.
  change (renderingHead (setForceRepaint r false)) with (renderingHead r) in Hfull.
  destruct (renderingHead r =? 0) eqn:Hhead; cbn [negb] in Hfull.
  - apply (f_equal snd) in Hfull. cbn [snd] in Hfull. by subst out.
  - destruct (moveRenderingHead (setForceRepaint r false) 0) as [r0 move] eqn:Hmove.
    pose proof (moveRenderingHead_moved (setForceRepaint r false) 0) as Hmoved.
    rewrite Hmove in Hmoved. cbn [fst] in Hmoved.
    destruct (moved_fields _ _ Hmoved) as (Hq & _ & _ & Hw).
    apply (f_equal snd) in Hfull. cbn [snd] in Hfull. subst out.
    rewrite (moveRenderingHead_bytes r (setForceRepaint r false)) by done.
    rewrite Hmove. cbn [snd]. rewrite Hq.
    f_equal. apply paintAll_width. cbn. exact Hw.
Qed.

(** X17. Lines printed above the program: outside of the alternate screen
    [handleMessages] queues the lines of the message and writes nothing, and
    the next flush writes the queued lines in the order they came in, each
    on a cleared row of its own and not truncated, then the whole frame, and
    empties the queue; in the alternate screen the message is dropped. *)
Theorem println_printed_above r body :
  altScreenActive r = false ->
  let handled := handleMessages r (printLineMessage body) in
  let frame := clipLines r (Split (buf r)) in
  handled.2 = []
  /\ handleMessages (setAltScreenActive r true) (printLineMessage body)
     = (setAltScreenActive r true, [])
  /\ exists r',
       flush truncateString handled.1
       = Flushed r'
           (Some
              ((if renderingHead r =? 0 then [] else (moveRenderingHead r 0).2)
               ++ mjoin
                    (map (fun line => ClearLine ++ line ++ carriageReturn ++ newline)
                       (queuedMessageLines r ++ Split body))
               ++ paintAll truncateString r frame
               ++ CursorBack (width r)))
       /\ queuedMessageLines r' = [] /\ lastRenderLines r' = frame.
Proof.
  intros Halt. cbn zeta. unfold handleMessages. rewrite Halt. cbn [negb fst snd].
  split_and!; [done | done |].
  set (r1 := repaint _).
  assert (Hforce : forceFullFlush r1 = true).
  { unfold forceFullFlush. cbn. apply orb_true_r. }
  rewrite (flush_forced r1 Hforce). eexists. split; [f_equal | done].
  f_equal. subst r1. cbn [altScreenActive repaint setForceRepaint
    setQueuedMessageLines]. rewrite Halt.
  rewrite (moveRenderingHead_bytes (repaint _) r) by done.
  rewrite (paintAll_width (repaint _) r) by done.
  reflexivity.
Qed.

(** X18. A resize: the next flush paints every line of the pending frame, also
    when the frame has not changed, keeping the last [Height] lines when the
    frame has more, and truncating each line to [Width]. *)
Theorem resize_repaints r Width Height :
  let r1 := (handleMessages r (WindowSizeMsg Width Height)).1 in
  let all := Split (buf r) in
  let frame :=
    if (Height >? 0) && (len all >? Height)
    then drop (Z.to_nat (len all - Height)) all else all in
  exists r2 before,
    flush truncateString r1
    = Flushed r2
        (Some
           (before
            ++ mjoin
                 (imap
                    (fun i line =>
                       ClearLine
                       ++ (if Width >? 0 then truncateString line Width else line)
                       ++ (if Z.of_nat i <? len frame - 1
                           then carriageReturn ++ newline else []))
                    frame)
            ++ (if altScreenActive r
                then MoveCursor (GoInt.add (len frame - 1) 1) 0
                else CursorBack Width)))
    /\ lastRenderLines r2 = frame /\ linesRendered r2 = len frame
    /\ width r2 = Width /\ height r2 = Height.
Proof.
  cbn zeta. cbn [handleMessages fst].
  set (r1 := repaint _).
  assert (Hforce : forceFullFlush r1 = true).
  { unfold forceFullFlush. cbn. apply orb_true_r. }
  rewrite (flush_forced r1 Hforce). do 2 eexists. split; [f_equal | done].
  f_equal. rewrite app_assoc. reflexivity.
Qed.

(** X19. A repaint with nothing written since the last painting flush: the
    pending frame is empty, so the forced flush paints one empty line in
    place of the frame and records the empty frame. *)
Theorem repaint_without_write_blanks r r1 out :
  flush truncateString r = Flushed r1 (Some out) ->
  exists r2,
    flush truncateString (repaint r1)
    = Flushed r2
        (Some
           ((if renderingHead r1 =? 0 then [] else (moveRenderingHead r1 0).2)
            ++ mjoin
                 (map (fun line => ClearLine ++ line ++ carriageReturn ++ newline)
                    (queuedMessageLines r1))
            ++ (ClearLine ++ truncated truncateString r1 [])
            ++ (if altScreenActive r1 then MoveCursor (GoInt.add 0 1) 0
                else CursorBack (width r1))))
    /\ lastRender r2 = [] /\ lastRenderLines r2 = [[]] /\ linesRendered r2 = 1.
Proof.
  intros Hflush.
  assert (Hbuf : buf r1 = []).
  { unfold flush in Hflush. destruct (nothingToDo r); [discriminate |].
    destruct (if forceFullFlush r then _ else _) as [[r0 out0] |];
      [| discriminate].
    by injection Hflush as <- _. }
  assert (Hforce : forceFullFlush (repaint r1) = true).
  { unfold forceFullFlush. cbn. apply orb_true_r. }
  rewrite (flush_forced _ Hforce).
  change (buf (repaint r1)) with (buf r1). rewrite Hbuf.
  assert (Hclip : clipLines (repaint r1) (Split []) = [[]]).
  { unfold clipLines. cbn [Split]. change (len [[]]) with 1.
    destruct (Z.gtb_spec (height (repaint r1)) 0),
             (Z.gtb_spec 1 (height (repaint r1))); try done. lia. }
  rewrite Hclip. eexists. split; [f_equal | done].
  f_equal.
  rewrite (moveRenderingHead_bytes (repaint r1) r1) by done.
  unfold paintAll. cbn. by rewrite !app_nil_r.
Qed.

(** X20. Entering the alternate screen: the screen is cleared and the cursor's
    visibility sent again; a second call does nothing; and the next flush
    paints the queued lines and the whole frame from the top row, without
    moving the rendering head first, and leaves the cursor at the row
    after the rendering head with [MoveCursor]. *)
Theorem enterAltScreen_repaints_from_top r :
  altScreenActive r = false ->
  let entered := enterAltScreen r in
  let frame := clipLines r (Split (buf r)) in
  entered.2
  = AltScreen ++ ClearScreen ++ MoveCursor 1 1
    ++ (if cursorHidden r then HideCursor else ShowCursor)
  /\ enterAltScreen entered.1 = (entered.1, [])
  /\ exists r',
       flush truncateString entered.1
       = Flushed r'
           (Some
              (mjoin
                 (map (fun line => ClearLine ++ line ++ carriageReturn ++ newline)
                    (queuedMessageLines r))
               ++ paintAll truncateString r frame
               ++ MoveCursor (GoInt.add (len frame - 1) 1) 0))
       /\ renderingHead r' = len frame - 1 /\ altScreenActive r' = true.
Proof.
  intros Halt. cbn zeta. unfold enterAltScreen at 1 3 4 5. rewrite Halt.
  cbn [fst snd]. split; [done |]. split; [done |].
  set (r1 := repaint _).
  assert (Hforce : forceFullFlush r1 = true).
  { unfold forceFullFlush. cbn. apply orb_true_r. }
  rewrite (flush_forced r1 Hforce). eexists. by split; [f_equal |].
Qed.

Lemma setIgnoredLines_renderer r from to :
  (setIgnoredLines r from to).1
  = setIgnoreLines r (ignoreLines r ∪ list_to_set (seqZ from (to - from))).
Proof. unfold setIgnoredLines. cbn zeta. by case_match. Qed.

(** X21. [flush] stops the program exactly when it has something to do, is not
    forced, and a negative row is among the ignored ones; [setIgnoredLines]
    from a negative row brings this about at the next frame. *)
Theorem flush_panics_iff r :
  (flush truncateString r = FlushPanicked
   <-> nothingToDo r = false /\ forceFullFlush r = false
       /\ exists i, i ∈ ignoreLines r /\ i < 0)
  /\ (forall from to s,
        from < 0 -> from < to ->
        forceFullFlush r = false -> buf (write r s) <> lastRender r ->
        flush truncateString (write (setIgnoredLines r from to).1 s)
        = FlushPanicked).
Proof.
  assert (Hiff : forall r,
    flush truncateString r = FlushPanicked
    <-> nothingToDo r = false /\ forceFullFlush r = false
        /\ exists i, i ∈ ignoreLines r /\ i < 0).
  { clear r. intros r. unfold flush.
    destruct (nothingToDo r); [split; [done | by intros [? _]] |].
    destruct (forceFullFlush r) eqn:Hforce.
    { destruct (fullFlush _ _ _). split; [done | by intros (_ & ? & _)]. }
    unfold diffFlush, markIgnored.
    change (ignoreLines (ensureSkiplinesSize ?a ?b)) with (ignoreLines a).
    change (ignoreLines (setForceRepaint r false)) with (ignoreLines r).
    case_bool_decide as Hall; cbn [mbind option_bind].
    - split.
      + repeat (match goal with
                | |- context [let '(_, _) := ?p in _] => destruct p
                | |- context [if ?c then _ else _] => destruct c
                end; cbn); discriminate.
      + intros (_ & _ & i & Hi & Hneg). apply Hall in Hi. lia.
    - split; [intros _ | done]. split; [done |]. split; [done |].
      apply (not_set_Forall_Exists _) in Hall as (i & Hi & Hneg).
      exists i. split; [exact Hi |]. cbn in Hneg. lia. }
  split; [apply Hiff |].
  intros from to s Hfrom Hto Hforce Hbuf. apply Hiff.
  rewrite setIgnoredLines_renderer.
  set (r1 := setIgnoreLines r _). split_and!.
  - unfold nothingToDo.
    change (forceFullFlush (write r1 s)) with (forceFullFlush r). rewrite Hforce.
    cbn [negb andb]. apply orb_false_iff. split.
    + unfold write. cbn [buf setBuf]. unfold len.
      case_bool_decide; [done |]. destruct s; [done | done].
    + apply bool_decide_eq_false_2. exact Hbuf.
  - exact Hforce.
  - exists from. split; [| exact Hfrom].
    cbn. apply elem_of_union_r, elem_of_list_to_set, elem_of_seqZ. lia.
Qed.

(** X22. Which rows are ignored: [setIgnoredLines] adds the rows from [from] up
    to [to - 1] to those already ignored, and a [syncScrollAreaMsg] replaces
    them by the rows of the region and forces a repaint. *)
Theorem ignored_rows r :
  (forall from to i,
     i ∈ ignoreLines (setIgnoredLines r from to).1
     <-> i ∈ ignoreLines r \/ from <= i < to)
  /\ (forall lines top bottom i,
        let r' := (handleMessages r (syncScrollAreaMsg lines top bottom)).1 in
        (i ∈ ignoreLines r' <-> top <= i < bottom) /\ forceRepaint r' = true).
Proof.
  assert (Hset : forall r from to i,
    i ∈ ignoreLines (setIgnoredLines r from to).1
    <-> i ∈ ignoreLines r \/ from <= i < to).
  { clear r. intros r from to i. rewrite setIgnoredLines_renderer.
    cbn [ignoreLines setIgnoreLines].
    rewrite elem_of_union, elem_of_list_to_set, elem_of_seqZ. intuition lia. }
  split; [apply Hset |].
  intros lines top bottom i. cbn zeta. cbn [handleMessages].
  pose proof (Hset (clearIgnoredLines r) top bottom i) as Hi.
  destruct (setIgnoredLines (clearIgnoredLines r) top bottom) as [r1 erased].
  cbn [fst] in *. split; [| done].
  change (ignoreLines (repaint r1)) with (ignoreLines r1).
  rewrite Hi. cbn. rewrite elem_of_empty. tauto.
Qed.

(** *** Where the rendering head is *)

Lemma inRange_row z : 0 <= z <= GoInt.maxInt -> GoInt.inRange z.
Proof. unfold GoInt.inRange, GoInt.minInt, GoInt.maxInt. lia. Qed.

Lemma moveRenderingHead_head r toLine :
  GoInt.inRange (renderingHead r) -> GoInt.inRange toLine ->
  (moveRenderingHead r toLine).1 = setRenderingHead r toLine.
Proof.
  intros Hh Ht. unfold moveRenderingHead.
  destruct (Z.eqb_spec (GoInt.sub toLine (renderingHead r)) 0) as [Hz | _].
  - apply (GoIntFacts.sub_zero_iff _ _ Ht Hh) in Hz. subst toLine.
    by destruct r.
  - repeat case_match; reflexivity.
Qed.

Lemma paintLine_head newLines r out i :
  GoInt.inRange (renderingHead r) -> GoInt.inRange i ->
  (paintLine truncateString newLines (r, out) i).1 = r
  \/ (paintLine truncateString newLines (r, out) i).1 = setRenderingHead r i.
Proof.
  intros Hh Hi. unfold paintLine. destruct (skipped r i); [by left | right].
  pose proof (moveRenderingHead_head r i Hh Hi) as Hm.
  by destruct (moveRenderingHead r i).
Qed.

Lemma clearLine_head r out i :
  GoInt.inRange (renderingHead r) -> GoInt.inRange i ->
  (clearLine (r, out) i).1 = r \/ (clearLine (r, out) i).1 = setRenderingHead r i.
Proof.
  intros Hh Hi. unfold clearLine. destruct (skipped r i); [by left | right].
  pose proof (moveRenderingHead_head r i Hh Hi) as Hm.
  by destruct (moveRenderingHead r i).
Qed.

(** A loop over rows that moves the rendering head to some of them. *)
Lemma fold_head (f : standardRenderer * gostring -> Z -> standardRenderer * gostring)
  rows r out :
  (forall r out i,
     GoInt.inRange (renderingHead r) -> GoInt.inRange i ->
     (f (r, out) i).1 = r \/ (f (r, out) i).1 = setRenderingHead r i) ->
  Forall GoInt.inRange rows -> GoInt.inRange (renderingHead r) ->
  exists h,
    (fold_left f rows (r, out)).1 = setRenderingHead r h
    /\ (h = renderingHead r \/ h ∈ rows).
Proof.
  intros Hf Hrows. revert r out.
  induction Hrows as [| i rows Hi Hrows IH]; intros r out Hh.
  - exists (renderingHead r). split; [by destruct r | by left].
  - cbn [fold_left]. specialize (Hf r out i Hh Hi).
    destruct (f (r, out) i) as [r1 out1]. cbn [fst] in Hf.
    destruct Hf as [-> | ->].
    + destruct (IH r out1 Hh) as (h & Hfold & Hcase).
      exists h. split; [exact Hfold |].
      destruct Hcase as [? | ?]; [by left | right; by apply list_elem_of_further].
    + destruct (IH (setRenderingHead r i) out1 Hi) as (h & Hfold & Hcase).
      exists h. split; [by rewrite Hfold |]. right.
      destruct Hcase as [-> | ?];
        [apply list_elem_of_here | by apply list_elem_of_further].
Qed.

Lemma clipLines_nonempty r s : 1 <= len (clipLines r (Split s)).
Proof.
  pose proof (Split_nonempty s) as Hne. unfold clipLines, len.
  destruct (Split s) as [| l ls] eqn:E; [done |].
  destruct (Z.gtb_spec (height r) 0); cbn [andb]; [| cbn [length]; lia].
  destruct (Z.gtb_spec (Z.of_nat (length (l :: ls))) (height r));
    [| cbn [length]; lia].
  rewrite length_drop. lia.
Qed.

Lemma seqZ_inRange m n :
  0 <= m -> m + n <= GoInt.maxInt + 1 -> Forall GoInt.inRange (seqZ m n).
Proof.
  intros Hm Hn. apply Forall_forall. intros i Hi%elem_of_seqZ.
  apply inRange_row. lia.
Qed.

(** X16. The rendering head stays on a row of the last render: a flush that
    returns leaves it on a row of the frame it rendered. *)
Theorem flush_head_in_frame r r' written :
  headInFrame r -> linesRendered r <= GoInt.maxInt ->
  len (Split (buf r)) <= GoInt.maxInt ->
  flush truncateString r = Flushed r' written ->
  headInFrame r' /\ linesRendered r' <= GoInt.maxInt.
Proof.
  intros Hhead Hlr Hlen. unfold flush.
  destruct (nothingToDo r); [by intros [= <- _] |].
  pose proof (clipLines_nonempty (setForceRepaint r false) (buf r)) as Hne.
  change (buf (setForceRepaint r false)) with (buf r).
  assert (Hclip : len (clipLines (setForceRepaint r false) (Split (buf r)))
                  <= len (Split (buf r))).
  { unfold clipLines, len. case_match; [| lia]. rewrite length_drop. lia. }
  set (newLines := clipLines (setForceRepaint r false) (Split (buf r))) in *.
  destruct (forceFullFlush r).
  - pose proof (fullFlush_renderer truncateString (setForceRepaint r false) newLines)
      as Hr.
    destruct (fullFlush truncateString (setForceRepaint r false) newLines)
      as [r1 out]. cbn [fst] in Hr. subst r1.
    intros [= <- _]. unfold headInFrame. cbn. lia.
  - unfold diffFlush, markIgnored.
    case_bool_decide; [| discriminate]. cbn [mbind option_bind].
    set (r1 := markUnchanged _ newLines).
    assert (Hr1 : renderingHead r1 = renderingHead r
                  /\ linesRendered r1 = linesRendered r) by done.
    destruct Hr1 as [Hh1 Hl1]. unfold headInFrame in Hhead.
    destruct (fold_head (paintLine truncateString newLines)
                (seqZ 0 (len newLines)) r1 [])
      as (h & Hfold & Hh).
    { intros. by apply paintLine_head. }
    { apply seqZ_inRange; lia. }
    { rewrite Hh1. apply inRange_row. lia. }
    destruct (fold_left (paintLine truncateString newLines)
                (seqZ 0 (len newLines)) (r1, [])) as [r2 out2].
    cbn [fst] in Hfold. subst r2.
    change (linesRendered (setRenderingHead r1 h)) with (linesRendered r1).
    assert (Hhr : 0 <= h <= GoInt.maxInt
                  /\ (h < Z.max 1 (linesRendered r) \/ h < len newLines)).
    { destruct Hh as [-> | Hin%elem_of_seqZ]; lia. }
    rewrite Hl1.
    destruct (Z.ltb_spec (len newLines) (linesRendered r)) as [Hless | Hmore].
    + destruct (fold_head clearLine
                  (seqZ (len newLines) (linesRendered r - len newLines))
                  (setRenderingHead r1 h) (out2 ++ carriageReturn))
        as (h' & Hfold' & Hh').
      { intros. by apply clearLine_head. }
      { apply seqZ_inRange; lia. }
      { apply inRange_row. cbn. lia. }
      destruct (fold_left clearLine _ _) as [r3 out3].
      cbn [fst] in Hfold'. subst r3.
      assert (Hh'r : 0 <= h' <= GoInt.maxInt).
      { destruct Hh' as [-> | Hin%elem_of_seqZ]; cbn; lia. }
      pose proof (moveRenderingHead_head (setRenderingHead (setRenderingHead r1 h) h')
                    (len newLines - 1)) as Hm.
      destruct (moveRenderingHead _ (len newLines - 1)) as [r4 move].
      cbn [fst] in Hm. rewrite Hm by (apply inRange_row; cbn; lia).
      intros [= <- _]. unfold headInFrame. cbn. lia.
    + intros [= <- _]. unfold headInFrame. cbn. lia.
Qed.

(** *** The first frame *)

Ltac mjoin_cons :=
  match goal with
  | |- context [mjoin (?x :: ?l)] => change (mjoin (x :: l)) with (x ++ mjoin l)
  end.

Lemma rows_join_from (rest : list gostring) (k : Z) :
  1 <= k -> rest <> [] ->
  mjoin (imap (fun j line => rowBytes (k + len rest) (k + Z.of_nat j) line) rest)
  = newline ++ Join rest (carriageReturn ++ newline).
Proof.
  revert k. induction rest as [| l rest IH]; intros k Hk Hne; [done |].
  cbn [imap]. mjoin_cons. unfold rowBytes at 1.
  destruct (Z.eqb_spec (k + Z.of_nat 0) 0) as [? | _]; [lia |].
  destruct rest as [| l' rest].
  - destruct (Z.ltb_spec (k + Z.of_nat 0) (k + len [l] - 1)) as [Hlt | _];
      [unfold len in Hlt; cbn in Hlt; lia |].
    cbn. by rewrite !app_nil_r.
  - destruct (Z.ltb_spec (k + Z.of_nat 0) (k + len (l :: l' :: rest) - 1))
      as [_ | Hge]; [| unfold len in Hge; cbn [length] in Hge; lia].
    specialize (IH (k + 1) ltac:(lia) ltac:(done)).
    rewrite (imap_ext _
               (fun j line =>
                  rowBytes (k + 1 + len (l' :: rest)) (k + 1 + Z.of_nat j) line)).
    + rewrite IH. cbn [Join]. by rewrite <- !app_assoc.
    + intros j line _. cbn. unfold len. cbn [length]. f_equal; lia.
Qed.

Lemma rows_join (lines : list gostring) :
  mjoin (imap (fun j line => rowBytes (len lines) (Z.of_nat j) line) lines)
  = Join lines (carriageReturn ++ newline).
Proof.
  destruct lines as [| l [| l' rest]]; [done | |].
  - cbn. unfold rowBytes. change (Z.of_nat 0 =? 0) with true.
    change (Z.of_nat 0 <? len [l] - 1) with false. cbn iota.
    by rewrite !app_nil_r.
  - set (tail := l' :: rest). assert (Htail : tail <> []) by done.
    assert (Hlen : len (l :: tail) = 1 + len tail) by (unfold len; cbn [length]; lia).
    assert (Hpos : 1 <= len tail) by (subst tail; unfold len; cbn [length]; lia).
    clearbody tail. cbn [imap]. mjoin_cons. unfold rowBytes at 1.
    change (Z.of_nat 0 =? 0) with true. cbn iota.
    destruct (Z.ltb_spec (Z.of_nat 0) (len (l :: tail) - 1)) as [_ | Hge]; [| lia].
    pose proof (rows_join_from tail 1 ltac:(lia) Htail) as Hrest.
    rewrite (imap_ext _
               (fun j line => rowBytes (1 + len tail) (1 + Z.of_nat j) line)).
    + rewrite Hrest. destruct tail; [done |]. cbn [Join app].
      by rewrite <- !app_assoc.
    + intros j line _. cbn. rewrite Hlen. f_equal. lia.
Qed.

Lemma paint_fresh newLines :
  len newLines <= GoInt.maxInt ->
  forall rest pre r out,
    newLines = pre ++ rest ->
    (forall i, skipped r i = false) ->
    linesRendered r = 0 ->
    renderingHead r = Z.max 0 (len pre - 1) ->
    fold_left (paintLine truncateString newLines) (seqZ (len pre) (len rest)) (r, out)
    = (setRenderingHead r (Z.max 0 (len newLines - 1)),
       out
       ++ mjoin
            (imap
               (fun j line =>
                  rowBytes (len newLines) (len pre + Z.of_nat j)
                    (truncated truncateString r line))
               rest)).
Proof.
  intros Hlen. induction rest as [| l rest IH]; intros pre r out HL Hskip Hlr Hh.
  - cbn. rewrite app_nil_r in HL. subst pre. rewrite app_nil_r, <- Hh.
    by destruct r.
  - assert (Hk : 0 <= len pre /\ len pre < len newLines).
    { subst newLines. unfold len. rewrite length_app. cbn [length]. lia. }
    unfold len at 2. cbn [length]. rewrite seqZ_cons by lia. cbn [fold_left].
    unfold paintLine at 2. rewrite Hskip.
    assert (Hline : newLines !! Z.to_nat (len pre) = Some l).
    { subst newLines. unfold len. rewrite Nat2Z.id. apply list_lookup_middle. done. }
    rewrite Hline. cbn [default from_option].
    pose proof (moveRenderingHead_head r (len pre)) as Hmove.
    assert (Hbytes : (moveRenderingHead r (len pre)).2
                     = if len pre =? 0 then [] else newline).
    { unfold moveRenderingHead. rewrite Hh.
      rewrite GoIntFacts.sub_exact
        by (unfold GoInt.inRange, GoInt.minInt, GoInt.maxInt in *; lia).
      destruct (Z.eqb_spec (len pre) 0) as [-> | Hne]; [done |].
      destruct (Z.eqb_spec (len pre - Z.max 0 (len pre - 1)) 0) as [? | _]; [lia |].
      destruct (Z.eqb_spec (len pre - Z.max 0 (len pre - 1)) 1) as [_ | ?]; [done | lia]. }
    destruct (moveRenderingHead r (len pre)) as [r1 move]. cbn [fst snd] in *.
    rewrite Hmove by (apply inRange_row; unfold GoInt.maxInt in *; lia).
    subst move. change (linesRendered (setRenderingHead r (len pre))) with (linesRendered r).
    rewrite Hlr.
    destruct (Z.ltb_spec (len pre) 0) as [? | _]; [lia |].
    replace (Z.succ (len pre)) with (len (pre ++ [l]))
      by (unfold len; rewrite length_app; cbn [length]; lia).
    replace (Z.pred (Z.of_nat (S (length rest)))) with (len rest)
      by (unfold len; lia).
    rewrite (IH (pre ++ [l])).
    + f_equal. cbn [imap]. mjoin_cons. rewrite <- !app_assoc.
      f_equal. unfold rowBytes at 2. rewrite Z.add_0_r.
      change (id l) with l. cbn [app]. rewrite <- !app_assoc.
      do 3 f_equal. f_equal.
      apply imap_ext. intros j line _. cbn.
      unfold len. rewrite length_app. cbn [length]. f_equal. lia.
    + by rewrite <- app_assoc.
    + exact Hskip.
    + exact Hlr.
    + unfold len. rewrite length_app. cbn [length renderingHead setRenderingHead].
      unfold len in Hk. lia.
Qed.

Lemma skipped_replicate r n i : skipped (setSkipLines r (replicate n false)) i = false.
Proof.
  unfold skipped. cbn [skipLines setSkipLines].
  destruct (replicate n false !! Z.to_nat i) as [b |] eqn:E; [| done].
  by apply lookup_replicate in E as [-> _].
Qed.

(** X13. The first frame: with nothing rendered before and no row ignored, a
    flush that is not forced writes the lines of the frame, truncated to the
    width, with a carriage return and a newline between them, clearing no
    line and moving the cursor by the newlines alone. *)
Theorem first_flush r :
  linesRendered r = 0 -> renderingHead r = 0 -> ignoreLines r = ∅ ->
  forceFullFlush r = false -> nothingToDo r = false ->
  len (Split (buf r)) <= GoInt.maxInt ->
  let frame := clipLines r (Split (buf r)) in
  exists r',
    flush truncateString r
    = Flushed r'
        (Some
           (Join (map (truncated truncateString r) frame) (carriageReturn ++ newline)
            ++ (if altScreenActive r
                then MoveCursor (GoInt.add (len frame - 1) 1) 0
                else CursorBack (width r))))
    /\ renderingHead r' = len frame - 1 /\ linesRendered r' = len frame
    /\ lastRenderLines r' = frame.
Proof.
  intros Hlr Hh Hig Hforce Hnothing Hlen. cbn zeta.
  unfold flush. rewrite Hnothing, Hforce.
  change (buf (setForceRepaint r false)) with (buf r).
  rewrite (clipLines_height (setForceRepaint r false) r) by done.
  pose proof (clipLines_nonempty r (buf r)) as Hne.
  assert (Hclip : len (clipLines r (Split (buf r))) <= len (Split (buf r))).
  { unfold clipLines, len. case_match; [| lia]. rewrite length_drop. lia. }
  set (newLines := clipLines r (Split (buf r))) in *.
  unfold diffFlush, markIgnored.
  change (ignoreLines (ensureSkiplinesSize ?a ?b)) with (ignoreLines a).
  change (ignoreLines (setForceRepaint r false)) with (ignoreLines r).
  rewrite Hig, bool_decide_eq_true_2 by apply set_Forall_empty.
  cbn [mbind option_bind]. rewrite set_fold_empty.
  unfold markUnchanged.
  change (linesRendered (setSkipLines ?a ?b)) with (linesRendered a).
  change (linesRendered (ensureSkiplinesSize ?a ?b)) with (linesRendered a).
  change (linesRendered (setForceRepaint r false)) with (linesRendered r).
  rewrite Hlr. change (seqZ 0 0) with (@nil Z). cbn [fold_left].
  unfold ensureSkiplinesSize.
  set (r1 := setSkipLines (setSkipLines _ _) _).
  assert (Hr1 : r1 = setSkipLines (setForceRepaint r false)
                       (skipLines (setSkipLines (setForceRepaint r false)
                          (replicate
                             (Z.to_nat
                                (if len (skipLines (setForceRepaint r false))
                                    <? (if len newLines >? 0 then len newLines else 0)
                                 then (if len newLines >? 0 then len newLines else 0)
                                 else len (skipLines (setForceRepaint r false))))
                             false)))) by done.
  cbn [skipLines setSkipLines] in Hr1.
  pose proof (paint_fresh newLines ltac:(lia) newLines [] r1 [] eq_refl) as Hpaint.
  change (len []) with 0 in Hpaint. cbn [app] in Hpaint.
  rewrite Hpaint; [| intros i; rewrite Hr1; apply skipped_replicate | done
                   | by rewrite Hr1].
  change (linesRendered (setRenderingHead r1 ?h)) with (linesRendered r).
  rewrite Hlr. destruct (Z.ltb_spec (len newLines) 0) as [? | _]; [lia |].
  eexists. split; [f_equal | cbn; split_and!; try done; lia].
  f_equal. f_equal.
  - erewrite imap_ext; [| intros j line _; cbn beta; rewrite Z.add_0_l; reflexivity].
    rewrite <- (rows_join (map (truncated truncateString r) newLines)).
    unfold len. rewrite length_map, imap_fmap. reflexivity.
  - cbn. by rewrite Z.max_r by lia.
Qed.

(** *** Which rows an incremental flush skips *)

Lemma fold_left_ext_in {A B} (f g : A -> B -> A) (l : list B) (a : A) :
  (forall a x, x ∈ l -> f a x = g a x) -> fold_left f l a = fold_left g l a.
Proof.
  revert a. induction l as [| x l IH]; intros a Hfg; [done |].
  cbn [fold_left]. rewrite Hfg by apply list_elem_of_here.
  apply IH. intros a' y Hy. apply Hfg. by apply list_elem_of_further.
Qed.

(** The second marking loop sets the entry of a row below [linesRendered]
    that is unchanged or ignored. *)
Lemma markUnchanged_mark r newLines :
  markUnchanged r newLines
  = setSkipLines r
      (fold_left (mark (unchangedOrIgnored r newLines))
         (seqZ 0 (linesRendered r)) (skipLines r)).
Proof.
  unfold markUnchanged. f_equal. apply fold_left_ext_in. intros skip i _.
  unfold mark, unchangedOrIgnored.
  destruct (newLines !! Z.to_nat i), (lastRenderLines r !! Z.to_nat i);
    repeat case_bool_decide; done.
Qed.

Lemma mark_length c rows skip :
  length (fold_left (mark c) rows skip) = length skip.
Proof.
  revert skip. induction rows as [| i rows IH]; intros skip; [done |].
  cbn [fold_left]. rewrite IH. unfold mark.
  destruct (c i); [apply length_insert | done].
Qed.

Lemma mark_true c rows skip j :
  skip !! j = Some true -> fold_left (mark c) rows skip !! j = Some true.
Proof.
  revert skip. induction rows as [| i rows IH]; intros skip Hj; [done |].
  cbn [fold_left]. apply IH. unfold mark. destruct (c i); [| done].
  destruct (decide (Z.to_nat i = j)) as [<- | Hne].
  - apply list_lookup_insert_eq. by apply lookup_lt_Some in Hj.
  - by rewrite list_lookup_insert_ne.
Qed.

Lemma mark_seqZ c (n : nat) skip j b :
  skip !! j = Some b ->
  fold_left (mark c) (seqZ 0 (Z.of_nat n)) skip !! j
  = Some (b || (bool_decide (j < n)%nat && c (Z.of_nat j))).
Proof.
  intros Hj. induction n as [| n IH].
  - change (seqZ 0 (Z.of_nat 0)) with (@nil Z). cbn [fold_left].
    rewrite Hj, bool_decide_eq_false_2 by lia. by rewrite orb_false_r.
  - rewrite seqZ_S, fold_left_app. cbn [fold_left]. rewrite Z.add_0_l.
    unfold mark at 1. destruct (c (Z.of_nat n)) eqn:Hc.
    + rewrite Nat2Z.id. destruct (decide (n = j)) as [<- | Hne].
      * rewrite list_lookup_insert_eq
          by (rewrite mark_length; by apply lookup_lt_Some in Hj).
        rewrite Hc, bool_decide_eq_true_2 by lia. by rewrite orb_true_r.
      * rewrite list_lookup_insert_ne, IH by done.
        do 2 f_equal. do 2 case_bool_decide; try done; lia.
    + rewrite IH. do 2 f_equal.
      do 2 case_bool_decide; try done; try lia.
      assert (j = n) as -> by lia. by rewrite Hc.
Qed.

(** The first marking loop sets the entry of every ignored row below
    [skipCap]. *)
Lemma markIgnored_ignored r skipCap r' i :
  markIgnored r skipCap = Some r' ->
  skipCap <= len (skipLines r) ->
  i ∈ ignoreLines r -> i < skipCap ->
  skipLines r' !! Z.to_nat i = Some true
  /\ length (skipLines r') = length (skipLines r).
Proof.
  unfold markIgnored. case_bool_decide as Hall; [| discriminate].
  intros [= <-] Hcap Hi Hlt. cbn [skipLines setSkipLines].
  set (f := fun i skip => if i <? skipCap then <[Z.to_nat i := true]> skip else skip).
  assert (Hind :
    length (set_fold f (skipLines r) (ignoreLines r)) = length (skipLines r)
    /\ (set_Forall (fun i => 0 <= i) (ignoreLines r) ->
        forall i, i ∈ ignoreLines r -> i < skipCap ->
          set_fold f (skipLines r) (ignoreLines r) !! Z.to_nat i = Some true)).
  { apply (set_fold_ind_L
             (fun skip X =>
                length skip = length (skipLines r)
                /\ (set_Forall (fun i => 0 <= i) X ->
                    forall i, i ∈ X -> i < skipCap ->
                      skip !! Z.to_nat i = Some true))).
    - split; [done |]. intros _ j Hj. by apply elem_of_empty in Hj.
    - intros x X skip Hx [Hlen IH]. unfold f.
      split; [case_match; [by rewrite length_insert | done] |].
      intros HX j Hj Hjlt.
      assert (Hx0 : 0 <= x)
        by (apply HX, elem_of_union_l, elem_of_singleton; reflexivity).
      assert (Hj0 : 0 <= j) by (by apply HX).
      assert (HX' : set_Forall (fun i => 0 <= i) X)
        by (intros y Hy; by apply HX, elem_of_union_r).
      destruct (Z.ltb_spec x skipCap) as [Hxlt | Hxge].
      + destruct (decide (x = j)) as [-> | Hne].
        * apply list_lookup_insert_eq. unfold len in Hcap. lia.
        * rewrite list_lookup_insert_ne by lia.
          apply IH; [done | | done].
          apply elem_of_union in Hj as [Hj'%elem_of_singleton | Hj'];
            [congruence | done].
      + apply IH; [done | | done].
        apply elem_of_union in Hj as [Hj'%elem_of_singleton | Hj']; [lia | done]. }
  destruct Hind as [Hlen Hmark]. split; [| exact Hlen]. by apply Hmark.
Qed.

Lemma moveRenderingHead_skipLines r toLine :
  skipLines (moveRenderingHead r toLine).1 = skipLines r.
Proof. unfold moveRenderingHead. repeat case_match; reflexivity. Qed.

Lemma paintLine_skipLines newLines r out i :
  skipLines (paintLine truncateString newLines (r, out) i).1 = skipLines r.
Proof.
  unfold paintLine. destruct (skipped r i); [done |].
  pose proof (moveRenderingHead_skipLines r i) as Hs.
  by destruct (moveRenderingHead r i).
Qed.

(** Rows that are skipped are not painted, so what the frame holds on them
    does not matter. *)
Lemma fold_paint_ext l1 l2 rows r out :
  len l1 = len l2 ->
  (forall i, i ∈ rows ->
     skipped r i = true \/ l1 !! Z.to_nat i = l2 !! Z.to_nat i) ->
  fold_left (paintLine truncateString l1) rows (r, out)
  = fold_left (paintLine truncateString l2) rows (r, out).
Proof.
  intros Hlen. revert r out. induction rows as [| i rows IH]; intros r out Hrows;
    [done |].
  cbn [fold_left].
  assert (Hstep : paintLine truncateString l1 (r, out) i
                  = paintLine truncateString l2 (r, out) i).
  { unfold paintLine. destruct (skipped r i) eqn:Hs; [done |].
    destruct (Hrows i (list_elem_of_here _ _)) as [? | ->]; [congruence |].
    by rewrite Hlen. }
  rewrite <- Hstep.
  pose proof (paintLine_skipLines l1 r out i) as Hskip.
  destruct (paintLine truncateString l1 (r, out) i) as [r1 out1].
  cbn [fst] in Hskip. apply IH. intros j Hj.
  unfold skipped. rewrite Hskip. apply Hrows. by apply list_elem_of_further.
Qed.

Lemma fold_paint_skipped newLines rows r out :
  (forall i, i ∈ rows -> skipped r i = true) ->
  fold_left (paintLine truncateString newLines) rows (r, out) = (r, out).
Proof.
  induction rows as [| i rows IH]; intros Hrows; [done |].
  cbn [fold_left]. unfold paintLine at 2.
  rewrite (Hrows i) by apply list_elem_of_here.
  apply IH. intros j Hj. apply Hrows. by apply list_elem_of_further.
Qed.

Lemma unchangedOrIgnored_ignored r newLines i :
  i ∈ ignoreLines r -> unchangedOrIgnored r newLines i = true.
Proof.
  intros Hi. unfold unchangedOrIgnored.
  rewrite !(bool_decide_eq_true_2 (i ∈ ignoreLines r)) by done.
  repeat case_match; by rewrite ?orb_true_r.
Qed.

Lemma diffFlush_lines_ext r l1 l2 :
  len l1 = len l2 ->
  (forall j, Z.of_nat j ∉ ignoreLines r -> l1 !! j = l2 !! j) ->
  diffFlush truncateString r l1 = diffFlush truncateString r l2.
Proof.
  intros Hlen Hrows. unfold diffFlush. rewrite Hlen.
  set (skipCap := if len l2 >? linesRendered r then len l2 else linesRendered r).
  assert (Hcap : len l2 <= skipCap /\ 0 <= skipCap).
  { subst skipCap. unfold len. destruct (Z.gtb_spec (Z.of_nat (length l2)) (linesRendered r)); lia. }
  destruct (markIgnored (ensureSkiplinesSize r skipCap) skipCap) as [rB |] eqn:HB;
    [| done].
  cbn [mbind option_bind].
  assert (HrB : ignoreLines rB = ignoreLines r
                /\ lastRenderLines rB = lastRenderLines r).
  { unfold markIgnored in HB. case_bool_decide; [| discriminate].
    by injection HB as <-. }
  destruct HrB as [Hig Hlast].
  assert (Hmarked : markUnchanged rB l1 = markUnchanged rB l2).
  { rewrite !markUnchanged_mark. f_equal. apply fold_left_ext_in.
    intros skip i [Hi _]%elem_of_seqZ. unfold mark.
    destruct (decide (i ∈ ignoreLines rB)) as [Hin | Hout].
    - by rewrite !unchangedOrIgnored_ignored.
    - unfold unchangedOrIgnored. rewrite (Hrows (Z.to_nat i)); [done |].
      by rewrite Z2Nat.id, <- Hig. }
  rewrite Hmarked.
  rewrite (fold_paint_ext l1 l2); [done | exact Hlen |].
  intros i [Hi0 Hin]%elem_of_seqZ.
  destruct (decide (i ∈ ignoreLines r)) as [Hig' | Hout].
  - left. rewrite markUnchanged_mark. unfold skipped. cbn [skipLines setSkipLines].
    destruct (markIgnored_ignored _ _ _ i HB) as [Htrue _].
    + unfold ensureSkiplinesSize, len. cbn [skipLines setSkipLines].
      rewrite length_replicate. case_match; lia.
    + exact Hig'.
    + lia.
    + by rewrite (mark_true _ _ _ _ Htrue).
  - right. apply Hrows. by rewrite Z2Nat.id.
Qed.

(** The pending frame itself is not read below [flush]. *)
Lemma moveRenderingHead_setBuf r b toLine :
  moveRenderingHead (setBuf r b) toLine
  = (setBuf (moveRenderingHead r toLine).1 b, (moveRenderingHead r toLine).2).
Proof.
  unfold moveRenderingHead. cbn [renderingHead linesRendered setBuf].
  repeat case_match; reflexivity.
Qed.

Lemma paintLine_setBuf newLines r b out i :
  paintLine truncateString newLines (setBuf r b, out) i
  = (setBuf (paintLine truncateString newLines (r, out) i).1 b,
     (paintLine truncateString newLines (r, out) i).2).
Proof.
  unfold paintLine. change (skipped (setBuf r b) i) with (skipped r i).
  destruct (skipped r i); [done |].
  rewrite moveRenderingHead_setBuf.
  by destruct (moveRenderingHead r i).
Qed.

Lemma clearLine_setBuf r b out i :
  clearLine (setBuf r b, out) i
  = (setBuf (clearLine (r, out) i).1 b, (clearLine (r, out) i).2).
Proof.
  unfold clearLine. change (skipped (setBuf r b) i) with (skipped r i).
  destruct (skipped r i); [done |].
  rewrite moveRenderingHead_setBuf.
  by destruct (moveRenderingHead r i).
Qed.

Lemma fold_setBuf
  (f : standardRenderer * gostring -> Z -> standardRenderer * gostring) b rows r out :
  (forall r out i,
     f (setBuf r b, out) i = (setBuf (f (r, out) i).1 b, (f (r, out) i).2)) ->
  fold_left f rows (setBuf r b, out)
  = (setBuf (fold_left f rows (r, out)).1 b, (fold_left f rows (r, out)).2).
Proof.
  intros Hf. revert r out. induction rows as [| i rows IH]; intros r out; [done |].
  cbn [fold_left]. rewrite Hf.
  destruct (f (r, out) i) as [r1 out1]. apply IH.
Qed.

Lemma diffFlush_setBuf r b newLines :
  diffFlush truncateString (setBuf r b) newLines
  = (fun p => (setBuf p.1 b, p.2)) <$> diffFlush truncateString r newLines.
Proof.
  unfold diffFlush, markIgnored.
  change (ignoreLines (ensureSkiplinesSize ?a ?c)) with (ignoreLines a).
  change (ignoreLines (setBuf r b)) with (ignoreLines r).
  change (linesRendered (setBuf r b)) with (linesRendered r).
  case_bool_decide; [| done]. cbn [mbind option_bind].
  match goal with
  | |- context [fold_left (paintLine truncateString newLines) ?rows (?r1, [])] =>
    match r1 with
    | context [setBuf r b] => idtac
    end;
    match goal with
    | |- context [fold_left (paintLine truncateString newLines) rows (?r2, [])] =>
      lazymatch r2 with
      | context [setBuf r b] => fail
      | _ =>
        change r1 with (setBuf r2 b);
        rewrite (fold_setBuf (paintLine truncateString newLines) b rows r2 [])
          by (intros; apply paintLine_setBuf);
        destruct (fold_left (paintLine truncateString newLines) rows (r2, []))
          as [r3 out3]
      end
    end
  end.
  cbn [fst snd]. change (linesRendered (setBuf r3 b)) with (linesRendered r3).
  destruct (len newLines <? linesRendered r3); [| done].
  rewrite (fold_setBuf clearLine b) by (intros; apply clearLine_setBuf).
  destruct (fold_left clearLine _ (r3, _)) as [r4 out4]. cbn [fst snd].
  rewrite moveRenderingHead_setBuf.
  by destruct (moveRenderingHead r4 _).
Qed.

(** X15. Rows that are ignored are left to the caller: an incremental flush
    writes the same bytes whatever the pending frame holds on them. *)
Theorem ignored_rows_not_painted r b2 :
  forceFullFlush r = false ->
  nothingToDo r = false -> nothingToDo (setBuf r b2) = false ->
  let l1 := clipLines r (Split (buf r)) in
  let l2 := clipLines r (Split b2) in
  len l1 = len l2 ->
  (forall j, Z.of_nat j ∉ ignoreLines r -> l1 !! j = l2 !! j) ->
  writtenBy (flush truncateString r)
  = writtenBy (flush truncateString (setBuf r b2)).
Proof.
  intros Hforce Hn1 Hn2 l1 l2 Hlen Hrows. unfold flush.
  rewrite Hn1, Hn2.
  change (forceFullFlush (setBuf r b2)) with (forceFullFlush r). rewrite Hforce.
  change (setForceRepaint (setBuf r b2) false)
    with (setBuf (setForceRepaint r false) b2).
  change (buf (setBuf (setForceRepaint r false) b2)) with b2.
  change (buf (setForceRepaint r false)) with (buf r).
  change (clipLines (setBuf (setForceRepaint r false) b2) (Split b2)) with l2.
  change (clipLines (setForceRepaint r false) (Split (buf r))) with l1.
  rewrite diffFlush_setBuf.
  rewrite (diffFlush_lines_ext (setForceRepaint r false) l1 l2 Hlen Hrows).
  destruct (diffFlush truncateString (setForceRepaint r false) l2) as [[r1 out] |];
    [| done].
  reflexivity.
Qed.

(** X14. When one line of the frame differs from the last render, and the
    number of lines is the same, an incremental flush moves the rendering
    head to that row, clears it and writes the new line; no other row is
    touched. *)
Theorem flush_one_line_changed r (k : nat) line :
  forceFullFlush r = false -> nothingToDo r = false -> ignoreLines r = ∅ ->
  let frame := clipLines r (Split (buf r)) in
  linesRendered r = len frame -> len frame <= GoInt.maxInt ->
  0 <= renderingHead r <= GoInt.maxInt ->
  frame !! k = Some line -> lastRenderLines r !! k <> Some line ->
  (forall j, j <> k -> frame !! j = lastRenderLines r !! j) ->
  exists r',
    flush truncateString r
    = Flushed r'
        (Some
           ((moveRenderingHead r (Z.of_nat k)).2 ++ ClearLine
            ++ truncated truncateString r line
            ++ (if Z.of_nat k <? len frame - 1 then carriageReturn else [])
            ++ (if altScreenActive r
                then MoveCursor (GoInt.add (Z.of_nat k) 1) 0
                else CursorBack (width r))))
    /\ renderingHead r' = Z.of_nat k /\ lastRenderLines r' = frame.
Proof.
  intros Hforce Hnothing Hig frame Hlr Hlen Hhead Hk Hold Hsame.
  assert (Hkn : Z.of_nat k < len frame).
  { apply lookup_lt_Some in Hk. unfold len. lia. }
  unfold flush. rewrite Hnothing, Hforce.
  change (buf (setForceRepaint r false)) with (buf r).
  change (clipLines (setForceRepaint r false) (Split (buf r))) with frame.
  set (r0 := setForceRepaint r false).
  unfold diffFlush, markIgnored.
  change (ignoreLines (ensureSkiplinesSize ?a ?b)) with (ignoreLines a).
  change (ignoreLines r0) with (ignoreLines r).
  rewrite Hig, bool_decide_eq_true_2 by apply set_Forall_empty.
  cbn [mbind option_bind]. rewrite set_fold_empty.
  change (linesRendered r0) with (linesRendered r). rewrite Hlr.
  destruct (Z.gtb_spec (len frame) (len frame)) as [? | _]; [lia |].
  rewrite markUnchanged_mark.
  set (rB := setSkipLines (ensureSkiplinesSize r0 (len frame)) _).
  set (skip := fold_left (mark _) _ _).
  set (rC := setSkipLines rB skip).
  assert (Hskip : forall i, 0 <= i < len frame ->
            skipped rC i = negb (bool_decide (i = Z.of_nat k))).
  { intros i Hi. unfold skipped. subst rC. cbn [skipLines setSkipLines]. subst skip.
    change (linesRendered rB) with (linesRendered r). rewrite Hlr.
    unfold len at 1.
    rewrite (mark_seqZ _ _ _ (Z.to_nat i) false).
    2: { subst rB. unfold ensureSkiplinesSize. cbn [skipLines setSkipLines].
         apply lookup_replicate_2. unfold len in *. case_match; lia. }
    cbn [default from_option id orb].
    rewrite bool_decide_eq_true_2 by (unfold len in Hi; lia). cbn [andb].
    rewrite Z2Nat.id by lia. unfold unchangedOrIgnored.
    change (ignoreLines rB) with (ignoreLines r).
    change (lastRenderLines rB) with (lastRenderLines r).
    rewrite Hig. rewrite (bool_decide_eq_false_2 (i ∈ ∅)) by apply not_elem_of_empty.
    case_bool_decide as Hik.
    - subst i. rewrite Nat2Z.id, Hk.
      destruct (lastRenderLines r !! k) as [old |] eqn:Ho; [| done].
      rewrite bool_decide_eq_false_2; [done | congruence].
    - rewrite <- (Hsame (Z.to_nat i)) by lia.
      destruct (lookup_lt_is_Some_2 frame (Z.to_nat i)) as [l ->];
        [unfold len in Hi; lia |].
      by rewrite bool_decide_eq_true_2. }
  (* the rows before, the row itself, the rows after *)
  assert (Hrows : seqZ 0 (len frame)
                  = seqZ 0 (Z.of_nat k)
                    ++ Z.of_nat k
                       :: seqZ (Z.succ (Z.of_nat k)) (Z.pred (len frame - Z.of_nat k))).
  { replace (len frame) with (Z.of_nat k + (len frame - Z.of_nat k)) at 1 by lia.
    rewrite seqZ_app by lia. rewrite Z.add_0_l.
    by rewrite (seqZ_cons (Z.of_nat k)) by lia. }
  rewrite Hrows, fold_left_app. cbn [fold_left].
  rewrite fold_paint_skipped.
  2: { intros i Hi%elem_of_seqZ. rewrite Hskip by lia.
       rewrite bool_decide_eq_false_2; [done | lia]. }
  unfold paintLine at 2. rewrite Hskip by lia.
  rewrite bool_decide_eq_true_2 by done. cbn [negb].
  rewrite Nat2Z.id, Hk. cbn [default from_option id].
  pose proof (moveRenderingHead_head rC (Z.of_nat k)) as Hmove.
  pose proof (moveRenderingHead_bytes rC r (Z.of_nat k) eq_refl eq_refl) as Hbytes.
  destruct (moveRenderingHead rC (Z.of_nat k)) as [r1 move].
  cbn [fst snd] in Hmove, Hbytes. subst move.
  rewrite Hmove by (apply inRange_row; cbn; unfold GoInt.maxInt in *; lia).
  clear Hmove r1.
  change (linesRendered (setRenderingHead rC (Z.of_nat k))) with (linesRendered r).
  rewrite Hlr.
  destruct (Z.ltb_spec (Z.of_nat k) (len frame)) as [_ | ?]; [| lia].
  rewrite fold_paint_skipped.
  2: { intros i Hi%elem_of_seqZ.
       change (skipped (setRenderingHead rC (Z.of_nat k)) i) with (skipped rC i).
       rewrite Hskip by lia. rewrite bool_decide_eq_false_2; [done | lia]. }
  change (linesRendered (setRenderingHead rC (Z.of_nat k))) with (linesRendered r).
  rewrite Hlr. destruct (Z.ltb_spec (len frame) (len frame)) as [? | _]; [lia |].
  eexists. split; [f_equal | done].
  f_equal. cbn [app]. rewrite <- !app_assoc. reflexivity.
Qed.

End WithScreenFacts.

(** *** The incremental flush, row by row *)

Section RowsFacts.
Context `{Output}.
Variable truncateString : gostring -> Z -> gostring.

Lemma moved_skipRow r r' newLines i :
  moved r r' -> skipRow r' newLines i = skipRow r newLines i.
Proof. intros (skip & head & ->). reflexivity. Qed.

Lemma moveRenderingHead_setSkipLines r skip toLine :
  moveRenderingHead (setSkipLines r skip) toLine
  = (setSkipLines (moveRenderingHead r toLine).1 skip,
     (moveRenderingHead r toLine).2).
Proof.
  unfold moveRenderingHead. cbn [renderingHead linesRendered setSkipLines].
  repeat case_match; reflexivity.
Qed.

Lemma paintRow_moved newLines r out i :
  moved r (paintRow truncateString newLines (r, out) i).1.
Proof.
  unfold paintRow. destruct (skipRow r newLines i); [apply moved_refl |].
  pose proof (moveRenderingHead_moved r i) as Hm.
  by destruct (moveRenderingHead r i).
Qed.

Lemma clearRow_moved newLines r out i :
  moved r (clearRow newLines (r, out) i).1.
Proof.
  unfold clearRow. destruct (skipRow r newLines i); [apply moved_refl |].
  pose proof (moveRenderingHead_moved r i) as Hm.
  by destruct (moveRenderingHead r i).
Qed.

(** The marks in [skipLines] stand for [skipRow]: one iteration. *)
Lemma paintLine_paintRow newLines r skip out i :
  default false (skip !! Z.to_nat i) = skipRow r newLines i ->
  paintLine truncateString newLines (setSkipLines r skip, out) i
  = (setSkipLines (paintRow truncateString newLines (r, out) i).1 skip,
     (paintRow truncateString newLines (r, out) i).2).
Proof.
  intros Hskip. unfold paintLine, paintRow, skipped.
  cbn [skipLines setSkipLines]. rewrite Hskip.
  destruct (skipRow r newLines i); [done |].
  rewrite moveRenderingHead_setSkipLines.
  pose proof (moveRenderingHead_moved r i) as (skip' & head & Hm).
  destruct (moveRenderingHead r i) as [r1 move]. cbn [fst snd] in *. by subst r1.
Qed.

Lemma clearLine_clearRow newLines r skip out i :
  default false (skip !! Z.to_nat i) = skipRow r newLines i ->
  clearLine (setSkipLines r skip, out) i
  = (setSkipLines (clearRow newLines (r, out) i).1 skip,
     (clearRow newLines (r, out) i).2).
Proof.
  intros Hskip. unfold clearLine, clearRow, skipped.
  cbn [skipLines setSkipLines]. rewrite Hskip.
  destruct (skipRow r newLines i); [done |].
  rewrite moveRenderingHead_setSkipLines.
  by destruct (moveRenderingHead r i) as [r1 move].
Qed.

Lemma fold_rows
  (f g : standardRenderer * gostring -> Z -> standardRenderer * gostring)
  newLines skip rows r out :
  (forall r out i,
     default false (skip !! Z.to_nat i) = skipRow r newLines i ->
     f (setSkipLines r skip, out) i
     = (setSkipLines (g (r, out) i).1 skip, (g (r, out) i).2)) ->
  (forall r out i, moved r (g (r, out) i).1) ->
  (forall i, i ∈ rows -> default false (skip !! Z.to_nat i) = skipRow r newLines i) ->
  fold_left f rows (setSkipLines r skip, out)
  = (setSkipLines (fold_left g rows (r, out)).1 skip,
     (fold_left g rows (r, out)).2).
Proof.
  intros Hfg Hg. revert r out.
  induction rows as [| i rows IH]; intros r out Hrows; [done |].
  cbn [fold_left]. rewrite Hfg by apply Hrows, list_elem_of_here.
  pose proof (Hg r out i) as Hm.
  destruct (g (r, out) i) as [r1 out1]. cbn [fst snd] in *.
  apply IH. intros j Hj. rewrite (moved_skipRow r r1) by exact Hm.
  by apply Hrows, list_elem_of_further.
Qed.

Lemma fold_rows_moved
  (g : standardRenderer * gostring -> Z -> standardRenderer * gostring) rows r out :
  (forall r out i, moved r (g (r, out) i).1) ->
  moved r (fold_left g rows (r, out)).1.
Proof.
  intros Hg. revert r out.
  induction rows as [| i rows IH]; intros r out; [apply moved_refl |].
  cbn [fold_left]. pose proof (Hg r out i) as Hm.
  destruct (g (r, out) i) as [r1 out1]. cbn [fst] in Hm.
  eapply moved_trans; [exact Hm | apply IH].
Qed.

(** The first marking loop, entry by entry. *)
Lemma markIgnored_lookup r skipCap r' (m j : nat) :
  markIgnored r skipCap = Some r' ->
  skipLines r = replicate m false -> (j < m)%nat ->
  skipLines r' !! j
  = Some (bool_decide (Z.of_nat j ∈ ignoreLines r) && (Z.of_nat j <? skipCap)).
Proof.
  unfold markIgnored. case_bool_decide as Hall; [| discriminate].
  intros [= <-] Hskip Hj. cbn [skipLines setSkipLines].
  set (f := fun i skip => if i <? skipCap then <[Z.to_nat i := true]> skip else skip).
  assert (Hind :
    length (set_fold f (skipLines r) (ignoreLines r)) = m
    /\ (set_Forall (fun i => 0 <= i) (ignoreLines r) ->
        forall j, (j < m)%nat ->
          set_fold f (skipLines r) (ignoreLines r) !! j
          = Some (bool_decide (Z.of_nat j ∈ ignoreLines r) && (Z.of_nat j <? skipCap)))).
  { pose (P := fun (skip : list bool) (X : gset Z) =>
                length skip = m
                /\ (set_Forall (fun i => 0 <= i) X ->
                    forall j, (j < m)%nat ->
                      skip !! j
                      = Some (bool_decide (Z.of_nat j ∈ X) && (Z.of_nat j <? skipCap)))).
    apply (set_fold_ind_L P); subst P; cbn beta.
    - rewrite Hskip. split; [apply length_replicate |]. intros _ k Hk.
      rewrite lookup_replicate_2 by exact Hk.
      by rewrite bool_decide_eq_false_2 by apply not_elem_of_empty.
    - intros x X skip Hx [Hlen IH]. unfold f.
      split; [case_match; [by rewrite length_insert | done] |].
      intros HX k Hk.
      assert (Hx0 : 0 <= x)
        by (apply HX, elem_of_union_l, elem_of_singleton; reflexivity).
      assert (HX' : set_Forall (fun i => 0 <= i) X)
        by (intros y Hy; by apply HX, elem_of_union_r).
      specialize (IH HX' k Hk).
      destruct (decide (Z.of_nat k = x)) as [Hkx | Hne].
      + subst x. rewrite (bool_decide_eq_true_2 (Z.of_nat k ∈ {[Z.of_nat k]} ∪ X))
          by (apply elem_of_union_l, elem_of_singleton; reflexivity).
        rewrite (bool_decide_eq_false_2 _ Hx) in IH. cbn [andb] in *.
        destruct (Z.of_nat k <? skipCap); [| exact IH].
        rewrite Nat2Z.id. apply list_lookup_insert_eq. lia.
      + assert (Hsame : bool_decide (Z.of_nat k ∈ {[x]} ∪ X)
                        = bool_decide (Z.of_nat k ∈ X)).
        { apply bool_decide_ext. rewrite elem_of_union, elem_of_singleton.
          split; [intros [? | ?]; [done | done] | by right]. }
        rewrite Hsame. destruct (x <? skipCap); [| exact IH].
        rewrite list_lookup_insert_ne by lia. exact IH. }
  destruct Hind as [_ Hmark]. by apply Hmark.
Qed.

Lemma unchangedOrIgnored_unchanged r newLines i :
  unchangedOrIgnored r newLines i
  = unchanged r newLines i || bool_decide (i ∈ ignoreLines r).
Proof.
  unfold unchangedOrIgnored, unchanged.
  by destruct (newLines !! Z.to_nat i), (lastRenderLines r !! Z.to_nat i).
Qed.

(** After the two marking loops the entry of a row is set when [skipRow]
    holds of it, and only then. *)
Lemma marked_skipRow r newLines skipCap rB i :
  markIgnored (ensureSkiplinesSize r skipCap) skipCap = Some rB ->
  0 <= i < skipCap ->
  skipped (markUnchanged rB newLines) i = skipRow r newLines i.
Proof.
  intros HB Hi.
  assert (HrB : ignoreLines rB = ignoreLines r
                /\ lastRenderLines rB = lastRenderLines r
                /\ linesRendered rB = linesRendered r).
  { unfold markIgnored in HB. case_bool_decide; [| discriminate].
    by injection HB as <-. }
  destruct HrB as (Hig & Hlast & Hlr).
  set (m := Z.to_nat (if len (skipLines r) <? skipCap then skipCap
                      else len (skipLines r))).
  assert (Hm : (Z.to_nat i < m)%nat).
  { subst m. unfold len. destruct (Z.ltb_spec (Z.of_nat (length (skipLines r))) skipCap); lia. }
  pose proof (markIgnored_lookup _ skipCap rB m (Z.to_nat i) HB eq_refl Hm) as Hlook.
  rewrite Z2Nat.id in Hlook by lia.
  change (ignoreLines (ensureSkiplinesSize r skipCap)) with (ignoreLines r) in Hlook.
  rewrite markUnchanged_mark. unfold skipped. cbn [skipLines setSkipLines].
  assert (Hrows : seqZ 0 (linesRendered rB)
                  = seqZ 0 (Z.of_nat (Z.to_nat (linesRendered r)))).
  { rewrite Hlr. unfold seqZ. by rewrite Nat2Z.id. }
  rewrite Hrows, (mark_seqZ _ _ _ _ _ Hlook). cbn [default].
  rewrite Z2Nat.id by lia. rewrite unchangedOrIgnored_unchanged.
  unfold skipRow, unchanged. rewrite Hig, Hlast.
  destruct (Z.ltb_spec i skipCap) as [_ | ?]; [| lia]. rewrite andb_true_r.
  destruct (bool_decide (i ∈ ignoreLines r)); [done |]. cbn [orb].
  destruct (Z.ltb_spec i (linesRendered r)).
  - rewrite bool_decide_eq_true_2 by lia. by rewrite orb_false_r.
  - by rewrite bool_decide_eq_false_2 by lia.
Qed.

(** The incremental flush writes what [incremental] describes: the marks
    it leaves in [skipLines] apart, it is [incremental]. *)
Lemma diffFlush_rows r newLines :
  set_Forall (fun i => 0 <= i) (ignoreLines r) ->
  exists skip,
    diffFlush truncateString r newLines
    = Some (setSkipLines (incremental truncateString r newLines).1 skip,
            (incremental truncateString r newLines).2).
Proof.
  intros Hall. unfold diffFlush.
  set (skipCap := if len newLines >? linesRendered r then len newLines
                  else linesRendered r).
  assert (Hcap : len newLines <= skipCap /\ linesRendered r <= skipCap).
  { subst skipCap. destruct (Z.gtb_spec (len newLines) (linesRendered r)); lia. }
  destruct (markIgnored (ensureSkiplinesSize r skipCap) skipCap) as [rB |] eqn:HB.
  2: { unfold markIgnored in HB. by rewrite bool_decide_eq_true_2 in HB. }
  cbn [mbind option_bind].
  pose proof (fun i => marked_skipRow r newLines skipCap rB i HB) as Hmarks.
  assert (HrC : markUnchanged rB newLines
                = setSkipLines r (skipLines (markUnchanged rB newLines))).
  { unfold markIgnored in HB. case_bool_decide; [| discriminate].
    by injection HB as <-. }
  set (skip := skipLines (markUnchanged rB newLines)) in *.
  unfold skipped in Hmarks. fold skip in Hmarks.
  rewrite HrC. exists skip.
  unfold incremental, paintRows, clearRows.
  rewrite (fold_rows (paintLine truncateString newLines)
             (paintRow truncateString newLines) newLines).
  2: { intros. by apply paintLine_paintRow. }
  2: { intros. apply paintRow_moved. }
  2: { intros i [Hi0 Hin]%elem_of_seqZ. apply Hmarks. lia. }
  pose proof (fold_rows_moved (paintRow truncateString newLines)
                (seqZ 0 (len newLines)) r [] (paintRow_moved newLines)) as Hm1.
  destruct (fold_left (paintRow truncateString newLines) _ (r, [])) as [r1 out1].
  cbn [fst snd] in *.
  assert (Hlr : linesRendered r1 = linesRendered r)
    by (destruct Hm1 as (? & ? & ->); reflexivity).
  change (linesRendered (setSkipLines r1 skip)) with (linesRendered r1).
  destruct (len newLines <? linesRendered r1); [| done].
  rewrite (fold_rows clearLine (clearRow newLines) newLines).
  2: { intros. by apply clearLine_clearRow. }
  2: { intros. apply clearRow_moved. }
  2: { intros i [Hi0 Hin]%elem_of_seqZ. rewrite (moved_skipRow r r1) by exact Hm1.
       apply Hmarks. unfold len in *. lia. }
  destruct (fold_left (clearRow newLines) _ (r1, _)) as [r2 out2].
  cbn [fst snd]. rewrite moveRenderingHead_setSkipLines.
  by destruct (moveRenderingHead r2 _).
Qed.

Lemma setForceRepaint_same r :
  forceRepaint r = false -> setForceRepaint r false = r.
Proof. destruct r. cbn. by intros ->. Qed.

(** The bytes of a flush that was not forced. *)
Lemma flush_incremental r :
  forceFullFlush r = false -> nothingToDo r = false ->
  set_Forall (fun i => 0 <= i) (ignoreLines r) ->
  let newLines := clipLines r (Split (buf r)) in
  exists skip,
    flush truncateString r
    = Flushed
        (recordRender
           (setSkipLines (incremental truncateString r newLines).1 skip)
           (len newLines) newLines (buf r))
        (Some ((incremental truncateString r newLines).2
               ++ cursorToStart (incremental truncateString r newLines).1)).
Proof.
  intros Hforce Hdo Hall newLines. unfold flush. rewrite Hdo, Hforce.
  assert (Hrepaint : forceRepaint r = false).
  { unfold forceFullFlush in Hforce. by apply orb_false_elim in Hforce as [_ ?]. }
  rewrite (setForceRepaint_same r Hrepaint). fold newLines.
  destruct (diffFlush_rows r newLines Hall) as [skip ->].
  exists skip. reflexivity.
Qed.

(** What [clearRows] appends does not depend on what was written before. *)
Lemma fold_clearRow_prefix newLines rows r out :
  fold_left (clearRow newLines) rows (r, out)
  = ((fold_left (clearRow newLines) rows (r, [])).1,
     out ++ (fold_left (clearRow newLines) rows (r, [])).2).
Proof.
  revert r out. induction rows as [| i rows IH]; intros r out.
  - cbn. by rewrite app_nil_r.
  - cbn [fold_left]. unfold clearRow at 2 4 6.
    destruct (skipRow r newLines i); [apply IH |].
    destruct (moveRenderingHead r i) as [r1 move].
    rewrite (IH r1 (out ++ move ++ ClearLine)), (IH r1 ([] ++ move ++ ClearLine)).
    cbn [fst snd]. by rewrite <- !app_assoc.
Qed.

Lemma clearRows_prefix newLines r out :
  clearRows newLines (r, out)
  = ((clearRows newLines (r, [])).1, out ++ (clearRows newLines (r, [])).2).
Proof.
  unfold clearRows. destruct (len newLines <? linesRendered r).
  - rewrite (fold_clearRow_prefix _ _ r (out ++ carriageReturn)),
      (fold_clearRow_prefix _ _ r ([] ++ carriageReturn)).
    destruct (fold_left (clearRow newLines) _ (r, [])) as [r1 out1].
    cbn [fst snd]. destruct (moveRenderingHead r1 _) as [r2 move].
    cbn [fst snd]. by rewrite <- !app_assoc.
  - cbn. by rewrite app_nil_r.
Qed.

Lemma clipLines_suffix r newLines :
  (0 < height r < len newLines ->
   len (clipLines r newLines) = height r
   /\ exists dropped, newLines = dropped ++ clipLines r newLines)
  /\ (height r <= 0 \/ len newLines <= height r -> clipLines r newLines = newLines).
Proof.
  unfold clipLines, len. split.
  - intros Hclip.
    destruct (Z.gtb_spec (height r) 0); [| lia].
    destruct (Z.gtb_spec (Z.of_nat (length newLines)) (height r)); [| lia].
    cbn [andb]. split.
    + rewrite length_drop. lia.
    + eexists. symmetry. apply take_drop.
  - intros Hall.
    destruct (Z.gtb_spec (height r) 0); [| done].
    destruct (Z.gtb_spec (Z.of_nat (length newLines)) (height r)); [lia | done].
Qed.


(** C10, amended. [write] replaces the pending frame by the string, and by
    one space when the string is empty. The flush that follows a [write]
    of the empty string leaves [lastRender] a space whenever it returns. It
    writes nothing when it is not forced and [lastRender] is a space
    already. When it is forced it paints the one line of a space, after
    the queued messages. Otherwise it paints the space on row 0 unless
    [skipRow] holds of that row, which is then ignored or has the space
    from the last render, and it clears the rows that the last render had
    below; in both cases it records the one line of a space. With a
    negative row among the ignored ones that flush panics. *)
Theorem C10_write_empty_is_space (r : standardRenderer) :
  let r1 := write r [] in
  let space := [bytes " "] in
  buf r1 = bytes " "
  /\ (forall s, s <> [] -> buf (write r s) = s)
  /\ (forall s, write r s = setBuf r (buf (write r s)))
  /\ (forceFullFlush r1 = false -> lastRender r1 = bytes " " ->
      flush truncateString r1 = Flushed r1 None)
  /\ (forceFullFlush r1 = true ->
      exists r',
        flush truncateString r1
        = Flushed r'
            (Some
               ((if renderingHead r1 =? 0 then [] else (moveRenderingHead r1 0).2)
                ++ mjoin
                     (map (fun line => ClearLine ++ line ++ carriageReturn ++ newline)
                        (queuedMessageLines r1))
                ++ (ClearLine ++ truncated truncateString r1 (bytes " "))
                ++ cursorToStart (setRenderingHead r1 0)))
        /\ lastRender r' = bytes " " /\ lastRenderLines r' = space
        /\ linesRendered r' = 1 /\ buf r' = [])
  /\ (forceFullFlush r1 = false -> lastRender r1 <> bytes " " ->
      set_Forall (fun i => 0 <= i) (ignoreLines r1) ->
      exists r',
        flush truncateString r1
        = Flushed r'
            (Some
               ((if skipRow r1 space 0 then []
                 else (moveRenderingHead r1 0).2
                      ++ (if 0 <? linesRendered r1 then ClearLine else [])
                      ++ truncated truncateString r1 (bytes " "))
                ++ (clearRows space ((paintRows truncateString r1 space).1, [])).2
                ++ cursorToStart (incremental truncateString r1 space).1))
        /\ lastRender r' = bytes " " /\ lastRenderLines r' = space
        /\ linesRendered r' = 1 /\ buf r' = [])
  /\ (forceFullFlush r1 = false -> lastRender r1 <> bytes " " ->
      ~ set_Forall (fun i => 0 <= i) (ignoreLines r1) ->
      flush truncateString r1 = FlushPanicked)
  /\ (skipRow r1 space 0 = true
      <-> 0 ∈ ignoreLines r1
          \/ (0 < linesRendered r1
              /\ lastRenderLines r1 !! 0%nat = Some (bytes " "))).
Proof.
  intros r1 space.
  assert (Hclip : clipLines r1 (Split (buf r1)) = space).
  { change (Split (buf r1)) with space.
    apply (clipLines_suffix r1 space). unfold len. cbn [length space]. lia. }
  split; [reflexivity |]. split; [| split; [reflexivity |]].
  { intros s Hs. unfold write. by rewrite bool_decide_eq_false_2. }
  assert (Hdo : forceFullFlush r1 = false -> lastRender r1 <> bytes " " ->
                nothingToDo r1 = false).
  { intros _ Hlast. unfold nothingToDo. change (buf r1) with (bytes " ").
    rewrite bool_decide_eq_false_2 by congruence. cbn. apply andb_false_r. }
  split; [| split; [| split; [| split]]].
  - intros Hforce Hlast. unfold flush, nothingToDo. rewrite Hforce, Hlast.
    change (buf r1) with (bytes " ").
    rewrite bool_decide_eq_true_2 by done. rewrite orb_true_r. cbn [negb andb].
    f_equal. apply setForceRepaint_same.
    unfold forceFullFlush in Hforce. by apply orb_false_elim in Hforce as [_ ?].
  - intros Hforce.
    rewrite (flush_forced truncateString r1) by exact Hforce. rewrite Hclip.
    match goal with
    | |- exists r', Flushed ?X _ = Flushed r' _ /\ _ => exists X
    end.
    split; [| by split_and!].
    do 4 f_equal. unfold paintAll. cbn. by rewrite !app_nil_r.
  - intros Hforce Hlast Hall.
    destruct (flush_incremental r1 Hforce (Hdo Hforce Hlast) Hall) as [skip ->].
    rewrite Hclip.
    match goal with
    | |- exists r', Flushed ?X _ = Flushed r' _ /\ _ => exists X
    end.
    split; [| by split_and!].
    f_equal. f_equal. rewrite app_assoc. f_equal.
    unfold incremental.
    rewrite (surjective_pairing (paintRows truncateString r1 space)) at 1.
    rewrite (clearRows_prefix space (paintRows truncateString r1 space).1
               (paintRows truncateString r1 space).2).
    cbn [snd]. f_equal.
    unfold paintRows. change (seqZ 0 (len space)) with [0]. cbn [fold_left].
    unfold paintRow.
    destruct (skipRow r1 space 0); [done |].
    pose proof (moveRenderingHead_moved r1 0) as (skip' & head & Hm).
    destruct (moveRenderingHead r1 0) as [r2 move]. cbn [fst snd] in *.
    subst r2. cbn [app]. by rewrite app_nil_r.
  - intros Hforce Hlast Hneg. unfold flush.
    rewrite (Hdo Hforce Hlast), Hforce. unfold diffFlush, markIgnored.
    change (ignoreLines (ensureSkiplinesSize ?a ?c)) with (ignoreLines a).
    change (ignoreLines (setForceRepaint r1 false)) with (ignoreLines r1).
    by rewrite bool_decide_eq_false_2.
  - unfold skipRow, unchanged, space.
    change (Z.to_nat 0) with 0%nat. cbn [lookup list_lookup].
    rewrite orb_true_iff, andb_true_iff, bool_decide_eq_true, Z.ltb_lt.
    destruct (lastRenderLines r1 !! 0%nat) as [old |] eqn:Hold.
    + rewrite bool_decide_eq_true. split; (intros [? | [? ?]]; [by left | right]);
        split; congruence.
    + split; (intros [? | [? ?]]; [by left | done]).
Qed.

End RowsFacts.

(** *** The height clip and the empty frame, on examples *)



(** C10 as stated fails: the flush after a [write] of the empty string
    writes nothing when [lastRender] is a space already, as after a first
    such [write] and flush; and over [spaceAbove], where row 0 has the
    space from the last render, it clears the row below and writes no
    space. *)
Lemma C10_counterexample_space_not_painted :
  (exists r1 r2,
     flush plainTruncate (write (newRenderer false 60) [])
     = Flushed r1 (Some (bytes " " ++ CursorBack 0))
     /\ flush plainTruncate (write r1 []) = Flushed r2 None)
  /\ exists r' written,
       flush plainTruncate (write spaceAbove []) = Flushed r' (Some written)
       /\ written = carriageReturn ++ ClearLine ++ CursorUp 1 ++ CursorBack 0
       /\ (x20 ∉ written)
       /\ lastRender r' = bytes " ".
Proof.
  split.
  - eexists _, _. split; [vm_compute; reflexivity |]. vm_compute. reflexivity.
  - eexists _, _. split; [vm_compute; reflexivity |].
    split; [reflexivity |]. split; [| reflexivity].
    apply (proj1 (bool_decide_eq_false _)). vm_compute. reflexivity.
Qed.

Lemma C10_witness :
  let r1 := write (newRenderer false 60) [] in
  exists r',
    flush plainTruncate r1 = Flushed r' (Some (bytes " " ++ CursorBack 0))
    /\ lastRender r' = bytes " " /\ lastRenderLines r' = [bytes " "]
    /\ linesRendered r' = 1 /\ buf r' = [].
Proof.
  intros r1.
  destruct (C10_write_empty_is_space plainTruncate (newRenderer false 60))
    as (_ & _ & _ & _ & _ & Hpaint & _ & _).
  destruct Hpaint as (r' & Hflush & Hrest).
  - reflexivity.
  - discriminate.
  - intros i Hi. by apply elem_of_empty in Hi.
  - exists r'. split; [| exact Hrest]. subst r1. rewrite Hflush. reflexivity.
Defined.

(** *** Examples for the properties above *)

Lemma println_printed_above_witness :
  let r := write (newRenderer false 60) (bytes "frame") in
  exists r',
    flush plainTruncate
      (handleMessages r (printLineMessage (bytes "hello" ++ newline ++ bytes "world"))).1
    = Flushed r'
        (Some
           (ClearLine ++ bytes "hello" ++ carriageReturn ++ newline
            ++ ClearLine ++ bytes "world" ++ carriageReturn ++ newline
            ++ ClearLine ++ bytes "frame" ++ CursorBack 0))
    /\ queuedMessageLines r' = [].
Proof.
  cbv zeta.
  destruct (println_printed_above plainTruncate
              (write (newRenderer false 60) (bytes "frame"))
              (bytes "hello" ++ newline ++ bytes "world") eq_refl)
    as (_ & _ & r' & Hflush & Hq & _).
  exists r'. split; [| exact Hq]. rewrite Hflush. vm_compute. reflexivity.
Defined.

Lemma repaint_without_write_blanks_witness :
  let r := write (newRenderer false 60) (bytes "frame") in
  exists r1 out r2,
    flush plainTruncate r = Flushed r1 (Some out)
    /\ flush plainTruncate (repaint r1)
       = Flushed r2 (Some (ClearLine ++ CursorBack 0))
    /\ lastRender r2 = [] /\ lastRenderLines r2 = [[]] /\ linesRendered r2 = 1.
Proof.
  cbv zeta.
  destruct (flush plainTruncate (write (newRenderer false 60) (bytes "frame")))
    as [r1 [out |] |] eqn:Hflush; try (vm_compute in Hflush; discriminate).
  destruct (repaint_without_write_blanks plainTruncate _ _ _ Hflush)
    as (r2 & Hflush2 & Hrest).
  exists r1, out, r2. split; [reflexivity |]. split; [| exact Hrest].
  rewrite Hflush2. vm_compute in Hflush. injection Hflush as <- _.
  vm_compute. reflexivity.
Defined.

Lemma enterAltScreen_repaints_from_top_witness :
  let r := write (newRenderer false 60) (bytes "one" ++ newline ++ bytes "two") in
  (enterAltScreen r).2
  = AltScreen ++ ClearScreen ++ MoveCursor 1 1 ++ ShowCursor
  /\ exists r',
       flush plainTruncate (enterAltScreen r).1
       = Flushed r'
           (Some
              (ClearLine ++ bytes "one" ++ carriageReturn ++ newline
               ++ ClearLine ++ bytes "two" ++ MoveCursor 2 0))
       /\ renderingHead r' = 1.
Proof.
  cbv zeta.
  destruct (enterAltScreen_repaints_from_top plainTruncate
              (write (newRenderer false 60) (bytes "one" ++ newline ++ bytes "two"))
              eq_refl)
    as (Hout & _ & r' & Hflush & Hhead & _).
  split; [exact Hout |]. exists r'. split; [| exact Hhead].
  rewrite Hflush. vm_compute. reflexivity.
Defined.

Lemma flush_head_in_frame_witness :
  let r := write threeLines (bytes "one") in
  exists r' written,
    flush plainTruncate r = Flushed r' written
    /\ headInFrame r' /\ renderingHead r' = 0 /\ linesRendered r' = 1.
Proof.
  cbv zeta.
  destruct (flush plainTruncate (write threeLines (bytes "one")))
    as [r' written |] eqn:Hflush; [| vm_compute in Hflush; discriminate].
  exists r', written. split; [reflexivity |].
  split.
  - apply (flush_head_in_frame plainTruncate (write threeLines (bytes "one"))
             r' written); try exact Hflush; vm_compute; try discriminate.
    split; [discriminate | reflexivity].
  - vm_compute in Hflush. by injection Hflush as <- _.
Defined.

Lemma first_flush_witness :
  let r :=
    write (newRenderer false 60)
      (bytes "Thing to render" ++ newline ++ bytes "that is multiple"
       ++ newline ++ bytes "lines") in
  exists r',
    flush plainTruncate r
    = Flushed r'
        (Some
           (bytes "Thing to render" ++ carriageReturn ++ newline
            ++ bytes "that is multiple" ++ carriageReturn ++ newline
            ++ bytes "lines" ++ CursorBack 0))
    /\ renderingHead r' = 2 /\ linesRendered r' = 3.
Proof.
  cbv zeta.
  destruct (first_flush plainTruncate
              (write (newRenderer false 60)
                 (bytes "Thing to render" ++ newline ++ bytes "that is multiple"
                  ++ newline ++ bytes "lines")))
    as (r' & Hflush & Hhead & Hlines & _);
    try (vm_compute; first [reflexivity | discriminate]).
  exists r'. split; [| split].
  - rewrite Hflush. vm_compute. reflexivity.
  - rewrite Hhead. vm_compute. reflexivity.
  - rewrite Hlines. vm_compute. reflexivity.
Defined.

Lemma ignored_rows_not_painted_witness :
  let r :=
    write (setIgnoredLines threeLines 1 2).1
      (bytes "ONE" ++ newline ++ bytes "two" ++ newline ++ bytes "three") in
  writtenBy (flush plainTruncate r)
  = writtenBy
      (flush plainTruncate
         (setBuf r (bytes "ONE" ++ newline ++ bytes "anything" ++ newline
                    ++ bytes "three"))).
Proof.
  cbv zeta.
  apply (ignored_rows_not_painted plainTruncate); try (vm_compute; reflexivity).
  intros j Hj.
  destruct j as [| [| j]]; [reflexivity | | reflexivity].
  exfalso. apply Hj.
  match goal with |- ?P => apply (bool_decide_eq_true_1 P) end.
  vm_compute. reflexivity.
Defined.

Lemma flush_one_line_changed_witness :
  let r :=
    write threeLines (bytes "one" ++ newline ++ bytes "TWO" ++ newline ++ bytes "three") in
  exists r',
    flush plainTruncate r
    = Flushed r'
        (Some
           (CursorUp 1 ++ ClearLine ++ bytes "TWO" ++ carriageReturn
            ++ CursorBack 0))
    /\ renderingHead r' = 1.
Proof.
  cbv zeta.
  destruct (flush_one_line_changed plainTruncate
              (write threeLines
                 (bytes "one" ++ newline ++ bytes "TWO" ++ newline ++ bytes "three"))
              1 (bytes "TWO"))
    as (r' & Hflush & Hhead & _);
    try (vm_compute; first [reflexivity | discriminate]).
  - split; vm_compute; discriminate.
  - intros [| [| [| j]]] Hj; try reflexivity. done.
  - exists r'. split; [| exact Hhead]. rewrite Hflush. vm_compute. reflexivity.
Defined.

End RendererFacts.
